(** * Texcaller: a shallow embedding of [texcaller.c]

    The C functions of [src/texcaller.c] are rendered as Rocq functions.

    - C strings are [string]s (one [ascii] per [char]); a [char *] that may
      be [NULL] is an [option string]; byte buffers read from files are
      [string]s too, paired with their [size_t] size as the source does.
    - [malloc] may fail.  The outcome of each allocation is taken from the
      [heap] component of the [World], which is threaded through every
      function that allocates.
    - The operating system (files, directories, processes, environment) is
      an oracle: the answer of each system call is supplied as data (the
      scripts below), and every call made is added to the [trace] of the
      [World].  One call of a function asks for each answer at most once,
      so that the scripts range over every behaviour of the system.
    - [free] has no counterpart: buffers are values.
    - [int] and [long] values are integers of [Z]; [size_t] values wrap
      around at 64 bits where the source converts to them. *)

From Stdlib Require Import String Ascii List ZArith Lia Bool DecimalString.
Import ListNotations.

Local Open Scope string_scope.
Local Open Scope Z_scope.

(** ** C strings and formatting *)

Module CString.

Definition NUL : ascii := "000"%char.
Definition newline : ascii := "010"%char.
Definition dquote : ascii := "034"%char.

Definition nl : string := String newline EmptyString.

(** A [%s] conversion written between double quotes in a format. *)
Definition quoted (s : string) : string :=
  String dquote s ++ String dquote EmptyString.

(** The conversion [%lu] of a [size_t] cast to [unsigned long]. *)
Definition fmt_lu (n : Z) : string := NilZero.string_of_uint (N.to_uint (Z.to_N n)).

(** The conversion [%i] of an [int]. *)
Definition fmt_i (n : Z) : string := NilZero.string_of_int (Z.to_int n).

(** The C string held by a buffer: its bytes up to the first NUL. *)
Fixpoint cstr (s : string) : string :=
  match s with
  | EmptyString => EmptyString
  | String c r => if Ascii.eqb c NUL then EmptyString else String c (cstr r)
  end.

Definition strlen (s : string) : Z := Z.of_nat (String.length s).

(** [strcmp(a, b) == 0] *)
Definition streq (a b : string) : bool := String.eqb a b.

End CString.
Import CString.

(** ** The world: allocator state and system-call trace *)

Inductive syscall : Type :=
| Getenv (name : string)
| Mkdtemp (template : string)
| Fopen (path mode : string)
| Fseek (path : string)
| Ftell (path : string)
| Fread (path : string) (n : Z)
| Fwrite (path : string) (bytes : string)
| Fclose (path : string)
| Fork
| Waitpid
| Opendir (dirname : string)
| Readdir (dirname : string)
| Closedir (dirname : string)
| Unlink (name : string)
| Rmdir (dirname : string).

Record World : Type := mkWorld {
  heap : list bool;      (* outcomes of the coming [malloc] calls; once the
                            list is used up every allocation succeeds *)
  trace : list syscall   (* system calls of the calling process so far,
                            most recent first *)
}.

Definition M (A : Type) : Type := World -> A * World.

Definition ret {A} (a : A) : M A := fun w => (a, w).

Definition bind {A B} (m : M A) (k : A -> M B) : M B :=
  fun w => let (a, w') := m w in k a w'.

Declare Scope m_scope.
Delimit Scope m_scope with M.
Notation "x <- c1 ;; c2" := (bind c1 (fun x => c2))
  (at level 61, c1 at next level, right associativity) : m_scope.
Notation "' pat <- c1 ;; c2" := (bind c1 (fun x => match x with pat => c2 end))
  (at level 61, pat pattern, c1 at next level, right associativity) : m_scope.
Notation "c1 ;; c2" := (bind c1 (fun _ => c2))
  (at level 61, right associativity) : m_scope.
Local Open Scope m_scope.

(** [malloc(n)]: [true] when a buffer is returned, [false] for [NULL]. *)
Definition malloc (n : Z) : M bool :=
  fun w =>
    match heap w with
    | [] => (true, w)
    | b :: h => (b, mkWorld h (trace w))
    end.

(** A system call: it is recorded; its answer comes from the script. *)
Definition sys (c : syscall) : M unit :=
  fun w => (tt, mkWorld (heap w) (c :: trace w)).

(** Every allocation to come succeeds. *)
Definition reliable (w : World) : Prop := Forall (fun b => b = true) (heap w).

(** The outcome of a call that reports failure through [errno]:
    [Fails reason] carries [strerror(errno)]. *)
Inductive sysres : Type :=
| Done
| Fails (reason : string).

(** [strerror(ENOMEM)], the [errno] a failed [malloc] leaves. *)
Definition strerror_ENOMEM : string := "Cannot allocate memory".

(** ** [escape_latex_char] *)

Definition escape_latex_char (c : ascii) : option string :=
  if Ascii.eqb c "$" then Some "\$"
  else if Ascii.eqb c "%" then Some "\%"
  else if Ascii.eqb c "&" then Some "\&"
  else if Ascii.eqb c "#" then Some "\#"
  else if Ascii.eqb c "_" then Some "\_"
  else if Ascii.eqb c "{" then Some "\{"
  else if Ascii.eqb c "}" then Some "\}"
  else if Ascii.eqb c "[" then Some "{[}"
  else if Ascii.eqb c "]" then Some "{]}"
  else if Ascii.eqb c dquote then Some "{''}"
  else if Ascii.eqb c "\" then Some "\textbackslash{}"
  else if Ascii.eqb c "~" then Some "\textasciitilde{}"
  else if Ascii.eqb c "<" then Some "\textless{}"
  else if Ascii.eqb c ">" then Some "\textgreater{}"
  else if Ascii.eqb c "^" then Some "\textasciicircum{}"
  else if Ascii.eqb c "`" then Some "{}`"
  else if Ascii.eqb c newline then Some "\\"
  else None.

(** ** [sprintf_alloc]

    The argument is the text [vsnprintf] produces for the format and its
    arguments; each call site writes the format out.  [vsnprintf] returns
    the length of that text as an [int]; for a text of more than [INT_MAX]
    bytes it returns a negative value, and the function returns [NULL]
    before it allocates anything.

    [sprintf_alloc] is the function on a text that fits in an [int], where
    [len] is the length of the text.  The texts of this program fit at
    every call site but two: they are made of the names of files in the
    workspace, of messages of [strerror] and of numbers.  The two are the
    message that quotes the formats, which are the caller's, and the
    diagnostic joined with the log, which is as long as the log file.  At
    these [sprintf_alloc_int] puts the test on the length first. *)
Definition sprintf_alloc (text : string) : M (option string) :=
  let len := strlen text in
  if len <=? 0 then ret None
  else
    ok <- malloc (len + 1) ;;
    if ok then ret (Some text) else ret None.

Definition INT_MAX : Z := 2147483647.

Definition sprintf_alloc_int (text : string) : M (option string) :=
  if INT_MAX <? strlen text then ret None   (* [len <= 0] *)
  else sprintf_alloc text.

(** ** [texcaller_escape_latex] *)

(** First loop: the length of the result. *)
Fixpoint escaped_length (s : string) (length : Z) : Z :=
  match s with
  | EmptyString => length
  | String c r =>
      if Ascii.eqb c NUL then length
      else match escape_latex_char c with
           | None => escaped_length r (length + 1)
           | Some escaped_char => escaped_length r (length + strlen escaped_char)
           end
  end.

(** Second loop: [buf] is [escaped_string[0..pos)]. *)
Fixpoint escaped_fill (s : string) (buf : string) : string :=
  match s with
  | EmptyString => buf
  | String c r =>
      if Ascii.eqb c NUL then buf
      else match escape_latex_char c with
           | None => escaped_fill r (buf ++ String c EmptyString)
           | Some escaped_char => escaped_fill r (buf ++ escaped_char)
           end
  end.

Definition texcaller_escape_latex (s : string) : M (option string) :=
  let length := escaped_length s 0 in
  ok <- malloc (length + 1) ;;
  if ok then ret (Some (escaped_fill s EmptyString)) else ret None.

(** The substitution table of the specification, entry by entry. *)
Definition substitution_table : list (ascii * string) :=
  [ ("$"%char, "\$"); ("%"%char, "\%"); ("&"%char, "\&"); ("#"%char, "\#");
    ("_"%char, "\_"); ("{"%char, "\{"); ("}"%char, "\}");
    ("["%char, "{[}"); ("]"%char, "{]}"); (dquote, "{''}");
    ("\"%char, "\textbackslash{}"); ("~"%char, "\textasciitilde{}");
    ("<"%char, "\textless{}"); (">"%char, "\textgreater{}");
    ("^"%char, "\textasciicircum{}"); ("`"%char, "{}`"); (newline, "\\") ].

Fixpoint table_lookup (t : list (ascii * string)) (c : ascii) : option string :=
  match t with
  | [] => None
  | (k, v) :: t' => if Ascii.eqb c k then Some v else table_lookup t' c
  end.

(** What the specification asks of the escaper: each character replaced by
    its table entry, or kept when it has none. *)
Fixpoint substitute (s : string) : string :=
  match s with
  | EmptyString => EmptyString
  | String c r =>
      match table_lookup substitution_table c with
      | Some e => e ++ substitute r
      | None => String c (substitute r)
      end
  end.

(** ** [read_file] *)

(** Sizes are [size_t] values: 64 bits wide (LP64). *)
Definition to_size_t (n : Z) : Z := n mod 2 ^ 64.

(** The answers of the stream calls [read_file] makes on one file. *)
Record read_script : Type := mkRead {
  rs_fopen : sysres;
  rs_fseek_end : sysres;
  rs_ftell : Z;               (* the [long] that [ftell] returns *)
  rs_ftell_reason : string;   (* [strerror(errno)] when it is [-1] *)
  rs_fseek_set : sysres;
  rs_fread : string;          (* the bytes the stream has to deliver *)
  rs_ferror : sysres;         (* [ferror(file)] after [fread] *)
  rs_fclose : sysres
}.

(** The triple [( *dest, *dest_size, *error )] left by [read_file]. *)
Definition read_result : Type := (option string * Z * option string)%type.

Definition read_file (path : string) (rs : read_script) : M read_result :=
  (* label [error_cleanup]; [file_open] says whether [file != NULL] *)
  let error_cleanup (file_open : bool) (error : option string) : M read_result :=
    (if file_open then sys (Fclose path) else ret tt) ;;
    ret (None, 0, error) in
  sys (Fopen path "rb") ;;
  match rs_fopen rs with
  | Fails reason =>
      error <- sprintf_alloc ("Unable to open file " ++ quoted path
                              ++ " for reading: " ++ reason ++ ".") ;;
      error_cleanup false error
  | Done =>
  sys (Fseek path) ;;
  match rs_fseek_end rs with
  | Fails reason =>
      error <- sprintf_alloc ("Unable to seek to end of file " ++ quoted path
                              ++ ": " ++ reason ++ ".") ;;
      error_cleanup true error
  | Done =>
  sys (Ftell path) ;;
  let file_size := rs_ftell rs in
  if file_size =? -1 then
      error <- sprintf_alloc ("Unable to obtain size of file " ++ quoted path
                              ++ ": " ++ rs_ftell_reason rs ++ ".") ;;
      error_cleanup true error
  else
  let dest_size := to_size_t file_size in
  sys (Fseek path) ;;
  match rs_fseek_set rs with
  | Fails reason =>
      error <- sprintf_alloc ("Unable to seek back to start of file " ++ quoted path
                              ++ ": " ++ reason ++ ".") ;;
      error_cleanup true error
  | Done =>
  allocated <- malloc (to_size_t (dest_size + 1)) ;;
  if negb allocated then
      error <- sprintf_alloc ("Unable to allocate buffer for reading file "
                              ++ quoted path ++ ": " ++ strerror_ENOMEM ++ ".") ;;
      error_cleanup true error
  else
  sys (Fread path dest_size) ;;
  let data := substring 0 (Z.to_nat dest_size) (rs_fread rs) in
  let read_size := strlen data in
  match rs_ferror rs with
  | Fails reason =>
      error <- sprintf_alloc ("Unable to read " ++ fmt_lu dest_size
                              ++ " bytes from file " ++ quoted path
                              ++ ": " ++ reason ++ ".") ;;
      error_cleanup true error
  | Done =>
  if negb (read_size =? dest_size) then
      error <- sprintf_alloc ("Unable to read " ++ fmt_lu dest_size
                              ++ " bytes from file " ++ quoted path
                              ++ ": Got only " ++ fmt_lu read_size ++ " bytes.") ;;
      error_cleanup true error
  else
  sys (Fclose path) ;;
  match rs_fclose rs with
  | Fails reason =>
      error <- sprintf_alloc ("Unable to close file " ++ quoted path
                              ++ " after reading: " ++ reason ++ ".") ;;
      error_cleanup false error
  | Done => ret (Some data, dest_size, None)
  end end end end end.

(** ** [write_file] *)

Record write_script : Type := mkWrite {
  ws_fopen : sysres;
  ws_fwrite : Z;        (* the count [fwrite] returns *)
  ws_ferror : sysres;   (* [ferror(file)] after [fwrite] *)
  ws_fclose : sysres
}.

Definition write_file (path : string) (src : string) (src_size : Z)
    (ws : write_script) : M (Z * option string) :=
  let error_cleanup (file_open : bool) (error : option string) : M (Z * option string) :=
    (if file_open then sys (Fclose path) else ret tt) ;;
    ret (-1, error) in
  sys (Fopen path "wb") ;;
  match ws_fopen ws with
  | Fails reason =>
      error <- sprintf_alloc ("Unable to open file " ++ quoted path
                              ++ " for writing: " ++ reason ++ ".") ;;
      error_cleanup false error
  | Done =>
  sys (Fwrite path (substring 0 (Z.to_nat src_size) src)) ;;
  let written_size := ws_fwrite ws in
  match ws_ferror ws with
  | Fails reason =>
      error <- sprintf_alloc ("Unable to write " ++ fmt_lu src_size
                              ++ " bytes to file " ++ quoted path
                              ++ ": " ++ reason ++ ".") ;;
      error_cleanup true error
  | Done =>
  if negb (written_size =? src_size) then
      error <- sprintf_alloc ("Unable to write " ++ fmt_lu src_size
                              ++ " bytes to file " ++ quoted path
                              ++ ": Only " ++ fmt_lu written_size
                              ++ " bytes were written.") ;;
      error_cleanup true error
  else
  sys (Fclose path) ;;
  match ws_fclose ws with
  | Fails reason =>
      error <- sprintf_alloc ("Unable to close file " ++ quoted path
                              ++ " after writing: " ++ reason ++ ".") ;;
      error_cleanup false error
  | Done => ret (0, None)
  end end end.

(** ** [remove_directory_recursively]

    The directory calls are answered from a finite tree: for the directory
    and for everything below it, what [opendir], [readdir], [closedir],
    [unlink] and [rmdir] answer when the traversal reaches them. *)

Inductive dirtree : Type :=
| Directory (dt_opendir : sysres)
            (dt_entries : list (string * dirnode))   (* [readdir], in order *)
            (dt_closedir : sysres)
            (dt_rmdir : sysres)
with dirnode : Type :=
| NotDir (nd_unlink : sysres)    (* [d_type != DT_DIR]; answer of [unlink] *)
| IsDir (sub : dirtree).         (* [d_type == DT_DIR] *)

Definition is_null {A} (p : option A) : bool :=
  match p with None => true | Some _ => false end.

Section Each_entry.

(** The recursive call, and the directory being emptied. *)
Variable remove_sub : string -> dirtree -> M (Z * option string).
Variable dirname : string.

(** The loop [for (entry = readdir(dir); entry != NULL; entry = readdir(dir))];
    [error] is [*error]. *)
Fixpoint each_entry (es : list (string * dirnode)) (error : option string)
    {struct es} : M (option string) :=
  sys (Readdir dirname) ;;
  match es with
  | [] => ret error
  | (d_name, node) :: rest =>
      if streq d_name "." || streq d_name ".." then
        each_entry rest error
      else
        name <- sprintf_alloc (dirname ++ "/" ++ d_name) ;;
        match name, error with
        | None, None =>
            error <- sprintf_alloc "Out of memory." ;;
            each_entry rest error
        | None, Some _ =>
            (* the source goes on with [name == NULL] and passes it to
               [opendir] or to [unlink], which no call is defined for;
               the model leaves the entry here, with [*error] as it is.
               The branch needs an allocation to fail after an error was
               recorded. *)
            each_entry rest error
        | Some name, _ =>
            match node with
            | IsDir sub =>
                '(rc, sub_error) <- remove_sub name sub ;;
                if negb (rc =? 0) && is_null error
                then each_entry rest sub_error
                else each_entry rest error
            | NotDir unlink_res =>
                sys (Unlink name) ;;
                match unlink_res, error with
                | Fails reason, None =>
                    error <- sprintf_alloc ("Unable to remove file " ++ quoted name
                                            ++ ": " ++ reason ++ ".") ;;
                    each_entry rest error
                | _, _ => each_entry rest error
                end
            end
        end
  end.

End Each_entry.

Fixpoint remove_directory_recursively (dirname : string) (t : dirtree)
    {struct t} : M (Z * option string) :=
  match t with
  | Directory opendir_res entries closedir_res rmdir_res =>
      (* continue on errors and report only the first error that occured *)
      let error : option string := None in
      sys (Opendir dirname) ;;
      error <-
        match opendir_res, error with
        | Fails reason, None =>
            sprintf_alloc ("Unable to read directory entries of " ++ quoted dirname
                           ++ ": " ++ reason ++ ".")
        | _, _ =>
            error <- each_entry remove_directory_recursively dirname entries error ;;
            sys (Closedir dirname) ;;
            match closedir_res, error with
            | Fails reason, None =>
                sprintf_alloc ("Unable to close directory " ++ quoted dirname
                               ++ ": " ++ reason ++ ".")
            | _, _ => ret error
            end
        end ;;
      sys (Rmdir dirname) ;;
      match rmdir_res with
      | Fails reason =>
          error <- match error with
                   | None => sprintf_alloc ("Unable to remove directory "
                                            ++ quoted dirname ++ ": " ++ reason ++ ".")
                   | Some _ => ret error
                   end ;;
          ret (-1, error)
      | Done =>
          (* all previous errors are irrelevant because rmdir() was successful *)
          ret (0, None)
      end
  end.

(** ** [texcaller_convert] *)

Inductive mkdtemp_res : Type :=
| Created (suffix : string)      (* the characters that replace [XXXXXX] *)
| NotCreated (tried : string)    (* what it left in their place *)
             (reason : string).

(** What [waitpid] finally reports about the child. *)
Inductive wait_res : Type :=
| WaitFails (reason : string)    (* [wpid == -1] *)
| Signaled (sig : Z)             (* [WIFSIGNALED(status)] *)
| Exited (status : Z).           (* [WIFEXITED(status)] *)

(** One pass of the [for] loop: the answers to [fork], to [waitpid] and to
    the reading of the auxiliary file.  [r_wait_other] counts the times
    [waitpid] first returns a status that is neither exited nor signaled,
    which makes the inner [for (;;)] call it again. *)
Record run_script : Type := mkRun {
  r_fork : sysres;
  r_wait_other : nat;
  r_wait : wait_res;
  r_aux : read_script
}.

(** The system as one call of [texcaller_convert] meets it.  Only the
    parent process is followed: the child is seen through [waitpid] (a
    child in which [execlp] fails goes on in the code of the parent; it is
    not followed either). *)
Record script : Type := mkScript {
  s_TMPDIR : option string;      (* [getenv("TMPDIR")] *)
  s_mkdtemp : mkdtemp_res;
  s_write : write_script;        (* writing [texput.tex] *)
  s_run : Z -> run_script;       (* run number [runs] *)
  s_dest : read_script;          (* reading the destination file *)
  s_log : read_script;           (* reading [texput.log] *)
  s_tree : dirtree               (* the workspace when it is removed *)
}.

(** The argument check that selects [cmd]. *)
Definition select_cmd (src_format dest_format : string) : option string :=
  if streq src_format "TeX" && streq dest_format "DVI" then Some "tex"
  else if streq src_format "TeX" && streq dest_format "PDF" then Some "pdftex"
  else if streq src_format "LaTeX" && streq dest_format "DVI" then Some "latex"
  else if streq src_format "LaTeX" && streq dest_format "PDF" then Some "pdflatex"
  else None.

(** [memcmp(a, b, n) == 0]; a [NULL] pointer has no bytes to compare. *)
Definition buffer_bytes (p : option string) : string :=
  match p with None => EmptyString | Some b => b end.

Definition memcmp_eq (a b : option string) (n : Z) : bool :=
  String.eqb (substring 0 (Z.to_nat n) (buffer_bytes a))
             (substring 0 (Z.to_nat n) (buffer_bytes b)).

(** The inner [for (;;)] around [waitpid]. *)
Fixpoint wait_for_child (other : nat) (final : wait_res) : M wait_res :=
  sys Waitpid ;;
  match other with
  | O => ret final
  | S other' => wait_for_child other' final
  end.

(** How one pass of the loop ends. *)
Inductive pass_end : Type :=
| Next_run (aux : option string) (aux_size : Z)       (* [runs++] *)
| Goto_cleanup (dest : option string) (dest_size : Z) (info : option string).

Definition success_text (dest_format : string) (dest_size : Z)
    (src_format : string) (src_size : Z) (runs : Z) : string :=
  "Generated " ++ dest_format ++ " (" ++ fmt_lu dest_size ++ " bytes)"
  ++ " from " ++ src_format ++ " (" ++ fmt_lu src_size ++ " bytes) after "
  ++ fmt_i runs ++ " runs.".

Section Run.

Variables (src_format dest_format : string) (src_size : Z).
Variables (cmd aux_filename dest_filename : string).
Variable s : script.

(** The body of [for (runs = 1; runs <= max_runs; runs++)], in the process
    that calls [texcaller_convert].  Where [fork] returns [0] another
    process goes on: the model does not follow it. *)
Definition run_once (runs : Z) (aux : option string) (aux_size : Z) : M pass_end :=
  let r := s_run s runs in
  sys Fork ;;
  match r_fork r with
  | Fails reason =>
      info <- sprintf_alloc ("Unable to fork child process: " ++ reason ++ ".") ;;
      ret (Goto_cleanup None 0 info)
  | Done =>
  (* [pid == 0] is the child: it changes to [dir], closes the standard
     streams and executes [cmd]; the parent goes on here *)
  (* wait for child process *)
  status <- wait_for_child (r_wait_other r) (r_wait r) ;;
  match status with
  | WaitFails reason =>
      info <- sprintf_alloc ("Unable to wait for child process: " ++ reason ++ ".") ;;
      ret (Goto_cleanup None 0 info)
  | Signaled sig =>
      info <- sprintf_alloc ("Command " ++ quoted cmd ++ " was terminated by signal "
                             ++ fmt_i sig ++ ".") ;;
      ret (Goto_cleanup None 0 info)
  | Exited exit_status =>
  if negb (exit_status =? 0) then
      info <- sprintf_alloc ("Command " ++ quoted cmd ++ " terminated with exit status "
                             ++ fmt_i exit_status ++ ".") ;;
      ret (Goto_cleanup None 0 info)
  else
  (* read new aux file, saving old one *)
  let aux_old := aux in
  let aux_old_size := aux_size in
  '(aux, aux_size, error) <- read_file aux_filename (r_aux r) ;;
  (* check whether aux file stabilized,
     which is also true if there isn't and wasn't any aux file *)
  if (aux_size =? aux_old_size) && memcmp_eq aux aux_old aux_size then
    '(dest, dest_size, error) <- read_file dest_filename (s_dest s) ;;
    match dest with
    | None => ret (Goto_cleanup None dest_size error)
    | Some _ =>
        info <- sprintf_alloc (success_text dest_format dest_size
                                            src_format src_size runs) ;;
        ret (Goto_cleanup dest dest_size info)
    end
  else ret (Next_run aux aux_size)
  end end.

(** The [for] loop; [left] is the number of passes still allowed,
    [max_runs - runs + 1], so that [left = O] stands for [runs > max_runs].
    [None]: the loop condition became false.  ([runs] remains an [int] as
    long as [max_runs] is below [INT_MAX].) *)
Fixpoint run_loop (left : nat) (runs : Z) (aux : option string) (aux_size : Z)
    : M (option (option string * Z * option string)) :=
  match left with
  | O => ret None
  | S left' =>
      e <- run_once runs aux aux_size ;;
      match e with
      | Goto_cleanup dest dest_size info => ret (Some (dest, dest_size, info))
      | Next_run aux' aux_size' => run_loop left' (runs + 1) aux' aux_size'
      end
  end.

End Run.

(** The variables that the code after the label [cleanup] reads. *)
Record locals : Type := mkLocals {
  l_dest : option string;
  l_dest_size : Z;
  l_info : option string;
  l_dir : option string;
  l_log_filename : option string
}.

(** What the caller gets: [*dest], [*dest_size] and [*info]. *)
Record result : Type := mkResult {
  dest : option string;
  dest_size : Z;
  info : option string
}.

(** [texcaller_convert] up to the label [cleanup].  [src] stands for the
    [src_size] bytes at [src]. *)
Definition convert_body (src src_format dest_format : string) (max_runs : Z)
    (s : script) : M locals :=
  let src_size := strlen src in
  (* check arguments *)
  match select_cmd src_format dest_format with
  | None =>
      info <- sprintf_alloc_int ("Unable to convert from " ++ quoted src_format
                                 ++ " to " ++ quoted dest_format ++ ".") ;;
      ret (mkLocals None 0 info None None)
  | Some cmd =>
  if max_runs <? 2 then
      info <- sprintf_alloc ("Argument max_runs is " ++ fmt_i max_runs
                             ++ ", but must be >= 2.") ;;
      ret (mkLocals None 0 info None None)
  else
  (* create temporary directory *)
  sys (Getenv "TMPDIR") ;;
  let tmpdir := match s_TMPDIR s with
                | None => "/tmp"
                | Some t => if streq t EmptyString then "/tmp" else t
                end in
  dir_template <- sprintf_alloc (tmpdir ++ "/texcaller-temp-XXXXXX") ;;
  match dir_template with
  | None => ret (mkLocals None 0 None None None)
  | Some dir_template =>
  sys (Mkdtemp dir_template) ;;
  match s_mkdtemp s with
  | NotCreated tried reason =>
      (* [mkdtemp] has written into [dir_template] *)
      let dir_template := tmpdir ++ "/texcaller-temp-" ++ tried in
      info <- sprintf_alloc ("Unable to create temporary directory from template "
                             ++ quoted dir_template ++ ": " ++ reason ++ ".") ;;
      ret (mkLocals None 0 info None None)
  | Created suffix =>
  let dir := tmpdir ++ "/texcaller-temp-" ++ suffix in
  src_filename <- sprintf_alloc (dir ++ "/texput.tex") ;;
  match src_filename with
  | None => ret (mkLocals None 0 None (Some dir) None)
  | Some src_filename =>
  aux_filename <- sprintf_alloc (dir ++ "/texput.aux") ;;
  match aux_filename with
  | None => ret (mkLocals None 0 None (Some dir) None)
  | Some aux_filename =>
  log_filename <- sprintf_alloc (dir ++ "/texput.log") ;;
  match log_filename with
  | None => ret (mkLocals None 0 None (Some dir) None)
  | Some log_filename =>
  dest_filename <- (if streq dest_format "DVI"
                    then sprintf_alloc (dir ++ "/texput.dvi")
                    else sprintf_alloc (dir ++ "/texput.pdf")) ;;
  match dest_filename with
  | None => ret (mkLocals None 0 None (Some dir) (Some log_filename))
  | Some dest_filename =>
  (* create source file *)
  '(rc, error) <- write_file src_filename src src_size (s_write s) ;;
  if negb (rc =? 0) then
      ret (mkLocals None 0 error (Some dir) (Some log_filename))
  else
  (* run command as often as necessary *)
  e <- run_loop src_format dest_format src_size cmd aux_filename dest_filename s
                (Z.to_nat max_runs) 1 None 0 ;;
  match e with
  | Some (dest, dest_size, info) =>
      ret (mkLocals dest dest_size info (Some dir) (Some log_filename))
  | None =>
      (* aux file didn't stabilize *)
      info <- sprintf_alloc ("Output didn't stabilize after " ++ fmt_i max_runs
                             ++ " runs.") ;;
      ret (mkLocals None 0 info (Some dir) (Some log_filename))
  end end end end end end end end.

(** The first half of [cleanup]: the log file joins the diagnostic. *)
Definition append_log (s : script) (l : locals) : M (option string) :=
  match l_log_filename l with
  | Some log_filename =>
      '(log, log_size, error) <- read_file log_filename (s_log s) ;;
      match log with
      | Some log =>
          match l_info l with
          | None => ret (Some (cstr log))
          | Some info_old => sprintf_alloc_int (info_old ++ nl ++ nl ++ cstr log)
          end
      | None => ret (l_info l)
      end
  | None => ret (l_info l)
  end.

(** The second half: the workspace is removed. *)
Definition remove_workspace (s : script) (l : locals) (info : option string)
    : M result :=
  match l_dir l with
  | Some dir =>
      '(rc, error) <- remove_directory_recursively dir (s_tree s) ;;
      if negb (rc =? 0) then ret (mkResult None 0 error)
      else ret (mkResult (l_dest l) (l_dest_size l) info)
  | None => ret (mkResult (l_dest l) (l_dest_size l) info)
  end.

Definition cleanup (s : script) (l : locals) : M result :=
  info <- append_log s l ;;
  remove_workspace s l info.

Definition texcaller_convert (src src_format dest_format : string) (max_runs : Z)
    (s : script) : M result :=
  l <- convert_body src src_format dest_format max_runs s ;;
  cleanup s l.

(** * Specification-side notions *)

(** [s] occurs in [t], decided. *)
Fixpoint occursb (s t : string) : bool :=
  prefix s t ||
  match t with
  | EmptyString => false
  | String _ t' => occursb s t'
  end.

Definition occurs (s t : string) : Prop := occursb s t = true.

(** The outcome of the next allocation. *)
Definition next_alloc (w : World) : bool :=
  match heap w with
  | [] => true
  | b :: _ => b
  end.

(** What a value [None] may stand for when a text was to be allocated:
    [p] is [text], or [NULL] because the allocation failed. *)
Definition allocated_or_null (p : option string) (text : string) : Prop :=
  p = Some text \/ p = None.

(** A computation that keeps its promise [Q] about its value whenever
    every allocation succeeds, and leaves the allocator in that state. *)
Definition safe {A} (m : M A) (Q : A -> Prop) : Prop :=
  forall w, reliable w -> Q (fst (m w)) /\ reliable (snd (m w)).

(** ** The escaper *)

Definition no_NUL (s : string) : Prop := cstr s = s.

(** ** Reading a file *)

(** The operations of [read_file] that can fail. *)
Inductive read_phase : Type :=
| Open | SeekEnd | SizeQuery | SeekStart | Allocate | Read | ShortRead | Close.

(** What the file holds for [read_file]: the bytes [fread] stores. *)
Definition delivered (rs : read_script) : string :=
  substring 0 (Z.to_nat (to_size_t (rs_ftell rs))) (rs_fread rs).

(** The first operation that fails, if any; [alloc] is the outcome of the
    allocation of the buffer. *)
Definition first_failure (rs : read_script) (alloc : bool) : option read_phase :=
  match rs_fopen rs with Fails _ => Some Open | Done =>
  match rs_fseek_end rs with Fails _ => Some SeekEnd | Done =>
  if rs_ftell rs =? -1 then Some SizeQuery else
  match rs_fseek_set rs with Fails _ => Some SeekStart | Done =>
  if negb alloc then Some Allocate else
  match rs_ferror rs with Fails _ => Some Read | Done =>
  if negb (strlen (delivered rs) =? to_size_t (rs_ftell rs)) then Some ShortRead else
  match rs_fclose rs with Fails _ => Some Close | Done => None
  end end end end end.

(** The words by which an error message names the operation. *)
Definition operation (ph : read_phase) (rs : read_script) : string :=
  match ph with
  | Open => "open file "
  | SeekEnd => "seek to end of file "
  | SizeQuery => "obtain size of file "
  | SeekStart => "seek back to start of file "
  | Allocate => "allocate buffer for reading file "
  | Read | ShortRead => "read " ++ fmt_lu (to_size_t (rs_ftell rs)) ++ " bytes from file "
  | Close => "close file "
  end.

(** An error message that names the operation and the path. *)
Definition names_failure (ph : read_phase) (rs : read_script) (path message : string)
    : Prop :=
  exists detail,
    message = "Unable to " ++ operation ph rs ++ quoted path ++ detail.

(** The buffer and size [read_file] leaves when every allocation succeeds
    (the path only shows in the error message). *)
Definition read_bytes (rs : read_script) : option string * Z :=
  match first_failure rs true with
  | None => (Some (delivered rs), to_size_t (rs_ftell rs))
  | Some _ => (None, 0)
  end.

(** The file is absent: it cannot be opened. *)
Definition absent (rs : read_script) : Prop :=
  exists reason, rs_fopen rs = Fails reason.

(** The file is there and holds [content], read without incident. *)
Definition holds (rs : read_script) (content : string) : Prop :=
  rs_fopen rs = Done /\ rs_fseek_end rs = Done /\
  rs_ftell rs = strlen content /\ rs_fseek_set rs = Done /\
  rs_fread rs = content /\ rs_ferror rs = Done /\ rs_fclose rs = Done.

(** ** Removing a directory *)

Definition rmdir_failure (dirname reason : string) : string :=
  "Unable to remove directory " ++ quoted dirname ++ ": " ++ reason ++ ".".

Definition unlink_failure (name reason : string) : string :=
  "Unable to remove file " ++ quoted name ++ ": " ++ reason ++ ".".

Section Errors_of_entries.

(** The error a sub-directory reports, if its removal fails. *)
Variable sub_report : string -> dirtree -> option string.
Variable dirname : string.

Fixpoint errors_of_entries (es : list (string * dirnode)) : list string :=
  match es with
  | [] => []
  | (d_name, node) :: rest =>
      if streq d_name "." || streq d_name ".." then errors_of_entries rest
      else
        let name := dirname ++ "/" ++ d_name in
        match node with
        | NotDir Done => errors_of_entries rest
        | NotDir (Fails reason) => unlink_failure name reason :: errors_of_entries rest
        | IsDir sub =>
            match sub_report name sub with
            | Some e => e :: errors_of_entries rest
            | None => errors_of_entries rest
            end
        end
  end.

End Errors_of_entries.

(** [*error] keeps the first error: the one it holds, else the first of
    those that follow. *)
Definition first_of (error : option string) (later : list string) : option string :=
  match error with
  | Some e => Some e
  | None => hd_error later
  end.

Definition final_rmdir (t : dirtree) : sysres :=
  match t with Directory _ _ _ rmdir_res => rmdir_res end.

(** The earliest of the errors met while a directory is traversed (listing
    it, removing each entry in turn, closing it), if there is one, and the
    error its removal reports: none when the final [rmdir] succeeds; else
    the earliest error met, or the failure of [rmdir] when none was met.
    A sub-directory counts among the entries with the one error its own
    removal reports. *)
Fixpoint earliest_error (dirname : string) (t : dirtree) {struct t} : option string :=
  match t with
  | Directory opendir_res entries closedir_res _ =>
      match opendir_res with
      | Fails reason =>
          Some ("Unable to read directory entries of " ++ quoted dirname
                ++ ": " ++ reason ++ ".")
      | Done =>
          hd_error
            (errors_of_entries
               (fun name sub =>
                  match final_rmdir sub with
                  | Done => None
                  | Fails reason =>
                      Some match earliest_error name sub with
                           | Some e => e
                           | None => rmdir_failure name reason
                           end
                  end) dirname entries
             ++ match closedir_res with
                | Fails reason =>
                    ["Unable to close directory " ++ quoted dirname
                     ++ ": " ++ reason ++ "."]
                | Done => []
                end)
      end
  end.

(** What the removal returns and reports when every allocation succeeds. *)
Definition removal_report (dirname : string) (t : dirtree) : Z * option string :=
  match final_rmdir t with
  | Done => (0, None)
  | Fails reason =>
      (-1, Some match earliest_error dirname t with
                | Some e => e
                | None => rmdir_failure dirname reason
                end)
  end.

(** The nodes of a tree, to reason by induction on it. *)
Fixpoint dirtree_size (t : dirtree) : nat :=
  match t with
  | Directory _ entries _ _ =>
      S ((fix sum (es : list (string * dirnode)) : nat :=
            match es with
            | [] => O
            | (_, NotDir _) :: rest => S (sum rest)
            | (_, IsDir sub) :: rest => (S (dirtree_size sub) + sum rest)%nat
            end) entries)
  end.

(** ** Converting *)

Definition supported_pairs : list (string * string * string) :=
  [ ("TeX", "DVI", "tex"); ("TeX", "PDF", "pdftex");
    ("LaTeX", "DVI", "latex"); ("LaTeX", "PDF", "pdflatex") ].

Definition supported (src_format dest_format : string) : Prop :=
  exists cmd, In (src_format, dest_format, cmd) supported_pairs.

Definition unsupported_text (src_format dest_format : string) : string :=
  "Unable to convert from " ++ quoted src_format
  ++ " to " ++ quoted dest_format ++ ".".

Definition max_runs_text (max_runs : Z) : string :=
  "Argument max_runs is " ++ fmt_i max_runs ++ ", but must be >= 2.".

Definition exhausted_text (max_runs : Z) : string :=
  "Output didn't stabilize after " ++ fmt_i max_runs ++ " runs.".

(** The directory [mkdtemp] creates. *)
Definition workspace (s : script) (suffix : string) : string :=
  match s_TMPDIR s with
  | None => "/tmp"
  | Some t => if streq t EmptyString then "/tmp" else t
  end ++ "/texcaller-temp-" ++ suffix.

(** The source file is written without incident. *)
Definition written (ws : write_script) (src : string) : Prop :=
  ws_fopen ws = Done /\ ws_ferror ws = Done /\
  ws_fwrite ws = strlen src /\ ws_fclose ws = Done.

(** The bytes of the auxiliary file after run [k]; before the first run
    there is none.  An absent file has no bytes. *)
Definition aux_bytes (s : script) (k : Z) : string :=
  if k <=? 0 then EmptyString
  else buffer_bytes (fst (read_bytes (r_aux (s_run s k)))).

(** Run [k] forks, and its child exits with status zero. *)
Definition run_completes (s : script) (k : Z) : Prop :=
  r_fork (s_run s k) = Done /\ r_wait (s_run s k) = Exited 0.

(** What the log file adds to a diagnostic. *)
Definition log_tail (s : script) : string :=
  match fst (read_bytes (s_log s)) with
  | Some log => nl ++ nl ++ cstr log
  | None => EmptyString
  end.

(** The diagnostic tells of a success: it opens with the report of the
    formats, the byte counts and the number of runs. *)
Definition describes_success (dest_format : string) (dest_size : Z)
    (src_format : string) (src_size : Z) (max_runs : Z) (d : string) : Prop :=
  exists runs, 1 <= runs <= max_runs /\
    prefix (success_text dest_format dest_size src_format src_size runs) d = true.

(** The diagnostic tells of a failure: it opens with the words of one of
    the error messages. *)
Definition describes_failure (d : string) : Prop :=
  prefix "Unable to " d = true \/
  prefix "Argument max_runs is " d = true \/
  prefix "Command " d = true \/
  prefix "Output didn't stabilize after " d = true.

(** What the loop may hand to the code at [cleanup]: destination bytes with
    the report of the success at some run, or none with the cause of the
    failure. *)
Definition handed_over (dest_format src_format : string) (src_size : Z)
    (first last : Z) (d : option string) (dsz : Z) (i : option string) : Prop :=
  (exists b runs, d = Some b /\ dsz = strlen b /\ first <= runs <= last /\
     i = Some (success_text dest_format dsz src_format src_size runs)) \/
  (d = None /\ dsz = 0 /\ exists m, i = Some m /\ describes_failure m).

(** The two states a call can end in. *)
Definition succeeded (dest_format src_format : string) (src_size max_runs : Z)
    (r : result) : Prop :=
  exists bytes d,
    dest r = Some bytes /\ dest_size r = strlen bytes /\ info r = Some d /\
    describes_success dest_format (strlen bytes) src_format src_size max_runs d.

Definition failed (r : result) : Prop :=
  exists d,
    dest r = None /\ dest_size r = 0 /\ info r = Some d /\ describes_failure d.

(** The number of [fork] calls in a trace. *)
Fixpoint forks (t : list syscall) : nat :=
  match t with
  | [] => O
  | Fork :: t' => S (forks t')
  | _ :: t' => forks t'
  end.

(** The world in which a pass of the loop reads the auxiliary file: the
    child has been forked and waited for. *)
Definition after_wait (r : run_script) (w : World) : World :=
  snd (wait_for_child (r_wait_other r) (r_wait r) (snd (sys Fork w))).

(** The contract of [read_file]: with no failing operation the caller gets
    the bytes and their exact number; with [ph] failing, the no-data result
    and an error message that names the operation and the path (the
    message itself is missing only when it cannot be allocated). *)
Definition read_contract (path : string) (rs : read_script) (w : World)
    (failure : option read_phase) (r : read_result) : Prop :=
  match failure with
  | None => r = (Some (delivered rs), to_size_t (rs_ftell rs), None)
  | Some ph =>
      exists error,
        r = (None, 0, error) /\
        (forall message, error = Some message -> names_failure ph rs path message) /\
        (reliable w -> error <> None)
  end.

(** * Sample systems

    Concrete scripts, on which the properties below are exercised. *)

Definition fresh_world : World := mkWorld [] [].

(** A file that is there and reads without incident. *)
Definition plain_file (content : string) : read_script :=
  mkRead Done Done (strlen content) EmptyString Done content Done Done.

(** A file that is not there. *)
Definition missing_file : read_script :=
  mkRead (Fails "No such file or directory") Done 0 EmptyString Done EmptyString
         Done Done.

(** The two entries every directory lists and the traversal skips. *)
Definition dot_entries : list (string * dirnode) :=
  [ (".", IsDir (Directory Done [] Done Done));
    ("..", IsDir (Directory Done [] Done Done)) ].

(** A workspace that goes away without incident. *)
Definition tidy_tree : dirtree :=
  Directory Done
    (dot_entries ++ [("texput.tex", NotDir Done); ("texput.aux", NotDir Done);
                     ("texput.log", NotDir Done); ("texput.pdf", NotDir Done)])
    Done Done.

(** A workspace one file of which cannot be removed, so that the directory
    cannot either. *)
Definition stuck_tree : dirtree :=
  Directory Done
    (dot_entries ++ [("texput.tex", NotDir Done);
                     ("texput.log", NotDir (Fails "Permission denied"))])
    Done (Fails "Directory not empty").

(** A workspace whose files go but which cannot be removed itself. *)
Definition pinned_tree : dirtree :=
  Directory Done
    (dot_entries ++ [("texput.tex", NotDir Done); ("texput.aux", NotDir Done);
                     ("texput.log", NotDir Done); ("texput.pdf", NotDir Done)])
    Done (Fails "Permission denied").

(** A workspace whose listing cannot be closed, and which goes all the same. *)
Definition glitch_tree : dirtree :=
  Directory Done
    (dot_entries ++ [("texput.tex", NotDir Done)])
    (Fails "Input/output error") Done.

(** A system in which everything goes well: the source has four bytes, the
    auxiliary file after run [k] is [aux k], the destination and log files
    are there, and the workspace is [tree] when it is removed. *)
Definition sample_script (aux : Z -> read_script) (tree : dirtree) : script :=
  mkScript None (Created "qWeRtY") (mkWrite Done 4 Done Done)
           (fun k => mkRun Done 0 (Exited 0) (aux k))
           (plain_file "%PDF-1.5") (plain_file "This is pdfTeX") tree.

(** The auxiliary file is the same after every run. *)
Definition steady_script : script :=
  sample_script (fun _ => plain_file "\relax ") tidy_tree.

(** There is no auxiliary file. *)
Definition no_aux_script : script :=
  sample_script (fun _ => missing_file) tidy_tree.



(** The conversion goes well, and the workspace cannot be removed. *)
Definition steady_pinned_script : script :=
  sample_script (fun _ => plain_file "\relax ") pinned_tree.

(** The allocator refuses the first buffer asked for. *)
Definition starved_world : World := mkWorld [false] [].

(** * Further notions *)

(** ** The escaper *)

(** [c] occurs in [s]. *)
Fixpoint has_char (c : ascii) (s : string) : bool :=
  match s with
  | EmptyString => false
  | String x r => Ascii.eqb x c || has_char c r
  end.

(** The characters that the escaper leaves nowhere in its result: those it
    replaces by a text that does without them. *)
Definition removed_chars : list ascii :=
  [ dquote; "~"%char; "<"%char; ">"%char; "^"%char; newline ].

(** ** Files *)

(** Every step of [write_file] goes well: the file opens, [fwrite]
    reports no error and returns [src_size], the file closes. *)
Definition write_succeeds (ws : write_script) (src_size : Z) : Prop :=
  ws_fopen ws = Done /\ ws_ferror ws = Done /\
  ws_fwrite ws = src_size /\ ws_fclose ws = Done.

(** The number of [fclose] calls in a trace, and the number of streams a
    call to [fopen] with this answer opens. *)
Fixpoint closes (t : list syscall) : nat :=
  match t with
  | [] => O
  | Fclose _ :: t' => S (closes t')
  | _ :: t' => closes t'
  end.

Definition opened (r : sysres) : nat :=
  match r with
  | Done => 1
  | Fails _ => 0
  end.

(** ** The calls of a removal *)

(** With a reliable allocator [m] keeps the allocator reliable, and the
    value it returns and the system calls it makes, most recent first,
    satisfy [Q]. *)
Definition yields {A} (m : M A) (Q : A -> list syscall -> Prop) : Prop :=
  forall w, reliable w ->
    exists calls,
      trace (snd (m w)) = (calls ++ trace w)%list /\
      Q (fst (m w)) calls /\ reliable (snd (m w)).

(** [path] is [dirname] or lies beneath it. *)
Definition beneath (dirname path : string) : bool :=
  String.eqb path dirname || prefix (dirname ++ "/") path.

(** A call that lists or removes [dirname] or something beneath it. *)
Definition removes_in (dirname : string) (c : syscall) : Prop :=
  match c with
  | Opendir p | Readdir p | Closedir p | Unlink p | Rmdir p =>
      beneath dirname p = true
  | _ => False
  end.

Section Calls_of_entries.

Variable sub_calls : string -> dirtree -> list syscall.
Variable dirname : string.

Fixpoint calls_of_entries (es : list (string * dirnode)) : list syscall :=
  Readdir dirname ::
  match es with
  | [] => []
  | (d_name, node) :: rest =>
      if streq d_name "." || streq d_name ".." then calls_of_entries rest
      else
        let name := dirname ++ "/" ++ d_name in
        match node with
        | NotDir _ => Unlink name :: calls_of_entries rest
        | IsDir sub => sub_calls name sub ++ calls_of_entries rest
        end
  end.

End Calls_of_entries.

(** The calls of a traversal that stops at no error, in the order they are
    made: only the answers of [opendir] and [readdir] count. *)
Fixpoint removal_calls (dirname : string) (t : dirtree) {struct t} : list syscall :=
  match t with
  | Directory opendir_res entries _ _ =>
      Opendir dirname ::
      match opendir_res with
      | Fails _ => []
      | Done => calls_of_entries removal_calls dirname entries ++ [Closedir dirname]
      end ++ [Rmdir dirname]
  end.

(** The same directory when [unlink], [closedir] and [rmdir] never fail. *)
Fixpoint forgiving (t : dirtree) : dirtree :=
  match t with
  | Directory opendir_res entries _ _ =>
      Directory opendir_res
        (map (fun e : string * dirnode =>
                (fst e, match snd e with
                        | NotDir _ => NotDir Done
                        | IsDir sub => IsDir (forgiving sub)
                        end)) entries)
        Done Done
  end.

Section Listed_entries.

Variable sub_listed : string -> dirtree -> list (string * dirnode).
Variable dirname : string.

Fixpoint listed_entries (es : list (string * dirnode)) : list (string * dirnode) :=
  match es with
  | [] => []
  | (d_name, node) :: rest =>
      if streq d_name "." || streq d_name ".." then listed_entries rest
      else
        let name := dirname ++ "/" ++ d_name in
        (name, node)
        :: match node with
           | NotDir _ => []
           | IsDir sub => sub_listed name sub
           end ++ listed_entries rest
  end.

End Listed_entries.

(** Everything [readdir] lists in [dirname] and below, under its full
    name, but for the entries [.] and [..]. *)
Fixpoint listed (dirname : string) (t : dirtree) {struct t} : list (string * dirnode) :=
  match t with
  | Directory Done entries _ _ => listed_entries listed dirname entries
  | Directory (Fails _) _ _ _ => []
  end.

(** The call that removes an entry. *)
Definition removal_attempt (name : string) (node : dirnode) : syscall :=
  match node with
  | NotDir _ => Unlink name
  | IsDir _ => Rmdir name
  end.

(** ** The calls of a conversion *)

(** Whatever the allocator does, the value [m] returns and the system
    calls it makes, most recent first, satisfy [Q]. *)
Definition always {A} (m : M A) (Q : A -> list syscall -> Prop) : Prop :=
  forall w, exists calls,
    trace (snd (m w)) = (calls ++ trace w)%list /\ Q (fst (m w)) calls.

(** A call on the stream of the file [path]. *)
Definition on_file (path : string) (c : syscall) : Prop :=
  match c with
  | Fopen p _ | Fseek p | Ftell p | Fread p _ | Fwrite p _ | Fclose p => p = path
  | _ => False
  end.

(** A call that starts no process. *)
Definition no_fork (c : syscall) : Prop :=
  match c with
  | Fork => False
  | _ => True
  end.

(** The conditions under which [texcaller_convert] reaches its loop, the
    allocator permitting: the formats are supported, [max_runs] is at
    least 2, the workspace is created and the source file is written in
    full. *)
Definition engine_ready (src src_format dest_format : string) (max_runs : Z)
    (s : script) : Prop :=
  supported src_format dest_format /\ 2 <= max_runs /\
  (exists suffix, s_mkdtemp s = Created suffix) /\
  written (s_write s) src.

(** Destination bytes, when there are any, are the content of the
    destination file, with their number. *)
Definition bytes_of_file (rs : read_script) (d : option string) (dsz : Z) : Prop :=
  match d with
  | None => dsz = 0
  | Some b => b = delivered rs /\ dsz = strlen b
  end.

(** The template [mkdtemp] is given. *)
Definition workspace_template (s : script) : string :=
  match s_TMPDIR s with
  | None => "/tmp"
  | Some t => if streq t EmptyString then "/tmp" else t
  end ++ "/texcaller-temp-XXXXXX".

(** What a conversion may call once its workspace [dir] is there: [fork]
    and [waitpid], and calls on [dir] or on what lies beneath it. *)
Definition in_workspace (dir : string) (c : syscall) : Prop :=
  match c with
  | Fork | Waitpid => True
  | Getenv _ | Mkdtemp _ => False
  | Fopen p _ | Fseek p | Ftell p | Fread p _ | Fwrite p _ | Fclose p
  | Opendir p | Readdir p | Closedir p | Unlink p | Rmdir p =>
      beneath dir p = true
  end.

(** The diagnostic of a run that does not complete, if run [r] is one:
    [fork] fails, [waitpid] fails, the child is ended by a signal, or it
    exits with a status other than zero. *)
Definition engine_failure (cmd : string) (r : run_script) : option string :=
  match r_fork r with
  | Fails reason => Some ("Unable to fork child process: " ++ reason ++ ".")
  | Done =>
      match r_wait r with
      | WaitFails reason =>
          Some ("Unable to wait for child process: " ++ reason ++ ".")
      | Signaled sig =>
          Some ("Command " ++ quoted cmd ++ " was terminated by signal "
                ++ fmt_i sig ++ ".")
      | Exited exit_status =>
          if negb (exit_status =? 0)
          then Some ("Command " ++ quoted cmd ++ " terminated with exit status "
                     ++ fmt_i exit_status ++ ".")
          else None
      end
  end.

(** ** Further sample systems *)

(** A system in which the first run changes the auxiliary file and the
    second exits with status 1. *)
Definition failing_script : script :=
  mkScript None (Created "qWeRtY") (mkWrite Done 4 Done Done)
           (fun k => if k =? 1
                     then mkRun Done 0 (Exited 0) (plain_file "\relax ")
                     else mkRun Done 0 (Exited 1) missing_file)
           missing_file (plain_file "! Undefined control sequence.") tidy_tree.


(** A directory with two files that cannot be removed. *)
Definition twice_stuck_tree : dirtree :=
  Directory Done
    [ ("a", NotDir (Fails "Permission denied"));
      ("b", NotDir (Fails "Read-only file system")) ]
    Done (Fails "Directory not empty").

(** An empty directory that cannot be removed. *)
Definition empty_pinned_tree : dirtree :=
  Directory Done [] Done (Fails "Permission denied").

(** A world in which the second allocation fails. *)
Definition second_fails_world : World := mkWorld [true; false] [].

(** A text of [n] bytes, and a format name of [INT_MAX + 1] bytes. *)
Fixpoint repeat_char (c : ascii) (n : nat) : string :=
  match n with
  | O => EmptyString
  | S n' => String c (repeat_char c n')
  end.

Definition long_format : string := repeat_char "x" (Z.to_nat (INT_MAX + 1)).

(** A system in which everything goes well and the log has [INT_MAX + 1]
    bytes. *)
Definition verbose_script : script :=
  mkScript None (Created "qWeRtY") (mkWrite Done 4 Done Done)
           (fun k => mkRun Done 0 (Exited 0) missing_file)
           (plain_file "%PDF-1.5") (plain_file long_format) tidy_tree.

(** * Properties *)

(** ** Strings *)

Lemma append_empty_r (s : string) : s ++ EmptyString = s.
Proof. induction s as [|c s IH]; simpl; [reflexivity | now rewrite IH]. Qed.

Lemma append_assoc (a b c : string) : (a ++ b) ++ c = a ++ (b ++ c).
Proof. induction a as [|x a IH]; simpl; [reflexivity | now rewrite IH]. Qed.

Lemma length_append (a b : string) :
  String.length (a ++ b) = (String.length a + String.length b)%nat.
Proof. induction a as [|x a IH]; simpl; [reflexivity | now rewrite IH]. Qed.

Lemma strlen_append (a b : string) : strlen (a ++ b) = strlen a + strlen b.
Proof. unfold strlen. rewrite length_append. lia. Qed.

Lemma strlen_nonneg (s : string) : 0 <= strlen s.
Proof. unfold strlen. lia. Qed.

Lemma prefix_append (a b : string) : prefix a (a ++ b) = true.
Proof.
  induction a as [|x a IH]; simpl.
  - now destruct b.
  - destruct (ascii_dec x x) as [_|N]; [exact IH | now elim N].
Qed.

Lemma prefix_append_r (p a b : string) : prefix p a = true -> prefix p (a ++ b) = true.
Proof.
  revert a. induction p as [|x p IH]; intros a H.
  - now destruct (a ++ b).
  - destruct a as [|y a]; simpl in *; [discriminate|].
    destruct (ascii_dec x y); [now apply IH | discriminate].
Qed.

Lemma occurs_prefix (s t : string) : prefix s t = true -> occurs s t.
Proof. unfold occurs. intros H. destruct t; cbn [occursb]; rewrite H; reflexivity. Qed.

Lemma occurs_after (s a t : string) : occurs s t -> occurs s (a ++ t).
Proof.
  unfold occurs. intros H. induction a as [|x a IH]; [exact H|].
  cbn [append occursb]. rewrite IH. apply orb_true_r.
Qed.

Lemma occurs_middle (s a b : string) : occurs s (a ++ s ++ b).
Proof. apply occurs_after, occurs_prefix, prefix_append. Qed.

Lemma substring_all (s : string) : substring 0 (String.length s) s = s.
Proof. induction s as [|c s IH]; simpl; [reflexivity | now rewrite IH]. Qed.

Lemma substring_whole (n : nat) (s : string) :
  String.length s = n -> substring 0 n s = s.
Proof. intros <-. apply substring_all. Qed.

(** ** The monad *)

Lemma reliable_next (w : World) : reliable w -> next_alloc w = true.
Proof.
  unfold reliable, next_alloc. destruct (heap w) as [|b h]; [reflexivity|].
  intros H. now inversion H.
Qed.

Lemma malloc_outcome (n : Z) (w : World) :
  fst (malloc n w) = next_alloc w /\ trace (snd (malloc n w)) = trace w.
Proof. unfold malloc, next_alloc. destruct (heap w); simpl; auto. Qed.

Lemma malloc_reliable (n : Z) (w : World) :
  reliable w -> fst (malloc n w) = true /\ reliable (snd (malloc n w)).
Proof.
  unfold reliable, malloc. destruct (heap w) as [|b h] eqn:E; simpl; intros H.
  - rewrite E. auto.
  - inversion H; subst. auto.
Qed.

Lemma sprintf_alloc_outcome (text : string) (w : World) :
  text <> EmptyString ->
  fst (sprintf_alloc text w) = (if next_alloc w then Some text else None)
  /\ trace (snd (sprintf_alloc text w)) = trace w.
Proof.
  intros Hne. unfold sprintf_alloc, bind, ret.
  destruct (strlen text <=? 0) eqn:E.
  - destruct text; [now elim Hne|].
    apply Z.leb_le in E. unfold strlen in E. cbn [String.length] in E. lia.
  - destruct (malloc_outcome (strlen text + 1) w) as [H1 H2].
    destruct (malloc (strlen text + 1) w) as [ok w']. simpl in *. subst ok.
    destruct (next_alloc w); simpl; auto.
Qed.

Lemma sprintf_alloc_either (text : string) (w : World) :
  allocated_or_null (fst (sprintf_alloc text w)) text
  /\ trace (snd (sprintf_alloc text w)) = trace w.
Proof.
  unfold sprintf_alloc, bind, ret, allocated_or_null.
  destruct (strlen text <=? 0); simpl; [auto|].
  destruct (malloc_outcome (strlen text + 1) w) as [_ H2].
  destruct (malloc (strlen text + 1) w) as [ok w']. simpl in *.
  destruct ok; simpl; auto.
Qed.

Lemma safe_ret {A} (a : A) (Q : A -> Prop) : Q a -> safe (ret a) Q.
Proof. intros H w Hw. simpl. auto. Qed.

Lemma safe_bind {A B} (m : M A) (k : A -> M B) (P : A -> Prop) (Q : B -> Prop) :
  safe m P -> (forall a, P a -> safe (k a) Q) -> safe (bind m k) Q.
Proof.
  intros Hm Hk w Hw. unfold bind.
  destruct (Hm w Hw) as [Pa Hw']. destruct (m w) as [a w']. simpl in *.
  exact (Hk a Pa w' Hw').
Qed.

Lemma safe_weaken {A} (m : M A) (P Q : A -> Prop) :
  safe m P -> (forall a, P a -> Q a) -> safe m Q.
Proof. intros Hm H w Hw. destruct (Hm w Hw). auto. Qed.

Lemma safe_sys (c : syscall) : safe (sys c) (fun _ => True).
Proof. intros w Hw. simpl. auto. Qed.

Lemma safe_malloc (n : Z) : safe (malloc n) (fun ok => ok = true).
Proof. intros w Hw. now apply malloc_reliable. Qed.

Lemma safe_sprintf_alloc (text : string) :
  text <> EmptyString -> safe (sprintf_alloc text) (fun p => p = Some text).
Proof.
  intros Hne w Hw. unfold sprintf_alloc, bind, ret.
  destruct (strlen text <=? 0) eqn:E.
  - destruct text; [now elim Hne|].
    apply Z.leb_le in E. unfold strlen in E. cbn [String.length] in E. lia.
  - destruct (malloc_reliable (strlen text + 1) w Hw) as [H1 H2].
    destruct (malloc (strlen text + 1) w) as [ok w']. simpl in *. subst ok. auto.
Qed.

Lemma safe_sprintf_alloc_int (text : string) :
  text <> EmptyString -> strlen text <= INT_MAX ->
  safe (sprintf_alloc_int text) (fun p => p = Some text).
Proof.
  intros Hne Hfit. unfold sprintf_alloc_int.
  destruct (INT_MAX <? strlen text) eqn:E; [apply Z.ltb_lt in E; lia|].
  now apply safe_sprintf_alloc.
Qed.

Lemma sprintf_alloc_reliable (text : string) :
  safe (sprintf_alloc text) (fun _ => True).
Proof.
  intros w Hw. split; [exact I|]. unfold sprintf_alloc, bind, ret.
  destruct (strlen text <=? 0); [exact Hw|].
  destruct (malloc_reliable (strlen text + 1) w Hw) as [_ H].
  destruct (malloc (strlen text + 1) w) as [[|] w']; exact H.
Qed.

Lemma sprintf_alloc_int_reliable (text : string) :
  safe (sprintf_alloc_int text) (fun _ => True).
Proof.
  unfold sprintf_alloc_int. destruct (INT_MAX <? strlen text).
  - now apply safe_ret.
  - apply sprintf_alloc_reliable.
Qed.

Lemma sprintf_alloc_int_either (text : string) (w : World) :
  allocated_or_null (fst (sprintf_alloc_int text w)) text
  /\ trace (snd (sprintf_alloc_int text w)) = trace w.
Proof.
  unfold sprintf_alloc_int. destruct (INT_MAX <? strlen text).
  - split; [now right | reflexivity].
  - apply sprintf_alloc_either.
Qed.

(** ** The escaper *)

Lemma escape_latex_char_table (c : ascii) :
  escape_latex_char c = table_lookup substitution_table c.
Proof. reflexivity. Qed.

Lemma escaped_fill_substitute (s buf : string) :
  escaped_fill s buf = buf ++ substitute (cstr s).
Proof.
  revert buf. induction s as [|c s IH]; intros buf; cbn [escaped_fill cstr].
  - cbn [substitute]. now rewrite append_empty_r.
  - destruct (Ascii.eqb c NUL); cbn [substitute]; [now rewrite append_empty_r|].
    change (table_lookup substitution_table c) with (escape_latex_char c).
    destruct (escape_latex_char c) as [e|]; rewrite IH, append_assoc; reflexivity.
Qed.

(** The buffer is filled exactly: the length counted by the first loop is
    the length written by the second. *)
Lemma escaped_length_fill (s buf : string) :
  escaped_length s (strlen buf) = strlen (escaped_fill s buf).
Proof.
  revert buf. induction s as [|c s IH]; intros buf;
    cbn [escaped_length escaped_fill]; [reflexivity|].
  destruct (Ascii.eqb c NUL); [reflexivity|].
  destruct (escape_latex_char c) as [e|]; rewrite <- IH, strlen_append; reflexivity.
Qed.

Lemma texcaller_escape_latex_outcome (s : string) (w : World) :
  fst (texcaller_escape_latex s w)
  = if next_alloc w then Some (substitute (cstr s)) else None.
Proof.
  unfold texcaller_escape_latex, bind, ret.
  destruct (malloc_outcome (escaped_length s 0 + 1) w) as [H _].
  destruct (malloc (escaped_length s 0 + 1) w) as [ok w']. simpl in H. subst ok.
  destruct (next_alloc w); simpl; [|reflexivity].
  now rewrite escaped_fill_substitute.
Qed.

(** C6. [texcaller_escape_latex] replaces every character of its input by
    its entry in the substitution table and keeps every character that has
    none: [escape_latex_char] is the table, the string returned (when its
    buffer is allocated, and it is whenever allocation succeeds) is the
    character-wise substitution of the input, and
    ["100% & $5_free"] becomes ["100\% \& \$5\_free"]. *)
Theorem escape_latex_by_table :
  (forall c, escape_latex_char c = table_lookup substitution_table c) /\
  (forall s w escaped, no_NUL s ->
     fst (texcaller_escape_latex s w) = Some escaped -> escaped = substitute s) /\
  (forall s w, no_NUL s -> reliable w ->
     fst (texcaller_escape_latex s w) = Some (substitute s)) /\
  fst (texcaller_escape_latex "100% & $5_free" (mkWorld [] []))
  = Some "100\% \& \$5\_free".
Proof.
  split; [exact escape_latex_char_table|]. split; [|split].
  - intros s w escaped Hs H. rewrite texcaller_escape_latex_outcome, Hs in H.
    destruct (next_alloc w); congruence.
  - intros s w Hs Hw. rewrite texcaller_escape_latex_outcome, Hs.
    now rewrite (reliable_next w Hw).
  - reflexivity.
Qed.

Lemma escape_latex_by_table_witness :
  no_NUL "a_b" /\ reliable (mkWorld [true] []) /\
  fst (texcaller_escape_latex "a_b" (mkWorld [true] [])) = Some (substitute "a_b").
Proof.
  split; [reflexivity|]. split; [repeat constructor|].
  apply (proj1 (proj2 (proj2 escape_latex_by_table))); [reflexivity | repeat constructor].
Defined.

(** ** Reading a file *)

Lemma names_failure_occurs (ph : read_phase) (rs : read_script) (path message : string) :
  names_failure ph rs path message -> occurs path message.
Proof.
  intros [detail ->]. apply occurs_after, occurs_after.
  unfold quoted. cbn [append]. rewrite append_assoc.
  apply (occurs_after path (String dquote EmptyString)), occurs_prefix, prefix_append.
Qed.

Lemma Some_eq {A} (a b : A) : Some a = Some b -> a = b.
Proof. congruence. Qed.

(** The code at the label [error_cleanup], entered with a fresh message. *)
Lemma read_error_path (text : string) (close : M unit) (w : World) :
  text <> EmptyString ->
  fst ((error <- sprintf_alloc text ;; close ;; ret (@None string, 0, error)) w)
  = (None, 0, if next_alloc w then Some text else None).
Proof.
  intros Hne. unfold bind.
  destruct (sprintf_alloc_outcome text w Hne) as [H _].
  destruct (sprintf_alloc text w) as [p w']. cbn [fst] in H. subst p.
  destruct (close w'). reflexivity.
Qed.

Ltac failure_branch Hrel :=
  unfold read_contract;
  match goal with
  | |- exists error, fst (bind (sprintf_alloc ?text) _ ?w) = _ /\ _ =>
      exists (if next_alloc w then Some text else None);
      split; [apply read_error_path; discriminate|];
      split;
      [ let Hx := fresh "Hx" in
        intros message Hx; destruct (next_alloc w); [|discriminate];
        apply Some_eq in Hx; subst message;
        eexists; cbn [operation]; repeat rewrite append_assoc; reflexivity
      | intros Hw; rewrite (reliable_next w (Hrel Hw)); discriminate ]
  end.

Lemma read_file_outcome (path : string) (rs : read_script) (w : World) :
  read_contract path rs w (first_failure rs (next_alloc w)) (fst (read_file path rs w)).
Proof.
  unfold first_failure, read_file, delivered.
  destruct (rs_fopen rs) as [|r1]; unfold bind at 1; cbn [sys].
  2:{ failure_branch (fun H : reliable w => H). }
  destruct (rs_fseek_end rs) as [|r2]; unfold bind at 1; cbn [sys heap trace].
  2:{ failure_branch (fun H : reliable w => H). }
  unfold bind at 1; cbn [sys heap trace].
  destruct (rs_ftell rs =? -1) eqn:Etell.
  { failure_branch (fun H : reliable w => H). }
  unfold bind at 1; cbn [sys heap trace].
  destruct (rs_fseek_set rs) as [|r4].
  2:{ failure_branch (fun H : reliable w => H). }
  unfold bind at 1.
  match goal with |- context [malloc ?n ?w1] =>
    pose proof (malloc_outcome n w1) as [Hm _];
    pose proof (malloc_reliable n w1) as Hmr;
    destruct (malloc n w1) as [ok w2] end.
  cbn [fst snd] in Hm, Hmr. change (next_alloc _) with (next_alloc w) in Hm.
  rewrite <- Hm. destruct ok; cbn [negb].
  2:{ unfold read_contract.
      match goal with |- exists error, fst (bind (sprintf_alloc ?text) _ ?w) = _ /\ _ =>
      exists (if next_alloc w then Some text else None);
      split; [apply read_error_path; discriminate|]; split end.
      - intros message Hmsg. destruct (next_alloc w2); [|discriminate].
        apply Some_eq in Hmsg; subst message.
        eexists; cbn [operation]; repeat rewrite append_assoc; reflexivity.
      - intros Hw. rewrite (reliable_next w Hw) in Hm. discriminate. }
  assert (Hrel : reliable w -> reliable w2) by (intros Hw; apply Hmr, Hw).
  unfold bind at 1; cbn [sys heap trace].
  destruct (rs_ferror rs) as [|r6].
  2:{ failure_branch (fun H : reliable w => Hrel H). }
  destruct (strlen _ =? to_size_t (rs_ftell rs)) eqn:Elen; cbn [negb].
  2:{ failure_branch (fun H : reliable w => Hrel H). }
  unfold bind at 1; cbn [sys heap trace].
  destruct (rs_fclose rs) as [|r8].
  2:{ failure_branch (fun H : reliable w => Hrel H). }
  reflexivity.
Qed.

Lemma first_failure_none (rs : read_script) (alloc : bool) :
  first_failure rs alloc = None ->
  alloc = true /\ strlen (delivered rs) = to_size_t (rs_ftell rs).
Proof.
  unfold first_failure.
  destruct (rs_fopen rs); [|discriminate].
  destruct (rs_fseek_end rs); [|discriminate].
  destruct (rs_ftell rs =? -1); [discriminate|].
  destruct (rs_fseek_set rs); [|discriminate].
  destruct alloc; [|discriminate]. cbn [negb].
  destruct (rs_ferror rs); [|discriminate].
  destruct (strlen (delivered rs) =? to_size_t (rs_ftell rs)) eqn:E; [|discriminate].
  intros _. split; [reflexivity | now apply Z.eqb_eq].
Qed.

Lemma to_size_t_small (n : Z) : 0 <= n < 2 ^ 64 -> to_size_t n = n.
Proof. intros H. unfold to_size_t. now apply Z.mod_small. Qed.

Lemma holds_delivered (rs : read_script) (content : string) :
  holds rs content -> strlen content < 2 ^ 64 ->
  delivered rs = content /\ to_size_t (rs_ftell rs) = strlen content /\
  first_failure rs true = None.
Proof.
  intros (Ho & Hs & Ht & Hs' & Hr & He & Hc) Hlt.
  assert (Hsz : to_size_t (rs_ftell rs) = strlen content).
  { rewrite Ht. apply to_size_t_small. pose proof (strlen_nonneg content). lia. }
  assert (Hd : delivered rs = content).
  { unfold delivered. rewrite Hsz, Hr. apply substring_whole.
    unfold strlen. now rewrite Nat2Z.id. }
  split; [exact Hd|]. split; [exact Hsz|].
  unfold first_failure. rewrite Ho, Hs, Hs', He, Hc, Hd, Hsz, Z.eqb_refl.
  cbn [negb]. rewrite Ht.
  destruct (strlen content =? -1) eqn:E; [|reflexivity].
  apply Z.eqb_eq in E. pose proof (strlen_nonneg content). lia.
Qed.

(** C7. [read_file] gives all or nothing.  When no operation fails the
    caller gets the bytes of the file and their exact number; when one
    does (the file cannot be opened, a seek fails, the size cannot be
    obtained, the buffer cannot be allocated, the read fails or comes
    short, the file cannot be closed) [dest] is [NULL] and [dest_size] is
    [0], whatever was read, and the error message, which is there whenever
    it can be allocated, names the failing operation and the path. *)
Theorem read_file_all_or_nothing (path : string) (rs : read_script) (w : World) :
  (let '(dest, dest_size, error) := fst (read_file path rs w) in
   match first_failure rs (next_alloc w) with
   | None =>
       dest = Some (delivered rs) /\ dest_size = strlen (delivered rs) /\
       dest_size = to_size_t (rs_ftell rs) /\ error = None
   | Some ph =>
       dest = None /\ dest_size = 0 /\
       (forall message, error = Some message ->
          names_failure ph rs path message /\ occurs path message) /\
       (reliable w -> error <> None)
   end) /\
  (forall content, holds rs content -> strlen content < 2 ^ 64 -> next_alloc w = true ->
     fst (read_file path rs w) = (Some content, strlen content, None)).
Proof.
  pose proof (read_file_outcome path rs w) as H. unfold read_contract in H. split.
  - destruct (first_failure rs (next_alloc w)) as [ph|] eqn:E.
    + destruct H as (error & -> & Hn & Hr). repeat split; auto.
      eapply names_failure_occurs, Hn, H.
    + rewrite H. destruct (first_failure_none _ _ E) as [_ Hl]. auto.
  - intros content Hh Hlt Ha. rewrite Ha in H.
    destruct (holds_delivered rs content Hh Hlt) as (Hd & Hs & Hf).
    rewrite Hf in H. now rewrite H, Hd, Hs.
Qed.

Lemma read_file_all_or_nothing_witness :
  fst (read_file "texput.log" (plain_file "This is TeX") fresh_world)
  = (Some "This is TeX", 11, None).
Proof.
  apply (proj2 (read_file_all_or_nothing "texput.log" (plain_file "This is TeX")
                  fresh_world) "This is TeX").
  - repeat split.
  - reflexivity.
  - reflexivity.
Defined.

(** ** Removing a directory *)

(** A text that contains a literal character is not empty. *)
Ltac nonempty :=
  first
    [ discriminate
    | let H := fresh in
      intro H; apply (f_equal String.length) in H; unfold nl in H;
      repeat rewrite length_append in H; cbn [String.length] in H; lia ].

Ltac safe_step :=
  lazymatch goal with
  | |- safe (bind (sys _) _) _ =>
      eapply safe_bind; [apply safe_sys | intros _ _]
  | |- safe (bind (sprintf_alloc _) _) _ =>
      let a := fresh "a" in
      let Ha := fresh "Ha" in
      eapply safe_bind;
      [apply safe_sprintf_alloc; nonempty
      | intros a Ha; cbv beta in Ha; subst a; cbv beta iota]
  | |- safe (bind (malloc _) _) _ =>
      let a := fresh "a" in
      let Ha := fresh "Ha" in
      eapply safe_bind;
      [apply safe_malloc | intros a Ha; cbv beta in Ha; subst a; cbv beta iota]
  | |- safe (ret _) _ => apply safe_ret
  end.

Lemma each_entry_safe
    (remove_sub : string -> dirtree -> M (Z * option string))
    (sub_report : string -> dirtree -> option string)
    (dirname : string) (es : list (string * dirnode)) :
  (forall d name sub, In (d, IsDir sub) es ->
     safe (remove_sub name sub)
          (fun r => r = (if is_null (sub_report name sub) then 0 else -1,
                         sub_report name sub))) ->
  forall error,
    safe (each_entry remove_sub dirname es error)
         (fun e => e = first_of error (errors_of_entries sub_report dirname es)).
Proof.
  induction es as [|[d_name node] es IH]; intros Hsub error;
    cbn [each_entry errors_of_entries]; safe_step.
  - safe_step. now destruct error.
  - assert (IH' := IH (fun d name sub H => Hsub d name sub (or_intror H))).
    destruct (streq d_name "." || streq d_name ".."); [apply IH'|].
    safe_step.
    destruct node as [[|reason]|sub].
    + safe_step. destruct error; apply IH'.
    + safe_step. destruct error as [e|].
      * eapply safe_weaken; [apply IH'|]. intros a ->. reflexivity.
      * safe_step. eapply safe_weaken; [apply IH'|]. intros a ->. reflexivity.
    + eapply safe_bind; [apply (Hsub d_name _ sub); now left|].
      intros [rc sub_error] Hr. apply pair_equal_spec in Hr.
      destruct Hr as [-> ->]. cbv beta iota.
      destruct (sub_report (dirname ++ "/" ++ d_name) sub) as [e|]; cbn [is_null].
      * destruct error as [e0|]; cbn [negb Z.eqb andb is_null];
          (eapply safe_weaken; [apply IH'|]); intros a ->; reflexivity.
      * cbn [negb Z.eqb andb]. apply IH'.
Qed.

Lemma dirtree_size_entry (o c r : sysres) (es : list (string * dirnode))
    (d : string) (sub : dirtree) :
  In (d, IsDir sub) es ->
  (dirtree_size sub < dirtree_size (Directory o es c r))%nat.
Proof.
  cbn [dirtree_size].
  induction es as [|[d' [u|sub']] es IH]; intros Hin; cbn [In] in Hin.
  - contradiction.
  - destruct Hin as [Heq|Hin]; [discriminate|]. specialize (IH Hin). lia.
  - destruct Hin as [Heq|Hin].
    + apply pair_equal_spec in Heq. destruct Heq as [_ Heq].
      assert (sub' = sub) by congruence. subst sub'. lia.
    + specialize (IH Hin). lia.
Qed.

(** What the removal returns, whatever the allocator does: [0] and no
    error when the final [rmdir] succeeds, [-1] when it fails. *)
Lemma remove_directory_return (dirname : string) (t : dirtree) (w : World) :
  match final_rmdir t with
  | Done => fst (remove_directory_recursively dirname t w) = (0, None)
  | Fails _ => fst (fst (remove_directory_recursively dirname t w)) = -1
  end.
Proof.
  destruct t as [o es c r]. cbn [remove_directory_recursively final_rmdir].
  unfold bind. cbn [sys].
  repeat
    (match goal with
     | |- context [each_entry ?f ?d ?l ?e ?w1] => destruct (each_entry f d l e w1)
     | |- context [sprintf_alloc ?t ?w1] => destruct (sprintf_alloc t w1)
     | |- context [match ?x with Done => _ | Fails _ => _ end] => destruct x
     | |- context [match ?x with Some _ => _ | None => _ end] => destruct x
     end; cbn [sys ret fst snd]);
  reflexivity.
Qed.

Lemma sub_report_removal (name : string) (sub : dirtree) :
  removal_report name sub
  = (if is_null (snd (removal_report name sub)) then 0 else -1,
     snd (removal_report name sub)).
Proof. unfold removal_report. destruct (final_rmdir sub); reflexivity. Qed.

Lemma earliest_error_unfold (dirname : string) (o c r : sysres)
    (es : list (string * dirnode)) :
  earliest_error dirname (Directory o es c r)
  = match o with
    | Fails reason =>
        Some ("Unable to read directory entries of " ++ quoted dirname
              ++ ": " ++ reason ++ ".")
    | Done =>
        hd_error
          (errors_of_entries (fun name sub => snd (removal_report name sub))
                             dirname es
           ++ match c with
              | Fails reason =>
                  ["Unable to close directory " ++ quoted dirname
                   ++ ": " ++ reason ++ "."]
              | Done => []
              end)
    end.
Proof.
  cbn [earliest_error]. destruct o; [|reflexivity].
  do 2 f_equal. clear.
  induction es as [|[d node] es IH]; cbn [errors_of_entries]; [reflexivity|].
  rewrite IH. destruct (streq d "." || streq d ".."); [reflexivity|].
  destruct node as [u|sub]; [reflexivity|].
  unfold removal_report. destruct (final_rmdir sub); reflexivity.
Qed.

(** With a reliable allocator, the removal returns and reports what
    [removal_report] says. *)
Lemma remove_directory_safe (dirname : string) (t : dirtree) :
  safe (remove_directory_recursively dirname t)
       (fun r => r = removal_report dirname t).
Proof.
  remember (dirtree_size t) as n eqn:Hn.
  revert dirname t Hn. induction n as [n IH] using lt_wf_ind.
  intros dirname [o es c r] Hn.
  assert (Hes : forall error,
    safe (each_entry remove_directory_recursively dirname es error)
         (fun e => e = first_of error
                     (errors_of_entries (fun name sub => snd (removal_report name sub))
                                        dirname es))).
  { apply each_entry_safe. intros d name sub Hin.
    eapply safe_weaken.
    - apply (IH (dirtree_size sub)); [|reflexivity].
      rewrite Hn. eapply dirtree_size_entry, Hin.
    - intros a ->. apply sub_report_removal. }
  unfold removal_report. rewrite earliest_error_unfold.
  cbn [remove_directory_recursively final_rmdir]. safe_step.
  eapply safe_bind with
    (P := fun error =>
            error = match o with
                    | Fails reason =>
                        Some ("Unable to read directory entries of " ++ quoted dirname
                              ++ ": " ++ reason ++ ".")
                    | Done =>
                        hd_error
                          (errors_of_entries
                             (fun name sub => snd (removal_report name sub)) dirname es
                           ++ match c with
                              | Fails reason =>
                                  ["Unable to close directory " ++ quoted dirname
                                   ++ ": " ++ reason ++ "."]
                              | Done => []
                              end)
                    end).
  - destruct o as [|reason].
    + eapply safe_bind; [apply Hes|]. intros error ->. cbn [first_of]. safe_step.
      destruct (errors_of_entries _ dirname es) as [|e l]; cbn [hd_error app].
      * destruct c; [safe_step; reflexivity|].
        eapply safe_weaken; [apply safe_sprintf_alloc; discriminate|].
        intros a ->. reflexivity.
      * destruct c; safe_step; reflexivity.
    + eapply safe_weaken; [apply safe_sprintf_alloc; discriminate|]. auto.
  - intros error ->. safe_step. destruct r as [|reason].
    + safe_step. reflexivity.
    + match goal with |- context [bind (match ?x with _ => _ end)] =>
        destruct x as [e0|] end.
      * intros w Hw. unfold bind, ret. cbn [fst snd]. auto.
      * safe_step. safe_step. reflexivity.
Qed.

(** C2 (as amended). The policy of [remove_directory_recursively] when no
    allocation fails.  When the final [rmdir] succeeds the function returns
    [0] and sets the error to [NULL], whatever errors were recorded on the
    way.  When the final [rmdir] fails it returns [-1]; the error is then
    the earliest one met during the traversal (while the directory was
    listed, its entries removed in turn, the listing closed) if there is
    one, and the failure of [rmdir] itself otherwise. *)
Theorem removal_error_policy (dirname : string) (t : dirtree) (w : World) :
  reliable w ->
  (final_rmdir t = Done ->
     fst (remove_directory_recursively dirname t w) = (0, None)) /\
  (forall reason, final_rmdir t = Fails reason ->
     fst (remove_directory_recursively dirname t w)
     = (-1, Some match earliest_error dirname t with
                 | Some e => e
                 | None => rmdir_failure dirname reason
                 end)).
Proof.
  intros Hw. destruct (remove_directory_safe dirname t w Hw) as [Hs _].
  rewrite Hs. unfold removal_report. split.
  - intros Hr. now rewrite Hr.
  - intros reason Hr. now rewrite Hr.
Qed.

Lemma removal_error_policy_witness :
  fst (remove_directory_recursively "/tmp/ws" glitch_tree fresh_world) = (0, None) /\
  earliest_error "/tmp/ws" glitch_tree
  = Some ("Unable to close directory " ++ quoted "/tmp/ws" ++ ": Input/output error.") /\
  fst (remove_directory_recursively "/tmp/ws" stuck_tree fresh_world)
  = (-1, Some ("Unable to remove file " ++ quoted "/tmp/ws/texput.log"
               ++ ": Permission denied.")) /\
  fst (remove_directory_recursively "/tmp/ws" pinned_tree fresh_world)
  = (-1, Some ("Unable to remove directory " ++ quoted "/tmp/ws"
               ++ ": Permission denied.")).
Proof.
  split; [|split; [|split]].
  - apply (proj1 (removal_error_policy "/tmp/ws" glitch_tree fresh_world
                    (Forall_nil _))).
    reflexivity.
  - reflexivity.
  - apply (proj2 (removal_error_policy "/tmp/ws" stuck_tree fresh_world
                    (Forall_nil _)) "Directory not empty"). reflexivity.
  - apply (proj2 (removal_error_policy "/tmp/ws" pinned_tree fresh_world
                    (Forall_nil _)) "Permission denied"). reflexivity.
Defined.

(** Counterexample to C2 as first stated, which speaks of every
    invocation.  The final [rmdir] of an empty directory fails and the
    message for it cannot be allocated: the error is [NULL], not the
    failure of [rmdir].  And in a directory with two files that cannot be
    removed, the message for the first cannot be allocated: the error
    handed back is that of the second, not the earliest. *)
Lemma removal_error_lost_when_starved :
  final_rmdir empty_pinned_tree = Fails "Permission denied" /\
  earliest_error "/tmp/ws" empty_pinned_tree = None /\
  fst (remove_directory_recursively "/tmp/ws" empty_pinned_tree starved_world)
  = (-1, None) /\
  earliest_error "/tmp/ws" twice_stuck_tree
  = Some (unlink_failure "/tmp/ws/a" "Permission denied") /\
  fst (remove_directory_recursively "/tmp/ws" twice_stuck_tree second_fails_world)
  = (-1, Some (unlink_failure "/tmp/ws/b" "Read-only file system")).
Proof. repeat split; vm_compute; reflexivity. Qed.

(** ** Converting: the argument checks *)

Lemma occurs_quoted (s a b : string) : occurs s (a ++ quoted s ++ b).
Proof.
  apply occurs_after. unfold quoted. cbn [append]. rewrite append_assoc.
  apply (occurs_after s (String dquote EmptyString)), occurs_prefix, prefix_append.
Qed.

Lemma select_cmd_supported (src_format dest_format cmd : string) :
  select_cmd src_format dest_format = Some cmd <->
  In (src_format, dest_format, cmd) supported_pairs.
Proof.
  unfold select_cmd, streq, supported_pairs. cbn [In]. split.
  - intros H.
    destruct (String.eqb_spec src_format "TeX"), (String.eqb_spec dest_format "DVI"),
      (String.eqb_spec dest_format "PDF"), (String.eqb_spec src_format "LaTeX");
      cbn [andb] in H; try discriminate; apply Some_eq in H; subst; tauto.
  - intros [H|[H|[H|[H|[]]]]];
      apply pair_equal_spec in H; destruct H as [H <-];
      apply pair_equal_spec in H; destruct H as [<- <-]; reflexivity.
Qed.

Lemma select_cmd_unsupported (src_format dest_format : string) :
  ~ supported src_format dest_format -> select_cmd src_format dest_format = None.
Proof.
  intros Hn. destruct (select_cmd src_format dest_format) as [cmd|] eqn:E; [|reflexivity].
  elim Hn. exists cmd. now apply select_cmd_supported.
Qed.

Lemma cleanup_without_workspace (s : script) (i : option string) (w : World) :
  cleanup s (mkLocals None 0 i None None) w = (mkResult None 0 i, w).
Proof. reflexivity. Qed.

Lemma occurs_formats (src_format dest_format : string) :
  occurs src_format (unsupported_text src_format dest_format) /\
  occurs dest_format (unsupported_text src_format dest_format).
Proof.
  split; [apply occurs_quoted|].
  unfold unsupported_text. rewrite <- append_assoc, <- append_assoc.
  apply occurs_quoted.
Qed.

Lemma convert_unsupported (src src_format dest_format : string) (max_runs : Z)
    (s : script) (w : World) :
  select_cmd src_format dest_format = None ->
  let text := unsupported_text src_format dest_format in
  fst (texcaller_convert src src_format dest_format max_runs s w)
  = mkResult None 0 (if INT_MAX <? strlen text then None
                     else if next_alloc w then Some text else None) /\
  trace (snd (texcaller_convert src src_format dest_format max_runs s w)) = trace w.
Proof.
  intros Hsel text. unfold texcaller_convert, convert_body. rewrite Hsel.
  fold (unsupported_text src_format dest_format). fold text.
  unfold sprintf_alloc_int. destruct (INT_MAX <? strlen text).
  - unfold bind, ret. rewrite cleanup_without_workspace. split; reflexivity.
  - assert (Hne : text <> EmptyString) by discriminate.
    destruct (sprintf_alloc_outcome _ w Hne) as [Hi Ht].
    unfold bind. destruct (sprintf_alloc _ w) as [p w1]. cbn [fst snd] in Hi, Ht.
    unfold ret. rewrite cleanup_without_workspace. cbn [fst snd]. subst p. auto.
Qed.

(** C4 (as amended). A pair of formats other than the four supported ones
    (TeX to DVI by [tex], TeX to PDF by [pdftex], LaTeX to DVI by [latex],
    LaTeX to PDF by [pdflatex]) is refused at once: no destination bytes,
    and no system call at all, so that no workspace is created.  The
    diagnostic names both formats; there is none when that text has more
    than [INT_MAX] bytes, or when its allocation fails. *)
Theorem unsupported_pair_rejected (src src_format dest_format : string)
    (max_runs : Z) (s : script) (w : World) :
  (forall cmd, In (src_format, dest_format, cmd) supported_pairs <->
               select_cmd src_format dest_format = Some cmd) /\
  (~ supported src_format dest_format ->
   let text := unsupported_text src_format dest_format in
   let r := fst (texcaller_convert src src_format dest_format max_runs s w) in
   let w' := snd (texcaller_convert src src_format dest_format max_runs s w) in
   dest r = None /\ dest_size r = 0 /\
   info r = (if INT_MAX <? strlen text then None
             else if next_alloc w then Some text else None) /\
   occurs src_format text /\ occurs dest_format text /\
   trace w' = trace w).
Proof.
  split; [intros cmd; symmetry; apply select_cmd_supported|].
  intros Hn text r w'.
  destruct (convert_unsupported src src_format dest_format max_runs s w
              (select_cmd_unsupported _ _ Hn)) as [Hr Ht].
  cbv zeta in Hr. fold r in Hr. fold text in Hr. rewrite Hr.
  cbn [dest dest_size info].
  destruct (occurs_formats src_format dest_format). auto 8.
Qed.

Lemma unsupported_pair_rejected_witness :
  let r := fst (texcaller_convert "\bye" "TeX" "PostScript" 2
                  steady_script fresh_world) in
  dest r = None /\ dest_size r = 0 /\
  info r = Some (unsupported_text "TeX" "PostScript").
Proof.
  destruct (proj2 (unsupported_pair_rejected "\bye" "TeX" "PostScript" 2
              steady_script fresh_world))
    as (H1 & H2 & H3 & _).
  - intros [cmd H]. cbn in H.
    repeat (destruct H as [H|H]; [discriminate|]). exact H.
  - auto.
Defined.

Lemma strlen_repeat_char (c : ascii) (n : nat) : strlen (repeat_char c n) = Z.of_nat n.
Proof.
  unfold strlen. f_equal.
  induction n as [|n IH]; cbn [repeat_char String.length]; [reflexivity|].
  now rewrite IH.
Qed.

Lemma strlen_quoted (s : string) : strlen (quoted s) = strlen s + 2.
Proof.
  unfold quoted. change (String dquote s) with (String dquote EmptyString ++ s).
  rewrite !strlen_append. unfold strlen. cbn [String.length]. lia.
Qed.

Lemma strlen_long_format : strlen long_format = INT_MAX + 1.
Proof.
  unfold long_format. rewrite strlen_repeat_char. apply Z2Nat.id.
  unfold INT_MAX. lia.
Qed.

(** The caller's format names have no bound: for a name of more than
    [INT_MAX] bytes the message cannot be formatted, and the call returns
    with no diagnostic although every allocation succeeds. *)
Lemma no_diagnostic_for_long_format :
  ~ supported long_format "PDF" /\
  reliable fresh_world /\
  info (fst (texcaller_convert "\bye" long_format "PDF" 2 steady_script fresh_world))
  = None.
Proof.
  assert (Hn : ~ supported long_format "PDF").
  { intros [cmd H]. unfold supported_pairs in H. cbn [In] in H.
    assert (Hl : strlen long_format <= 5).
    { destruct H as [H|[H|[H|[H|[]]]]];
        apply pair_equal_spec in H; destruct H as [H _];
        apply pair_equal_spec in H; destruct H as [H _];
        rewrite <- H; unfold strlen; cbn [String.length]; lia. }
    rewrite strlen_long_format in Hl. unfold INT_MAX in Hl. lia. }
  split; [exact Hn|]. split; [constructor|].
  destruct (convert_unsupported "\bye" long_format "PDF" 2 steady_script fresh_world
              (select_cmd_unsupported _ _ Hn)) as [Hr _].
  cbv zeta in Hr. rewrite Hr. cbn [info].
  assert (Hlong : (INT_MAX <? strlen (unsupported_text long_format "PDF")) = true).
  { apply Z.ltb_lt. unfold unsupported_text.
    rewrite !strlen_append, !strlen_quoted, strlen_long_format.
    unfold strlen, INT_MAX. cbn [String.length]. lia. }
  rewrite Hlong. reflexivity.
Qed.

(** C5. With [max_runs] below 2 (and a supported pair of formats) the call
    fails at once: no destination bytes, a diagnostic that gives the value
    of [max_runs] (missing only when its allocation fails), and no system
    call at all, so that no workspace is created. *)
Theorem low_max_runs_rejected (src src_format dest_format : string)
    (max_runs : Z) (s : script) (w : World) :
  supported src_format dest_format -> max_runs < 2 ->
  let r := fst (texcaller_convert src src_format dest_format max_runs s w) in
  let w' := snd (texcaller_convert src src_format dest_format max_runs s w) in
  dest r = None /\ dest_size r = 0 /\
  info r = (if next_alloc w then Some (max_runs_text max_runs) else None) /\
  occurs (fmt_i max_runs) (max_runs_text max_runs) /\
  trace w' = trace w.
Proof.
  intros [cmd Hc] Hlt. apply select_cmd_supported in Hc.
  unfold texcaller_convert, convert_body. rewrite Hc.
  apply Z.ltb_lt in Hlt. rewrite Hlt.
  fold (max_runs_text max_runs).
  assert (Hne : max_runs_text max_runs <> EmptyString) by discriminate.
  destruct (sprintf_alloc_outcome _ w Hne) as [Hi Ht].
  unfold bind. destruct (sprintf_alloc _ w) as [p w1]. cbn [fst snd] in Hi, Ht.
  unfold ret. rewrite cleanup_without_workspace. cbn [fst snd dest dest_size info].
  pose proof (occurs_middle (fmt_i max_runs) "Argument max_runs is "
                            ", but must be >= 2.").
  auto 8.
Qed.

Lemma low_max_runs_rejected_witness :
  let r := fst (texcaller_convert "\bye" "LaTeX" "PDF" 1
                  steady_script fresh_world) in
  dest r = None /\ dest_size r = 0 /\
  info r = Some "Argument max_runs is 1, but must be >= 2.".
Proof.
  destruct (low_max_runs_rejected "\bye" "LaTeX" "PDF" 1
              steady_script fresh_world)
    as (H1 & H2 & H3 & _).
  - exists "pdflatex". cbn. auto.
  - reflexivity.
  - auto.
Defined.

(** ** Converting: one pass of the loop *)

(** The size [read_file] leaves is the number of bytes it leaves. *)
Lemma read_file_size (path : string) (rs : read_script) (w : World) :
  snd (fst (fst (read_file path rs w)))
  = strlen (buffer_bytes (fst (fst (fst (read_file path rs w))))).
Proof.
  pose proof (read_file_outcome path rs w) as H. unfold read_contract in H.
  destruct (first_failure rs (next_alloc w)) as [ph|] eqn:E.
  - destruct H as (error & -> & _). reflexivity.
  - rewrite H. cbn [fst snd buffer_bytes].
    symmetry. apply (first_failure_none _ _ E).
Qed.

(** The test of the loop compares the bytes: it holds exactly when the new
    bytes are the old ones, a [NULL] buffer counting as an empty one. *)
Lemma aux_test_bytes (aux aux_old : option string) (aux_size aux_old_size : Z) :
  aux_size = strlen (buffer_bytes aux) ->
  aux_old_size = strlen (buffer_bytes aux_old) ->
  ((aux_size =? aux_old_size) && memcmp_eq aux aux_old aux_size = true
   <-> buffer_bytes aux = buffer_bytes aux_old).
Proof.
  intros -> ->. unfold memcmp_eq, strlen. rewrite Nat2Z.id, substring_all. split.
  - intros H. apply andb_true_iff in H. destruct H as [Hs Hm].
    apply Z.eqb_eq, Nat2Z.inj in Hs. rewrite Hs, substring_all in Hm.
    now apply String.eqb_eq.
  - intros ->. rewrite Z.eqb_refl, substring_all. apply String.eqb_refl.
Qed.

Lemma wait_for_child_final (other : nat) (final : wait_res) (w : World) :
  fst (wait_for_child other final w) = final.
Proof.
  revert w. induction other as [|n IH]; intros w; cbn [wait_for_child];
    unfold bind; cbn [sys]; [reflexivity | apply IH].
Qed.

Lemma success_text_reports (dest_format : string) (dest_size : Z)
    (src_format : string) (src_size runs : Z) :
  let text := success_text dest_format dest_size src_format src_size runs in
  occurs dest_format text /\ occurs (fmt_lu dest_size) text /\
  occurs src_format text /\ occurs (fmt_lu src_size) text /\
  occurs (fmt_i runs) text.
Proof.
  unfold success_text. repeat split.
  - apply (occurs_middle dest_format "Generated ").
  - do 3 apply occurs_after. apply occurs_prefix, prefix_append.
  - do 6 apply occurs_after. apply occurs_prefix, prefix_append.
  - do 8 apply occurs_after. apply occurs_prefix, prefix_append.
  - do 10 apply occurs_after. apply occurs_prefix, prefix_append.
Qed.

Lemma sprintf_alloc_trace (text : string) (w : World) :
  trace (snd (sprintf_alloc text w)) = trace w.
Proof. apply sprintf_alloc_either. Qed.

Lemma wait_for_child_forks (other : nat) (final : wait_res) (w : World) :
  forks (trace (snd (wait_for_child other final w))) = forks (trace w).
Proof.
  revert w. induction other as [|n IH]; intros w; cbn [wait_for_child];
    unfold bind; cbn [sys]; [reflexivity|].
  rewrite IH. reflexivity.
Qed.

Ltac trace_cases :=
  repeat
    (match goal with
     | |- context [sprintf_alloc ?t ?w1] =>
         let H := fresh "Ht" in
         pose proof (sprintf_alloc_trace t w1) as H;
         destruct (sprintf_alloc t w1) as [? ?]; cbn [fst snd trace] in H
     | |- context [malloc ?n ?w1] =>
         let H := fresh "Ht" in
         pose proof (proj2 (malloc_outcome n w1)) as H;
         destruct (malloc n w1) as [[|] ?]; cbn [fst snd trace] in H
     | |- context [match ?x with Done => _ | Fails _ => _ end] => destruct x
     | |- context [if ?b then _ else _] => destruct b
     end; cbn [sys ret fst snd negb]).

(** Reading a file forks no process. *)
Lemma read_file_forks (path : string) (rs : read_script) (w : World) :
  forks (trace (snd (read_file path rs w))) = forks (trace w).
Proof.
  unfold read_file, bind. cbn [sys]. trace_cases;
    cbn [trace];
    repeat match goal with H : trace _ = _ |- _ => rewrite H; clear H end;
    reflexivity.
Qed.

Lemma substring_none (s : string) : substring 0 0 s = EmptyString.
Proof. now destruct s. Qed.

(** A file that is absent or empty is read as no bytes, whatever the
    allocator does. *)
Lemma read_file_nothing (path : string) (rs : read_script) (w : World) :
  absent rs \/ holds rs EmptyString ->
  buffer_bytes (fst (fst (fst (read_file path rs w)))) = EmptyString /\
  snd (fst (fst (read_file path rs w))) = 0.
Proof.
  intros Hrs. pose proof (read_file_outcome path rs w) as H.
  pose proof (read_file_size path rs w) as Hsz.
  unfold read_contract in H.
  destruct (first_failure rs (next_alloc w)) as [ph|] eqn:E.
  - destruct H as (error & -> & _). split; reflexivity.
  - rewrite H in *. cbn [fst snd buffer_bytes] in *.
    destruct Hrs as [[reason Ha]|Hh].
    + unfold first_failure in E. rewrite Ha in E. discriminate.
    + destruct (holds_delivered rs EmptyString Hh) as (Hd & Hs & _); [reflexivity|].
      rewrite Hd, Hs. split; reflexivity.
Qed.

Section One_pass.

Variables (src_format dest_format : string) (src_size : Z).
Variables (cmd aux_filename dest_filename : string).
Variable s : script.

(** A pass whose child exits with status zero, in full. *)
Lemma run_once_completed (runs : Z) (aux : option string) (aux_size : Z) (w : World) :
  run_completes s runs ->
  let w1 := after_wait (s_run s runs) w in
  let new := read_file aux_filename (r_aux (s_run s runs)) w1 in
  let out := read_file dest_filename (s_dest s) (snd new) in
  run_once src_format dest_format src_size cmd aux_filename dest_filename s
           runs aux aux_size w
  = match fst (fst new) with
    | (a, n) =>
        if (n =? aux_size) && memcmp_eq a aux n then
          match fst (fst out) with
          | (None, dsz) => (Goto_cleanup None dsz (snd (fst out)), snd out)
          | (Some b, dsz) =>
              let i := sprintf_alloc
                         (success_text dest_format dsz src_format src_size runs)
                         (snd out) in
              (Goto_cleanup (Some b) dsz (fst i), snd i)
          end
        else (Next_run a n, snd new)
    end.
Proof.
  intros [Hfork Hwait] w1 new out. subst out new w1.
  unfold run_once, after_wait. rewrite Hfork.
  unfold bind at 1. cbn [sys]. unfold bind at 1.
  pose proof (wait_for_child_final (r_wait_other (s_run s runs))
                (r_wait (s_run s runs))
                {| heap := heap w; trace := Fork :: trace w |}) as Hfin.
  cbn [snd].
  destruct (wait_for_child _ _ _) as [st wa]. cbn [fst snd] in *. subst st.
  rewrite Hwait. cbn [Z.eqb negb]. unfold bind at 1.
  destruct (read_file aux_filename _ wa) as [[[a n] err] w2]. cbn [fst snd].
  destruct ((n =? aux_size) && memcmp_eq a aux n); [|reflexivity].
  unfold bind at 1.
  destruct (read_file dest_filename _ w2) as [[[d dsz] derr] w3]. cbn [fst snd].
  destruct d as [b|]; [|reflexivity].
  unfold bind. destruct (sprintf_alloc _ w3). reflexivity.
Qed.

(** With no previous auxiliary file ([NULL], size [0]) and a first run that
    leaves none, or an empty one, the loop ends in its first pass, after
    one [fork], whatever the allocator does. *)
Lemma first_pass_ends_loop (max_runs : Z) (w : World) :
  1 <= max_runs ->
  run_completes s 1 ->
  absent (r_aux (s_run s 1)) \/ holds (r_aux (s_run s 1)) EmptyString ->
  let w1 := after_wait (s_run s 1) w in
  let new := read_file aux_filename (r_aux (s_run s 1)) w1 in
  let out := read_file dest_filename (s_dest s) (snd new) in
  let loop := run_loop src_format dest_format src_size cmd aux_filename
                       dest_filename s (Z.to_nat max_runs) 1 None 0 w in
  buffer_bytes (fst (fst (fst new))) = buffer_bytes None /\
  fst loop
  = Some match fst (fst (fst out)) with
         | None => (None, 0, snd (fst out))
         | Some bytes =>
             (Some bytes, strlen bytes,
              if next_alloc (snd out)
              then Some (success_text dest_format (strlen bytes)
                                      src_format src_size 1)
              else None)
         end /\
  forks (trace (snd loop)) = S (forks (trace w)).
Proof.
  intros Hmax Hruns Haux w1 new out loop.
  destruct (read_file_nothing aux_filename _ w1 Haux) as [Hb Hn].
  fold new in Hb, Hn. split; [exact Hb|].
  pose proof (run_once_completed 1 None 0 w Hruns) as He.
  cbv zeta in He. fold w1 in He. fold new in He. fold out in He.
  pose proof (read_file_size dest_filename (s_dest s) (snd new)) as Hd.
  fold out in Hd.
  assert (Hf : forks (trace (snd out)) = S (forks (trace w))).
  { subst out new w1. rewrite !read_file_forks. unfold after_wait.
    rewrite wait_for_child_forks. reflexivity. }
  subst loop. destruct (Z.to_nat max_runs) as [|left] eqn:El; [lia|].
  cbn [run_loop]. unfold bind. rewrite He.
  destruct (fst (fst new)) as [a n] eqn:En. cbn [fst snd] in Hb, Hn. subst n.
  assert (Ht : (0 =? 0) && memcmp_eq a None 0 = true).
  { unfold memcmp_eq. cbn [Z.to_nat Z.eqb andb]. now rewrite !substring_none. }
  rewrite Ht.
  destruct (fst (fst out)) as [d dsz] eqn:Eo. cbn [fst snd] in *.
  destruct d as [b|]; cbn [buffer_bytes] in Hd; subst dsz; cbn [ret fst snd].
  - rewrite sprintf_alloc_trace. split; [|exact Hf].
    do 2 f_equal. apply sprintf_alloc_outcome. discriminate.
  - split; [reflexivity | exact Hf].
Qed.

End One_pass.

(** ** Converting with a reliable allocator *)

Lemma safe_bind_ret {A B} (a : A) (k : A -> M B) (Q : B -> Prop) :
  safe (k a) Q -> safe (bind (ret a) k) Q.
Proof. intros H w Hw. exact (H w Hw). Qed.

Ltac safe_cases :=
  repeat
    (lazymatch goal with
     | |- safe (bind (ret _) _) _ => apply safe_bind_ret; cbv beta
     | |- safe (bind (sys _) _) _ => safe_step
     | |- safe (bind (sprintf_alloc _) _) _ => safe_step
     | |- safe (bind (malloc _) _) _ => safe_step; cbn [negb]
     | |- safe (ret _) _ => apply safe_ret
     end).

Ltac safe_all_cases :=
  repeat
    first
      [ progress safe_cases
      | lazymatch goal with
        | |- safe (bind (if ?b then _ else _) _) _ => destruct b
        | |- safe (match ?x with Done => _ | Fails _ => _ end) _ => destruct x
        | |- safe (if ?b then _ else _) _ => destruct b
        end ].

Lemma read_file_keeps_reliable (path : string) (rs : read_script) :
  safe (read_file path rs) (fun _ => True).
Proof.
  unfold read_file. safe_all_cases; exact I.
Qed.

Lemma prefix_nil (s : string) : prefix EmptyString s = true.
Proof. now destruct s. Qed.

Lemma prefix_cons (c : ascii) (p t : string) :
  prefix (String c p) (String c t) = prefix p t.
Proof. cbn [prefix]. destruct (ascii_dec c c) as [_|N]; [reflexivity | now elim N]. Qed.

Ltac prefix_lit := cbn [append]; repeat rewrite prefix_cons; apply prefix_nil.

Lemma names_failure_prefix (ph : read_phase) (rs : read_script) (path message : string) :
  names_failure ph rs path message -> prefix "Unable to " message = true.
Proof. intros [detail ->]. apply prefix_append. Qed.

(** With a reliable allocator [read_file] leaves the bytes and size that
    [read_bytes] gives and, when these are none, an error message. *)
Lemma read_file_safe (path : string) (rs : read_script) :
  safe (read_file path rs)
       (fun r => fst r = read_bytes rs /\
                 snd (fst r) = strlen (buffer_bytes (fst (fst r))) /\
                 (fst (fst r) = None ->
                  exists m, snd r = Some m /\ prefix "Unable to " m = true)).
Proof.
  intros w Hw. split; [|apply (read_file_keeps_reliable path rs w Hw)].
  pose proof (read_file_outcome path rs w) as H.
  pose proof (read_file_size path rs w) as Hsz.
  unfold read_contract, read_bytes in *. rewrite (reliable_next w Hw) in H.
  destruct (first_failure rs true) as [ph|].
  - destruct H as (error & He & Hn & Hr). rewrite He in *. cbn [fst snd] in *.
    repeat split; auto. intros _.
    destruct error as [m|]; [|now elim (Hr Hw)].
    exists m. split; [reflexivity|]. eapply names_failure_prefix, Hn. reflexivity.
  - rewrite H in *. cbn [fst snd] in *. repeat split; auto. discriminate.
Qed.

(** With a reliable allocator [write_file] returns [0], or [-1] with an
    error message; it returns [0] when the file is written without incident. *)
Lemma write_file_safe (path src : string) (ws : write_script) :
  safe (write_file path src (strlen src) ws)
       (fun r => (written ws src -> r = (0, None)) /\
                 (fst r = 0 \/
                  exists m, r = (-1, Some m) /\ prefix "Unable to " m = true)).
Proof.
  unfold write_file, written.
  destruct (ws_fopen ws) as [|r1]; safe_cases.
  2:{ split; [intros (H & _); discriminate|]. right. eexists. split; [reflexivity|].
      prefix_lit. }
  destruct (ws_ferror ws) as [|r2]; safe_cases.
  2:{ split; [intros (_ & H & _); discriminate|]. right. eexists. split; [reflexivity|].
      prefix_lit. }
  destruct (ws_fwrite ws =? strlen src) eqn:E; cbn [negb]; safe_cases.
  2:{ split; [intros (_ & _ & H & _); apply Z.eqb_neq in E; contradiction|].
      right. eexists. split; [reflexivity|]. prefix_lit. }
  destruct (ws_fclose ws) as [|r3]; safe_cases.
  2:{ split; [intros (_ & _ & _ & H); discriminate|]. right. eexists.
      split; [reflexivity|]. prefix_lit. }
  split; auto.
Qed.

Lemma wait_for_child_safe (other : nat) (final : wait_res) :
  safe (wait_for_child other final) (fun st => st = final).
Proof.
  induction other as [|n IH]; cbn [wait_for_child]; safe_step; [|exact IH].
  now apply safe_ret.
Qed.

Section Loop_reliable.

Variables (src_format dest_format : string) (src_size : Z).
Variables (cmd aux_filename dest_filename : string).
Variable s : script.

Lemma run_once_safe (runs : Z) (aux : option string) (aux_size : Z) :
  safe (run_once src_format dest_format src_size cmd aux_filename dest_filename s
                 runs aux aux_size)
       (fun e => match e with
                 | Next_run a n => n = strlen (buffer_bytes a)
                 | Goto_cleanup d dsz i =>
                     handed_over dest_format src_format src_size runs runs d dsz i
                 end).
Proof.
  unfold run_once, handed_over, describes_failure. safe_step.
  destruct (r_fork (s_run s runs)) as [|r1].
  2:{ safe_cases. right. repeat split. eexists. split; [reflexivity|].
      left. prefix_lit. }
  eapply safe_bind; [apply wait_for_child_safe|]. intros st ->.
  destruct (r_wait (s_run s runs)) as [r2|sig|st].
  { safe_cases. right. repeat split. eexists. split; [reflexivity|].
    left. prefix_lit. }
  { safe_cases. right. repeat split. eexists. split; [reflexivity|].
    right. right. left. prefix_lit. }
  destruct (st =? 0); cbn [negb].
  2:{ safe_cases. right. repeat split. eexists. split; [reflexivity|].
      right. right. left. prefix_lit. }
  eapply safe_bind; [apply read_file_safe|].
  intros [[a n] err] (_ & Hn & _). cbn [fst snd] in Hn.
  destruct ((n =? aux_size) && memcmp_eq a aux n); [|now apply safe_ret].
  eapply safe_bind; [apply read_file_safe|].
  intros [[d dsz] derr] (_ & Hd & He). cbn [fst snd] in Hd, He.
  destruct d as [b|].
  - safe_cases. left. exists b, runs. cbn [buffer_bytes] in Hd. repeat split; auto; lia.
  - apply safe_ret. right. destruct (He eq_refl) as (m & -> & Hm).
    cbn [buffer_bytes] in Hd. repeat split; auto. exists m. auto.
Qed.

Lemma run_loop_safe (left : nat) (runs : Z) (aux : option string) (aux_size : Z) :
  safe (run_loop src_format dest_format src_size cmd aux_filename dest_filename s
                 left runs aux aux_size)
       (fun r => match r with
                 | None => True
                 | Some (d, dsz, i) =>
                     handed_over dest_format src_format src_size
                                 runs (runs + Z.of_nat left - 1) d dsz i
                 end).
Proof.
  revert runs aux aux_size. induction left as [|left IH]; intros runs aux aux_size;
    cbn [run_loop]; [now apply safe_ret|].
  eapply safe_bind; [apply run_once_safe|]. intros [a n|d dsz i] He.
  - eapply safe_weaken; [apply IH|]. intros [[[d dsz] i]|]; [|auto].
    unfold handed_over. intros [(b & k & H1 & H2 & H3 & H4)|H]; [left|right; exact H].
    exists b, k. repeat split; auto; lia.
  - apply safe_ret. unfold handed_over in *.
    destruct He as [(b & k & H1 & H2 & H3 & H4)|H]; [left|right; exact H].
    exists b, k. repeat split; auto; lia.
Qed.


End Loop_reliable.

(** ** Converting: the code at [cleanup] *)

Lemma errors_of_entries_all (P : string -> Prop)
    (sub_report : string -> dirtree -> option string) (dirname : string)
    (es : list (string * dirnode)) :
  (forall name reason, P (unlink_failure name reason)) ->
  (forall d name sub e, In (d, IsDir sub) es -> sub_report name sub = Some e -> P e) ->
  Forall P (errors_of_entries sub_report dirname es).
Proof.
  intros Hu. induction es as [|[d node] es IH]; intros Hs; cbn [errors_of_entries];
    [constructor|].
  assert (IH' := IH (fun d name sub e H => Hs d name sub e (or_intror H))).
  destruct (streq d "." || streq d ".."); [exact IH'|].
  destruct node as [[|reason]|sub]; [exact IH' | constructor; [apply Hu | exact IH'] |].
  destruct (sub_report (dirname ++ "/" ++ d) sub) as [e|] eqn:E; [|exact IH'].
  constructor; [|exact IH']. eapply Hs; [now left | exact E].
Qed.

(** Every error the removal reports opens with the words [Unable to]. *)
Lemma removal_report_text (dirname : string) (t : dirtree) (e : string) :
  snd (removal_report dirname t) = Some e -> prefix "Unable to " e = true.
Proof.
  remember (dirtree_size t) as n eqn:Hn.
  revert dirname t e Hn. induction n as [n IH] using lt_wf_ind.
  intros dirname [o es c r] e Hn. unfold removal_report. cbn [final_rmdir].
  destruct r as [|reason]; [discriminate|]. cbn [snd].
  rewrite earliest_error_unfold. intros He. apply Some_eq in He. subst e.
  destruct o as [|r1]; [|prefix_lit].
  assert (Hall : Forall (fun e => prefix "Unable to " e = true)
            (errors_of_entries (fun name sub => snd (removal_report name sub))
                               dirname es
             ++ match c with
                | Fails reason =>
                    ["Unable to close directory " ++ quoted dirname
                     ++ ": " ++ reason ++ "."]
                | Done => []
                end)).
  { apply Forall_app. split.
    - apply errors_of_entries_all.
      + intros name r2. unfold unlink_failure. prefix_lit.
      + intros d name sub e Hin Hsub.
        apply (IH (dirtree_size sub)) with (dirname := name) (t := sub); auto.
        rewrite Hn. eapply dirtree_size_entry, Hin.
    - destruct c; constructor; [prefix_lit | constructor]. }
  destruct (errors_of_entries _ dirname es ++ _)%list as [|e l]; cbn [hd_error].
  - unfold rmdir_failure. prefix_lit.
  - now inversion Hall.
Qed.

(** The log: with a diagnostic [d] at hand and a reliable allocator, the
    diagnostic becomes [d] followed by what the log adds. *)
Lemma append_log_safe (s : script) (l : locals) (d : string) :
  l_info l = Some d ->
  (l_log_filename l <> None -> strlen (d ++ log_tail s) <= INT_MAX) ->
  safe (append_log s l)
       (fun i => i = Some (d ++ match l_log_filename l with
                                | Some _ => log_tail s
                                | None => EmptyString
                                end)).
Proof.
  intros Hi Hfit. unfold append_log, log_tail in *. rewrite Hi.
  destruct (l_log_filename l) as [log_filename|].
  - specialize (Hfit ltac:(discriminate)).
    eapply safe_bind; [apply read_file_safe|].
    intros [[log log_size] error] (Hb & _). cbn [fst snd] in Hb. rewrite <- Hb in *.
    cbn [fst] in *. destruct log as [log|].
    + eapply safe_weaken; [apply safe_sprintf_alloc_int; [nonempty | exact Hfit]|].
      auto.
    + apply safe_ret. now rewrite append_empty_r.
  - apply safe_ret. now rewrite append_empty_r.
Qed.

(** The allocator stays reliable through the reading of the log. *)
Lemma append_log_reliable (s : script) (l : locals) :
  safe (append_log s l) (fun _ => True).
Proof.
  unfold append_log. destruct (l_log_filename l) as [log_filename|];
    [|now apply safe_ret].
  eapply safe_bind; [apply read_file_keeps_reliable|].
  intros [[log log_size] error] _. destruct log as [log|]; [|now apply safe_ret].
  destruct (l_info l); [apply sprintf_alloc_int_reliable | now apply safe_ret].
Qed.

(** The removal of the workspace, with a reliable allocator. *)
Lemma remove_workspace_safe (s : script) (l : locals) (i : option string) :
  safe (remove_workspace s l i)
       (fun r => r = match l_dir l, final_rmdir (s_tree s) with
                     | Some dir, Fails _ =>
                         mkResult None 0 (snd (removal_report dir (s_tree s)))
                     | _, _ => mkResult (l_dest l) (l_dest_size l) i
                     end).
Proof.
  unfold remove_workspace. destruct (l_dir l) as [dir|]; [|now apply safe_ret].
  eapply safe_bind; [apply remove_directory_safe|].
  intros r Hr. cbv beta in Hr. subst r. unfold removal_report.
  destruct (final_rmdir (s_tree s)); apply safe_ret; reflexivity.
Qed.

Lemma cleanup_safe (s : script) (l : locals) (d : string) :
  l_info l = Some d ->
  (l_log_filename l <> None -> strlen (d ++ log_tail s) <= INT_MAX) ->
  safe (cleanup s l)
       (fun r => r = match l_dir l, final_rmdir (s_tree s) with
                     | Some dir, Fails _ =>
                         mkResult None 0 (snd (removal_report dir (s_tree s)))
                     | _, _ =>
                         mkResult (l_dest l) (l_dest_size l)
                                  (Some (d ++ match l_log_filename l with
                                              | Some _ => log_tail s
                                              | None => EmptyString
                                              end))
                     end).
Proof.
  intros Hi Hfit. unfold cleanup.
  eapply safe_bind; [apply (append_log_safe s l d Hi Hfit)|].
  intros i ->. apply remove_workspace_safe.
Qed.

(** ** Converting: the way to the loop *)

Section Body.

Variables (src src_format dest_format : string) (max_runs : Z) (s : script).

(** With a reliable allocator the code before [cleanup] always hands over
    destination bytes with the report of a success, or none with the cause
    of the failure. *)
Lemma convert_body_safe :
  supported src_format dest_format
  \/ strlen (unsupported_text src_format dest_format) <= INT_MAX ->
  safe (convert_body src src_format dest_format max_runs s)
       (fun l => handed_over dest_format src_format (strlen src) 1 max_runs
                             (l_dest l) (l_dest_size l) (l_info l)).
Proof.
  intros Hfit.
  unfold convert_body, handed_over, describes_failure. cbv zeta.
  destruct (select_cmd src_format dest_format) as [cmd|] eqn:Ecmd.
  2:{ destruct Hfit as [[cmd Hin]|Hfit];
        [apply select_cmd_supported in Hin; congruence|].
      eapply safe_bind; [apply safe_sprintf_alloc_int; [nonempty | exact Hfit]|].
      intros a ->. apply safe_ret. right. repeat split. eexists.
      split; [reflexivity|]. left. prefix_lit. }
  destruct (max_runs <? 2) eqn:Emax.
  { safe_cases. right. repeat split. eexists. split; [reflexivity|].
    right. left. prefix_lit. }
  apply Z.ltb_ge in Emax.
  set (tmpdir := match s_TMPDIR s with
                 | Some t => if streq t EmptyString then "/tmp" else t
                 | None => "/tmp"
                 end).
  safe_step. eapply safe_bind; [apply safe_sprintf_alloc; nonempty|].
  intros p ->. safe_step.
  destruct (s_mkdtemp s) as [suffix|tried reason].
  2:{ safe_cases. right. repeat split. eexists. split; [reflexivity|].
      left. prefix_lit. }
  do 3 (eapply safe_bind; [apply safe_sprintf_alloc; nonempty|]; intros ? ->).
  eapply safe_bind with (P := fun p => p <> None).
  { destruct (streq dest_format "DVI");
      (eapply safe_weaken; [apply safe_sprintf_alloc; nonempty|]);
      intros a ->; discriminate. }
  intros [dest_filename|] Hd; [clear Hd|now elim Hd].
  eapply safe_bind; [apply write_file_safe|].
  intros [rc error] (_ & [Hrc|(m & Hm & Hp)]); cbn [fst] in *.
  2:{ apply pair_equal_spec in Hm. destruct Hm as [-> ->].
      cbn [Z.eqb negb]. apply safe_ret. cbn [l_dest l_dest_size l_info].
      right. repeat split. exists m. auto. }
  subst rc. cbn [Z.eqb negb].
  eapply safe_bind; [apply run_loop_safe|].
  intros [[[d dsz] i]|] He.
  - apply safe_ret. cbn [l_dest l_dest_size l_info].
    replace (1 + Z.of_nat (Z.to_nat max_runs) - 1) with max_runs in He by lia.
    exact He.
  - safe_cases. cbn [l_dest l_dest_size l_info]. right. repeat split.
    eexists. split; [reflexivity|]. right. right. right. prefix_lit.
Qed.

(** When the formats are supported, [max_runs] is at least 2, the workspace
    is created and the source file is written without incident, the code
    before [cleanup] is the loop, with a reliable allocator. *)
Lemma convert_body_staged (cmd suffix : string) (Q : locals -> Prop) :
  select_cmd src_format dest_format = Some cmd ->
  2 <= max_runs ->
  s_mkdtemp s = Created suffix ->
  written (s_write s) src ->
  let dir := workspace s suffix in
  safe (run_loop src_format dest_format (strlen src) cmd (dir ++ "/texput.aux")
                 (dir ++ (if streq dest_format "DVI"
                          then "/texput.dvi" else "/texput.pdf"))
                 s (Z.to_nat max_runs) 1 None 0)
       (fun e => Q match e with
                   | Some (d, dsz, i) =>
                       mkLocals d dsz i (Some dir) (Some (dir ++ "/texput.log"))
                   | None =>
                       mkLocals None 0 (Some (exhausted_text max_runs))
                                (Some dir) (Some (dir ++ "/texput.log"))
                   end) ->
  safe (convert_body src src_format dest_format max_runs s) Q.
Proof.
  intros Hcmd Hmax Hmk Hwr dir Hloop. subst dir.
  unfold convert_body, workspace in *. cbv zeta. rewrite Hcmd, Hmk.
  destruct (max_runs <? 2) eqn:Emax; [apply Z.ltb_lt in Emax; lia|].
  set (tmpdir := match s_TMPDIR s with
                 | Some t => if streq t EmptyString then "/tmp" else t
                 | None => "/tmp"
                 end) in *.
  safe_step. eapply safe_bind; [apply safe_sprintf_alloc; nonempty|].
  intros p ->. safe_step.
  do 3 (eapply safe_bind; [apply safe_sprintf_alloc; nonempty|]; intros ? ->).
  eapply safe_bind with
    (P := fun p => p = Some ((tmpdir ++ "/texcaller-temp-" ++ suffix)
                             ++ (if streq dest_format "DVI"
                                 then "/texput.dvi" else "/texput.pdf"))).
  { destruct (streq dest_format "DVI"); apply safe_sprintf_alloc; nonempty. }
  intros p ->.
  eapply safe_bind; [apply write_file_safe|].
  intros [rc error] (Hw & _). apply pair_equal_spec in Hw; [|exact Hwr].
  destruct Hw as [-> ->]. cbn [Z.eqb negb].
  eapply safe_bind; [exact Hloop|].
  intros [[[d dsz] i]|] HQ; [now apply safe_ret|].
  safe_cases. exact HQ.
Qed.

(** The allocator stays reliable through the code before [cleanup]. *)
Lemma convert_body_reliable :
  safe (convert_body src src_format dest_format max_runs s) (fun _ => True).
Proof.
  destruct (select_cmd src_format dest_format) as [cmd|] eqn:Ecmd.
  - eapply safe_weaken; [apply convert_body_safe|auto].
    left. exists cmd. now apply select_cmd_supported.
  - unfold convert_body. rewrite Ecmd.
    eapply safe_bind; [apply sprintf_alloc_int_reliable|].
    intros a _. now apply safe_ret.
Qed.

End Body.

(** ** Converting: the result *)

Lemma prefix_head (c : ascii) (p d : string) :
  prefix (String c p) d = true -> exists t, d = String c t.
Proof.
  destruct d as [|x t]; cbn [prefix]; [discriminate|].
  destruct (ascii_dec c x) as [->|]; [|discriminate]. intros _. now exists t.
Qed.

Lemma success_not_failure (dest_format : string) (dest_size : Z)
    (src_format : string) (src_size max_runs : Z) (d : string) :
  describes_success dest_format dest_size src_format src_size max_runs d ->
  ~ describes_failure d.
Proof.
  intros (runs & _ & Hp). unfold success_text in Hp. cbn [append] in Hp.
  apply prefix_head in Hp. destruct Hp as [t ->].
  unfold describes_failure. cbn. intuition discriminate.
Qed.

Lemma describes_failure_append (d tail : string) :
  describes_failure d -> describes_failure (d ++ tail).
Proof.
  unfold describes_failure.
  intros [H|[H|[H|H]]]; [left | right; left | right; right; left | right; right; right];
    now apply prefix_append_r.
Qed.

(** C9 (as amended).  When no allocation fails and no text to be
    formatted has more than [INT_MAX] bytes, a call of [texcaller_convert]
    ends in exactly one of two states: destination bytes together with a
    diagnostic that describes the success, or no destination bytes
    together with a diagnostic that describes the cause of the failure.  A
    diagnostic is produced in both, and none describes a success and a
    failure at once.  The texts that can be that long are the template of
    the workspace, which begins with the value of [TMPDIR], the message
    that quotes unsupported formats, and the diagnostic reached before
    [cleanup], by itself or joined with the log. *)
Theorem conversion_outcome (src src_format dest_format : string) (max_runs : Z)
    (s : script) (w : World) :
  reliable w ->
  strlen (workspace_template s) <= INT_MAX ->
  supported src_format dest_format
  \/ strlen (unsupported_text src_format dest_format) <= INT_MAX ->
  (let l := fst (convert_body src src_format dest_format max_runs s w) in
   forall d, l_info l = Some d ->
             strlen (d ++ match l_log_filename l with
                          | Some _ => log_tail s
                          | None => EmptyString
                          end) <= INT_MAX) ->
  let r := fst (texcaller_convert src src_format dest_format max_runs s w) in
  (succeeded dest_format src_format (strlen src) max_runs r \/ failed r) /\
  ~ (succeeded dest_format src_format (strlen src) max_runs r /\ failed r) /\
  (forall d size,
     describes_success dest_format size src_format (strlen src) max_runs d ->
     ~ describes_failure d).
Proof.
  intros Hw _ Hfit1 Hfit2 r. split; [|split].
  - assert (Hs : succeeded dest_format src_format (strlen src) max_runs r
                 \/ failed r).
    { subst r. unfold texcaller_convert, bind. cbv zeta in Hfit2.
      destruct (convert_body_safe src src_format dest_format max_runs s Hfit1 w Hw)
        as [Hl Hwl].
      destruct (convert_body src src_format dest_format max_runs s w) as [l wl].
      cbn [fst snd] in Hl, Hwl, Hfit2. unfold handed_over in Hl.
      assert (Hi : exists d, l_info l = Some d).
      { destruct Hl as [(b & k & _ & _ & _ & H)|(_ & _ & m & H & _)]; eauto. }
      destruct Hi as [d Hi].
      assert (Hfit : l_log_filename l <> None -> strlen (d ++ log_tail s) <= INT_MAX).
      { intros Hlog. specialize (Hfit2 d Hi).
        destruct (l_log_filename l); [exact Hfit2 | now elim Hlog]. }
      destruct (cleanup_safe s l d Hi Hfit wl Hwl) as [Hr _].
      rewrite Hr. clear Hr.
      assert (Hkeep :
        (let r1 := mkResult (l_dest l) (l_dest_size l)
                     (Some (d ++ match l_log_filename l with
                                 | Some _ => log_tail s
                                 | None => EmptyString
                                 end)) in
         succeeded dest_format src_format (strlen src) max_runs r1 \/ failed r1)).
      { cbv zeta. rewrite Hi in Hl.
        destruct Hl as [(b & k & Hd & Hz & Hk & H)|(Hd & Hz & m & H & Hm)];
          apply Some_eq in H; subst d.
        - left. exists b. eexists. cbn [dest dest_size info].
          repeat split; [exact Hd | exact Hz | ].
          exists k. split; [exact Hk|]. rewrite Hz. apply prefix_append.
        - right. eexists. cbn [dest dest_size info].
          repeat split; [exact Hd | exact Hz | ]. now apply describes_failure_append. }
      destruct (l_dir l) as [dir|]; [|exact Hkeep].
      destruct (final_rmdir (s_tree s)) as [|reason] eqn:Er; [exact Hkeep|].
      right. unfold failed. cbn [dest dest_size info].
      assert (He : exists e, snd (removal_report dir (s_tree s)) = Some e).
      { unfold removal_report. rewrite Er. cbn [snd]. eauto. }
      destruct He as [e He]. exists e. repeat split; [exact He|].
      left. eapply removal_report_text, He. }
    exact Hs.
  - intros [(b & d & Hd & _) (d' & Hn & _)]. congruence.
  - intros d size. apply success_not_failure.
Qed.

Lemma conversion_outcome_witness :
  succeeded "PDF" "TeX" 4 5
    (fst (texcaller_convert "\bye" "TeX" "PDF" 5 steady_script fresh_world)) /\
  failed (fst (texcaller_convert "\bye" "TeX" "PDF" 5 steady_pinned_script fresh_world)).
Proof.
  assert (Hsup : supported "TeX" "PDF"
                 \/ strlen (unsupported_text "TeX" "PDF") <= INT_MAX).
  { left. exists "pdftex". cbn [supported_pairs In]. tauto. }
  split.
  - destruct (proj1 (conversion_outcome "\bye" "TeX" "PDF" 5 steady_script fresh_world
                       (Forall_nil _)
                       ltac:(apply Z.leb_le; vm_compute; reflexivity) Hsup
                       ltac:(cbv zeta; intros d Hd; vm_compute in Hd;
                             apply Some_eq in Hd; subst d;
                             apply Z.leb_le; vm_compute; reflexivity)))
      as [H|(d & H & _)];
      [exact H | vm_compute in H; discriminate H].
  - destruct (proj1 (conversion_outcome "\bye" "TeX" "PDF" 5 steady_pinned_script
                       fresh_world (Forall_nil _)
                       ltac:(apply Z.leb_le; vm_compute; reflexivity) Hsup
                       ltac:(cbv zeta; intros d Hd; vm_compute in Hd;
                             apply Some_eq in Hd; subst d;
                             apply Z.leb_le; vm_compute; reflexivity)))
      as [(b & d & H & _)|H];
      [vm_compute in H; discriminate H | exact H].
Defined.

(** Counterexample to C9 as first stated: when the buffer for the name of
    the workspace cannot be allocated, the call returns with neither
    destination bytes nor a diagnostic. *)
Lemma no_diagnostic_when_starved :
  let r := fst (texcaller_convert "\bye" "TeX" "PDF" 5 steady_script starved_world) in
  dest r = None /\ info r = None /\
  ~ (succeeded "PDF" "TeX" 4 5 r \/ failed r).
Proof.
  cbv zeta. split; [vm_compute; reflexivity|]. split; [vm_compute; reflexivity|].
  intros [(b & d & H & _)|(d & _ & _ & H & _)]; vm_compute in H; discriminate H.
Qed.





(** ** Converting: the removal of the workspace *)

Ltac body_cases :=
  repeat
    (match goal with
     | |- context [sprintf_alloc ?t ?w1] => destruct (sprintf_alloc t w1) as [[?|] ?]
     | |- context [write_file ?p ?b ?n ?ws ?w1] =>
         destruct (write_file p b n ws w1) as [[? ?] ?]
     | |- context [run_loop ?a ?b ?c ?d ?e ?f ?g ?h ?i ?j ?k ?w1] =>
         destruct (run_loop a b c d e f g h i j k w1) as [[[[? ?] ?]|] ?]
     | |- context [if ?b then _ else _] => destruct b
     end; cbn [ret fst snd l_dir]);
  try reflexivity.

(** Once [mkdtemp] has created the workspace, [dir] is set at [cleanup],
    whatever happens next. *)
Lemma workspace_at_cleanup (src src_format dest_format : string) (max_runs : Z)
    (s : script) (w : World) (cmd suffix : string) :
  select_cmd src_format dest_format = Some cmd ->
  2 <= max_runs ->
  next_alloc w = true ->
  s_mkdtemp s = Created suffix ->
  l_dir (fst (convert_body src src_format dest_format max_runs s w))
  = Some (workspace s suffix).
Proof.
  intros Hcmd Hmax Ha Hmk. unfold convert_body, workspace. cbv zeta.
  rewrite Hcmd, Hmk.
  destruct (max_runs <? 2) eqn:Emax; [apply Z.ltb_lt in Emax; lia|].
  set (tmpdir := match s_TMPDIR s with
                 | Some t => if streq t EmptyString then "/tmp" else t
                 | None => "/tmp"
                 end).
  unfold bind at 1. cbn [sys]. unfold bind at 1.
  match goal with |- context [sprintf_alloc ?t ?w1] =>
    destruct (sprintf_alloc_outcome t w1) as [Ht _]; [nonempty|];
    change (next_alloc w1) with (next_alloc w) in Ht; rewrite Ha in Ht;
    destruct (sprintf_alloc t w1) as [p w2]; cbn [fst] in Ht; subst p
  end.
  unfold bind. cbn [sys]. body_cases.
Qed.

(** C1. When a workspace was created ([dir] is set at [cleanup]) and its
    removal fails, the outcome reached before is overridden: [dest] is
    [NULL], [dest_size] is [0] and the diagnostic is the error that the
    removal reports, also when destination bytes had been produced.  The
    workspace was created when the formats are supported, [max_runs] is at
    least 2, the name of the workspace could be allocated and [mkdtemp]
    succeeded. *)
Theorem removal_failure_overrides (src src_format dest_format : string)
    (max_runs : Z) (s : script) (w : World) :
  let body := convert_body src src_format dest_format max_runs s w in
  let logged := append_log s (fst body) (snd body) in
  let r := fst (texcaller_convert src src_format dest_format max_runs s w) in
  (forall dir reason,
     l_dir (fst body) = Some dir ->
     final_rmdir (s_tree s) = Fails reason ->
     dest r = None /\ dest_size r = 0 /\
     info r = snd (fst (remove_directory_recursively dir (s_tree s) (snd logged))) /\
     (reliable w -> info r = snd (removal_report dir (s_tree s)))) /\
  (forall cmd suffix,
     In (src_format, dest_format, cmd) supported_pairs ->
     2 <= max_runs -> next_alloc w = true -> s_mkdtemp s = Created suffix ->
     l_dir (fst body) = Some (workspace s suffix)).
Proof.
  intros body logged r. split.
  - intros dir reason Hdir Hrm.
    assert (Hr : r = mkResult None 0
                   (snd (fst (remove_directory_recursively dir (s_tree s)
                                                           (snd logged))))).
    { subst r logged body. unfold texcaller_convert, cleanup, bind.
      destruct (convert_body src src_format dest_format max_runs s w) as [l wl].
      cbn [fst snd] in *.
      destruct (append_log s l wl) as [i wa]. cbn [fst snd].
      unfold remove_workspace. rewrite Hdir. unfold bind.
      pose proof (remove_directory_return dir (s_tree s) wa) as Hret.
      rewrite Hrm in Hret.
      destruct (remove_directory_recursively dir (s_tree s) wa) as [[rc e] wr].
      cbn [fst snd] in *. subst rc. reflexivity. }
    rewrite Hr. cbn [dest dest_size info]. repeat split.
    intros Hw.
    destruct (convert_body_reliable src src_format dest_format max_runs s w Hw)
      as [_ Hwl]. fold body in Hwl.
    destruct (append_log_reliable s (fst body) (snd body) Hwl) as [_ Hwa].
    fold logged in Hwa.
    destruct (remove_directory_safe dir (s_tree s) (snd logged) Hwa) as [Hrep _].
    now rewrite Hrep.
  - intros cmd suffix Hin Hmax Ha Hmk. apply select_cmd_supported in Hin.
    now apply workspace_at_cleanup with (cmd := cmd).
Qed.

Lemma removal_failure_overrides_witness :
  l_dest (fst (convert_body "\bye" "TeX" "PDF" 5 steady_pinned_script fresh_world))
  = Some "%PDF-1.5" /\
  fst (texcaller_convert "\bye" "TeX" "PDF" 5 steady_pinned_script fresh_world)
  = mkResult None 0
      (Some (rmdir_failure "/tmp/texcaller-temp-qWeRtY" "Permission denied")).
Proof.
  split; [vm_compute; reflexivity|].
  destruct (proj1 (removal_failure_overrides "\bye" "TeX" "PDF" 5
                     steady_pinned_script fresh_world)
              "/tmp/texcaller-temp-qWeRtY" "Permission denied")
    as (H1 & H2 & _ & H3).
  - apply (proj2 (removal_failure_overrides "\bye" "TeX" "PDF" 5
                    steady_pinned_script fresh_world) "pdftex" "qWeRtY");
      [cbn; auto | lia | reflexivity | reflexivity].
  - reflexivity.
  - specialize (H3 (Forall_nil _)).
    destruct (fst (texcaller_convert "\bye" "TeX" "PDF" 5 steady_pinned_script
                                     fresh_world)) as [d z i].
    cbn [dest dest_size info] in *. subst d z i. reflexivity.
Defined.

(** ** Converting: the first pass *)

Lemma read_bytes_nothing (rs : read_script) :
  absent rs \/ holds rs EmptyString ->
  buffer_bytes (fst (read_bytes rs)) = EmptyString /\ snd (read_bytes rs) = 0.
Proof.
  unfold read_bytes. intros [[reason Ha]|Hh].
  - unfold first_failure. rewrite Ha. split; reflexivity.
  - destruct (holds_delivered rs EmptyString Hh) as (Hd & Hs & Hf); [reflexivity|].
    rewrite Hf, Hd, Hs. split; reflexivity.
Qed.

(** What the first pass hands over when it ends the loop: what the reading
    of the destination file gives, reported as the outcome of run 1. *)
Lemma first_pass_safe (src_format dest_format : string) (src_size : Z)
    (cmd aux_filename dest_filename : string) (s : script) (max_runs : Z) :
  1 <= max_runs ->
  run_completes s 1 ->
  absent (r_aux (s_run s 1)) \/ holds (r_aux (s_run s 1)) EmptyString ->
  safe (run_loop src_format dest_format src_size cmd aux_filename dest_filename s
                 (Z.to_nat max_runs) 1 None 0)
       (fun e =>
          match fst (read_bytes (s_dest s)) with
          | Some bytes =>
              e = Some (Some bytes, strlen bytes,
                        Some (success_text dest_format (strlen bytes)
                                           src_format src_size 1))
          | None =>
              exists m, e = Some (None, 0, Some m) /\ prefix "Unable to " m = true
          end).
Proof.
  intros Hmax [Hfork Hwait] Haux.
  destruct (read_bytes_nothing _ Haux) as [Hb0 Hn0].
  destruct (Z.to_nat max_runs) as [|left] eqn:El; [lia|].
  cbn [run_loop]. unfold run_once. rewrite Hfork.
  eapply safe_bind with
    (P := fun e =>
            match fst (read_bytes (s_dest s)) with
            | Some bytes =>
                e = Goto_cleanup (Some bytes) (strlen bytes)
                      (Some (success_text dest_format (strlen bytes)
                                          src_format src_size 1))
            | None =>
                exists m, e = Goto_cleanup None 0 (Some m)
                          /\ prefix "Unable to " m = true
            end).
  - safe_step. eapply safe_bind; [apply wait_for_child_safe|]. intros st ->.
    rewrite Hwait. cbn [Z.eqb negb].
    eapply safe_bind; [apply read_file_safe|].
    intros [[a n] err] (Hb & _). cbn [fst snd] in Hb.
    rewrite <- Hb in Hb0, Hn0. cbn [fst snd] in Hb0, Hn0. subst n.
    assert (Ht : (0 =? 0) && memcmp_eq a None 0 = true).
    { unfold memcmp_eq. cbn [Z.to_nat Z.eqb andb]. now rewrite !substring_none. }
    rewrite Ht.
    eapply safe_bind; [apply read_file_safe|].
    intros [[d dsz] derr] (Hd & Hz & He). cbn [fst snd] in Hd, Hz, He.
    rewrite <- Hd. cbn [fst]. destruct d as [bytes|].
    + cbn [buffer_bytes] in Hz. subst dsz. safe_cases. reflexivity.
    + cbn [buffer_bytes] in Hz. subst dsz. destruct (He eq_refl) as (m & -> & Hm).
      apply safe_ret. exists m. auto.
  - intros e He. destruct (fst (read_bytes (s_dest s))) as [bytes|].
    + subst e. now apply safe_ret.
    + destruct He as (m & -> & Hm). apply safe_ret. exists m. auto.
Qed.

(** C10. The loop of [texcaller_convert] starts with no previous auxiliary
    file ([NULL], size [0]).  So when the first run exits with status zero
    and leaves no auxiliary file, or an empty one, the test holds in the
    first pass: the loop ends there, after a single [fork], with what the
    reading of the destination file gives (first part, for every state of
    the allocator).  With a reliable allocator, [texcaller_convert] then
    reaches [cleanup] with the destination bytes and the report of a
    success after 1 run, or, if the destination file cannot be read, with
    the error of that reading (second part). *)
Theorem first_pass_converges_without_aux (src src_format dest_format : string)
    (max_runs : Z) (s : script) (w : World) :
  run_completes s 1 ->
  absent (r_aux (s_run s 1)) \/ holds (r_aux (s_run s 1)) EmptyString ->
  (forall src_size cmd aux_filename dest_filename,
     1 <= max_runs ->
     let w1 := after_wait (s_run s 1) w in
     let new := read_file aux_filename (r_aux (s_run s 1)) w1 in
     let out := read_file dest_filename (s_dest s) (snd new) in
     let loop := run_loop src_format dest_format src_size cmd aux_filename
                          dest_filename s (Z.to_nat max_runs) 1 None 0 w in
     buffer_bytes (fst (fst (fst new))) = buffer_bytes None /\
     fst loop
     = Some match fst (fst (fst out)) with
            | None => (None, 0, snd (fst out))
            | Some bytes =>
                (Some bytes, strlen bytes,
                 if next_alloc (snd out)
                 then Some (success_text dest_format (strlen bytes)
                                         src_format src_size 1)
                 else None)
            end /\
     forks (trace (snd loop)) = S (forks (trace w))) /\
  (forall suffix,
     reliable w -> supported src_format dest_format -> 2 <= max_runs ->
     s_mkdtemp s = Created suffix -> written (s_write s) src ->
     let l := fst (convert_body src src_format dest_format max_runs s w) in
     l_dir l = Some (workspace s suffix) /\
     match fst (read_bytes (s_dest s)) with
     | Some bytes =>
         l_dest l = Some bytes /\ l_dest_size l = strlen bytes /\
         l_info l = Some (success_text dest_format (strlen bytes)
                                       src_format (strlen src) 1)
     | None =>
         l_dest l = None /\ l_dest_size l = 0 /\
         exists m, l_info l = Some m /\ prefix "Unable to " m = true
     end).
Proof.
  intros Hruns Haux. split.
  - intros src_size cmd aux_filename dest_filename Hmax.
    now apply first_pass_ends_loop.
  - intros suffix Hw [cmd Hcmd] Hmax Hmk Hwr l.
    apply select_cmd_supported in Hcmd.
    assert (Hs : safe (convert_body src src_format dest_format max_runs s)
              (fun l =>
                 l_dir l = Some (workspace s suffix) /\
                 match fst (read_bytes (s_dest s)) with
                 | Some bytes =>
                     l_dest l = Some bytes /\ l_dest_size l = strlen bytes /\
                     l_info l = Some (success_text dest_format (strlen bytes)
                                                   src_format (strlen src) 1)
                 | None =>
                     l_dest l = None /\ l_dest_size l = 0 /\
                     exists m, l_info l = Some m /\ prefix "Unable to " m = true
                 end)).
    { apply (convert_body_staged src src_format dest_format max_runs s cmd suffix
               _ Hcmd Hmax Hmk Hwr).
      eapply safe_weaken; [apply first_pass_safe; [lia | exact Hruns | exact Haux]|].
      intros e He. destruct (fst (read_bytes (s_dest s))) as [bytes|].
      - subst e. cbn [l_dir l_dest l_dest_size l_info]. auto.
      - destruct He as (m & -> & Hm). cbn [l_dir l_dest l_dest_size l_info].
        repeat split. exists m. auto. }
    apply (Hs w Hw).
Qed.

Lemma first_pass_converges_without_aux_witness :
  fst (run_loop "TeX" "PDF" 4 "pdftex" "/tmp/ws/texput.aux" "/tmp/ws/texput.pdf"
                no_aux_script (Z.to_nat 5) 1 None 0 fresh_world)
  = Some (Some "%PDF-1.5", 8, Some (success_text "PDF" 8 "TeX" 4 1)) /\
  l_info (fst (convert_body "\bye" "TeX" "PDF" 5 no_aux_script fresh_world))
  = Some (success_text "PDF" 8 "TeX" 4 1) /\
  info (fst (texcaller_convert "\bye" "TeX" "PDF" 5 no_aux_script fresh_world))
  = Some (success_text "PDF" 8 "TeX" 4 1 ++ nl ++ nl ++ "This is pdfTeX").
Proof.
  assert (Hruns : run_completes no_aux_script 1) by (split; reflexivity).
  assert (Haux : absent (r_aux (s_run no_aux_script 1))
                 \/ holds (r_aux (s_run no_aux_script 1)) EmptyString).
  { left. exists "No such file or directory". reflexivity. }
  destruct (first_pass_converges_without_aux "\bye" "TeX" "PDF" 5 no_aux_script
              fresh_world Hruns Haux) as [HA HB].
  split; [|split].
  - destruct (HA 4 "pdftex" "/tmp/ws/texput.aux" "/tmp/ws/texput.pdf") as (_ & H & _);
      [lia | exact H].
  - destruct (HB "qWeRtY") as (_ & _ & _ & H);
      [constructor | exists "pdftex"; cbn; auto | lia | reflexivity
      | repeat split | exact H].
  - vm_compute. reflexivity.
Defined.

(** * Further properties *)

(** ** The escaper *)

Lemma table_lookup_in (t : list (ascii * string)) (c : ascii) (e : string) :
  table_lookup t c = Some e -> In (c, e) t.
Proof.
  induction t as [|[k v] t IH]; cbn [table_lookup In]; [discriminate|].
  destruct (Ascii.eqb_spec c k) as [->|Hne].
  - intros H. apply Some_eq in H. subst v. now left.
  - intros H. right. now apply IH.
Qed.

Lemma escapes_start (c : ascii) (e : string) :
  In (c, e) substitution_table ->
  exists rest, e = String "\" rest \/ e = String "{" rest.
Proof.
  unfold substitution_table. cbn [In].
  intros H.
  repeat (destruct H as [H|H];
          [apply pair_equal_spec in H; destruct H as [_ <-]; eexists;
           (left; reflexivity) || (right; reflexivity)|]).
  contradiction.
Qed.

(** No replacement text opens another one: read from the left, the
    replacement texts tell the characters they stand for. *)
Lemma escapes_prefix_free (c1 c2 : ascii) (e1 e2 x y : string) :
  In (c1, e1) substitution_table -> In (c2, e2) substitution_table ->
  e1 ++ x = e2 ++ y -> c1 = c2 /\ x = y.
Proof.
  unfold substitution_table. cbn [In]. intros H1 H2 H.
  repeat (destruct H1 as [H1|H1];
          [apply pair_equal_spec in H1; destruct H1 as [<- <-]|]);
    [..|contradiction];
    repeat (destruct H2 as [H2|H2];
            [apply pair_equal_spec in H2; destruct H2 as [<- <-]|]);
    try contradiction;
    cbn [append] in H; split; congruence.
Qed.

Lemma substitute_injective (s1 s2 : string) :
  substitute s1 = substitute s2 -> s1 = s2.
Proof.
  revert s2. induction s1 as [|c1 r1 IH]; intros [|c2 r2]; cbn [substitute].
  - reflexivity.
  - destruct (table_lookup substitution_table c2) as [e2|] eqn:E2; [|discriminate].
    destruct (escapes_start c2 e2 (table_lookup_in _ _ _ E2)) as [rest [-> | ->]];
      discriminate.
  - destruct (table_lookup substitution_table c1) as [e1|] eqn:E1; [|discriminate].
    destruct (escapes_start c1 e1 (table_lookup_in _ _ _ E1)) as [rest [-> | ->]];
      discriminate.
  - destruct (table_lookup substitution_table c1) as [e1|] eqn:E1;
      destruct (table_lookup substitution_table c2) as [e2|] eqn:E2; intros H.
    + destruct (escapes_prefix_free c1 c2 e1 e2 _ _ (table_lookup_in _ _ _ E1)
                  (table_lookup_in _ _ _ E2) H) as [-> Hr].
      f_equal. now apply IH.
    + destruct (escapes_start c1 e1 (table_lookup_in _ _ _ E1)) as [rest [-> | ->]];
        cbn [append] in H; assert (c2 = "\"%char \/ c2 = "{"%char) as [-> | ->]
          by (first [left; congruence | right; congruence]);
        vm_compute in E2; discriminate.
    + destruct (escapes_start c2 e2 (table_lookup_in _ _ _ E2)) as [rest [-> | ->]];
        cbn [append] in H; assert (c1 = "\"%char \/ c1 = "{"%char) as [-> | ->]
          by (first [left; congruence | right; congruence]);
        vm_compute in E1; discriminate.
    + assert (c1 = c2) by congruence. subst c2. f_equal. apply IH. congruence.
Qed.

Lemma texcaller_escape_latex_some (s : string) (w : World) (e : string) :
  fst (texcaller_escape_latex s w) = Some e -> e = substitute (cstr s).
Proof.
  rewrite texcaller_escape_latex_outcome. destruct (next_alloc w); congruence.
Qed.

(** X1. Escaping loses nothing: two C strings with the same escaped text
    are the same string. *)
Theorem escape_latex_injective (s1 s2 : string) (w1 w2 : World) (e : string) :
  no_NUL s1 -> no_NUL s2 ->
  fst (texcaller_escape_latex s1 w1) = Some e ->
  fst (texcaller_escape_latex s2 w2) = Some e ->
  s1 = s2.
Proof.
  intros H1 H2 E1 E2.
  apply texcaller_escape_latex_some in E1, E2. rewrite H1 in E1. rewrite H2 in E2.
  apply substitute_injective. congruence.
Qed.

Lemma escape_latex_injective_witness :
  fst (texcaller_escape_latex "{x}" fresh_world) = Some "\{x\}" /\ "{x}" = "{x}".
Proof.
  split; [reflexivity|].
  exact (escape_latex_injective "{x}" "{x}" fresh_world (mkWorld [true] []) "\{x\}"
           eq_refl eq_refl eq_refl eq_refl).
Defined.

Lemma escape_latex_char_length (c : ascii) (e : string) :
  escape_latex_char c = Some e -> 1 <= strlen e <= 18.
Proof.
  rewrite escape_latex_char_table. intros H. apply table_lookup_in in H.
  unfold substitution_table in H. cbn [In] in H.
  repeat (destruct H as [H|H];
          [apply pair_equal_spec in H; destruct H as [_ <-]; vm_compute;
           split; discriminate|]).
  contradiction.
Qed.

Lemma substitute_length (s : string) :
  strlen s <= strlen (substitute s) <= 18 * strlen s.
Proof.
  induction s as [|c r IH]; cbn [substitute]; [vm_compute; split; discriminate|].
  change (table_lookup substitution_table c) with (escape_latex_char c).
  assert (Hs : strlen (String c r) = 1 + strlen r).
  { unfold strlen. cbn [String.length]. lia. }
  destruct (escape_latex_char c) as [e|] eqn:E.
  - pose proof (escape_latex_char_length c e E). rewrite strlen_append, Hs. lia.
  - assert (Hs' : strlen (String c (substitute r)) = 1 + strlen (substitute r)).
    { unfold strlen. cbn [String.length]. lia. }
    rewrite Hs, Hs'. lia.
Qed.

(** X2. The two loops of [texcaller_escape_latex] agree: the text written
    has exactly the length counted before, so that the buffer of
    [length + 1] bytes is filled and never overrun.  The text is never
    shorter than the input, and at most 18 times as long. *)
Theorem escape_latex_length (s : string) (w : World) (e : string) :
  fst (texcaller_escape_latex s w) = Some e ->
  strlen e = escaped_length s 0 /\
  strlen (cstr s) <= strlen e <= 18 * strlen (cstr s).
Proof.
  intros H. apply texcaller_escape_latex_some in H. subst e. split.
  - pose proof (escaped_length_fill s EmptyString) as H.
    rewrite escaped_fill_substitute in H. symmetry. exact H.
  - apply substitute_length.
Qed.

Lemma escape_latex_length_witness :
  strlen "a\textasciicircum{}b" = escaped_length "a^b" 0 /\
  strlen (cstr "a^b") <= strlen "a\textasciicircum{}b" <= 18 * strlen (cstr "a^b").
Proof.
  exact (escape_latex_length "a^b" fresh_world "a\textasciicircum{}b" eq_refl).
Defined.

Lemma cstr_append (a b : string) : no_NUL a -> cstr (a ++ b) = a ++ cstr b.
Proof.
  unfold no_NUL. induction a as [|c r IH]; cbn [cstr append]; [reflexivity|].
  destruct (Ascii.eqb c NUL); [discriminate|].
  intros H. f_equal. apply IH. congruence.
Qed.

Lemma substitute_append (a b : string) :
  substitute (a ++ b) = substitute a ++ substitute b.
Proof.
  induction a as [|c r IH]; cbn [substitute append]; [reflexivity|].
  rewrite IH. destruct (table_lookup substitution_table c); [|reflexivity].
  now rewrite append_assoc.
Qed.

(** X3. Escaping goes piece by piece: the escaped text of [a] followed by
    [b] is the escaped text of [a] followed by the escaped text of [b]. *)
Theorem escape_latex_append (a b : string) (w wa wb : World) (ea eb : string) :
  no_NUL a ->
  fst (texcaller_escape_latex a wa) = Some ea ->
  fst (texcaller_escape_latex b wb) = Some eb ->
  next_alloc w = true ->
  fst (texcaller_escape_latex (a ++ b) w) = Some (ea ++ eb).
Proof.
  intros Ha Ea Eb Hw.
  apply texcaller_escape_latex_some in Ea, Eb. subst ea eb.
  rewrite texcaller_escape_latex_outcome, Hw, (cstr_append a b Ha), substitute_append.
  now rewrite Ha.
Qed.

Lemma escape_latex_append_witness :
  fst (texcaller_escape_latex ("50%" ++ " of $x") fresh_world)
  = Some ("50\%" ++ " of \$x").
Proof.
  exact (escape_latex_append "50%" " of $x" fresh_world fresh_world fresh_world
           "50\%" " of \$x" eq_refl eq_refl eq_refl eq_refl).
Defined.

Lemma has_char_append (c : ascii) (a b : string) :
  has_char c (a ++ b) = has_char c a || has_char c b.
Proof.
  induction a as [|x r IH]; cbn [has_char append]; [reflexivity|].
  now rewrite IH, orb_assoc.
Qed.

Lemma removed_chars_replaced (c : ascii) :
  In c removed_chars -> exists e, table_lookup substitution_table c = Some e.
Proof.
  unfold removed_chars. cbn [In].
  intros H. repeat (destruct H as [<-|H]; [eexists; reflexivity|]). contradiction.
Qed.

Lemma escapes_without_removed (c x : ascii) (e : string) :
  In c removed_chars -> In (x, e) substitution_table -> has_char c e = false.
Proof.
  unfold removed_chars, substitution_table. cbn [In]. intros Hc He.
  repeat (destruct Hc as [<-|Hc]; [|]); try contradiction;
    repeat (destruct He as [He|He];
            [apply pair_equal_spec in He; destruct He as [_ <-]; reflexivity|]);
    contradiction.
Qed.

Lemma substitute_without_removed (c : ascii) (s : string) :
  In c removed_chars -> has_char c (substitute s) = false.
Proof.
  intros Hc. induction s as [|x r IH]; cbn [substitute]; [reflexivity|].
  destruct (table_lookup substitution_table x) as [e|] eqn:E.
  - rewrite has_char_append, IH, orb_false_r.
    eapply escapes_without_removed; [exact Hc | eapply table_lookup_in, E].
  - cbn [has_char]. rewrite IH, orb_false_r.
    destruct (Ascii.eqb_spec x c) as [->|]; [|reflexivity].
    destruct (removed_chars_replaced c Hc) as [e He]. congruence.
Qed.

(** X4. The escaped text is one line and holds no double quote, tilde,
    angle bracket or circumflex: each of these characters is replaced, and
    no replacement text brings one back. *)
Theorem escape_latex_removes (s : string) (w : World) (e : string) (c : ascii) :
  fst (texcaller_escape_latex s w) = Some e ->
  In c removed_chars ->
  has_char c e = false.
Proof.
  intros H Hc. apply texcaller_escape_latex_some in H. subst e.
  now apply substitute_without_removed.
Qed.

Lemma escape_latex_removes_witness :
  has_char "<" "a<b" = true /\ has_char "<" "a\textless{}b" = false.
Proof.
  split; [reflexivity|].
  apply (escape_latex_removes "a<b" fresh_world "a\textless{}b" "<").
  - reflexivity.
  - unfold removed_chars. cbn [In]. auto 10.
Defined.

(** ** Files *)

Lemma write_error_path (text : string) (close : M unit) (w : World) :
  text <> EmptyString ->
  fst ((error <- sprintf_alloc text ;; close ;; ret (-1, error)) w)
  = (-1, if next_alloc w then Some text else None).
Proof.
  intros Hne. unfold bind.
  destruct (sprintf_alloc_outcome text w Hne) as [H _].
  destruct (sprintf_alloc text w) as [p w']. cbn [fst] in H. subst p.
  destruct (close w'). reflexivity.
Qed.

Lemma occurs_quoted_first (s b : string) : occurs s (quoted s ++ b).
Proof. apply (occurs_quoted s EmptyString b). Qed.

(** The path, written between quotes somewhere in a message, occurs in it. *)
Ltac occurs_path :=
  repeat first [ apply occurs_quoted_first | apply occurs_after ].

Ltac write_failure :=
  match goal with
  | |- exists message, _ /\ _ /\ fst (bind (sprintf_alloc ?text) _ ?w1) = _ =>
      exists text; split; [prefix_lit|]; split;
      [ occurs_path
      | change (next_alloc _) with (next_alloc w1);
        apply write_error_path; discriminate ]
  end.

(** X5. [write_file] returns [0], with no error message, exactly when the
    file opens, all [src_size] bytes are written without error and the
    file closes.  In every other case it returns [-1], and the error
    message, missing only when it cannot be allocated, names the path. *)
Theorem write_file_all_or_error (path src : string) (src_size : Z)
    (ws : write_script) (w : World) :
  (write_succeeds ws src_size ->
     fst (write_file path src src_size ws w) = (0, None)) /\
  (~ write_succeeds ws src_size ->
     exists message,
       prefix "Unable to " message = true /\ occurs path message /\
       fst (write_file path src src_size ws w)
       = (-1, if next_alloc w then Some message else None)).
Proof.
  unfold write_succeeds, write_file. split.
  - intros (-> & -> & Hn & ->). apply Z.eqb_eq in Hn. rewrite Hn. reflexivity.
  - intros Hno.
    destruct (ws_fopen ws) as [|r1]; unfold bind at 1; cbn [sys]; [|write_failure].
    destruct (ws_ferror ws) as [|r2]; unfold bind at 1; cbn [sys]; [|write_failure].
    destruct (ws_fwrite ws =? src_size) eqn:E; cbn [negb]; [|write_failure].
    apply Z.eqb_eq in E.
    destruct (ws_fclose ws) as [|r3]; unfold bind at 1; cbn [sys]; [|write_failure].
    elim Hno. auto.
Qed.

Lemma write_file_all_or_error_witness :
  exists message,
    prefix "Unable to " message = true /\ occurs "texput.tex" message /\
    fst (write_file "texput.tex" "\end" 4 (mkWrite Done 3 Done Done) fresh_world)
    = (-1, Some message).
Proof.
  destruct (proj2 (write_file_all_or_error "texput.tex" "\end" 4
                     (mkWrite Done 3 Done Done) fresh_world))
    as (message & Hp & Ho & Hw).
  - unfold write_succeeds. cbn [ws_fwrite]. intros (_ & _ & H & _). discriminate H.
  - exists message. repeat split; assumption.
Defined.

(** X6. [read_file] leaks no stream and closes none twice: on every path,
    whatever the file system and the allocator answer, it calls [fclose]
    once when [fopen] gave a stream and not at all when it gave none. *)
Theorem read_file_closes_stream (path : string) (rs : read_script) (w : World) :
  closes (trace (snd (read_file path rs w)))
  = (opened (rs_fopen rs) + closes (trace w))%nat.
Proof.
  unfold read_file, bind. cbn [sys]. trace_cases;
    cbn [trace];
    repeat match goal with H : trace _ = _ |- _ => rewrite H; clear H end;
    reflexivity.
Qed.

(** X7. [write_file] leaks no stream and closes none twice: on every path
    it calls [fclose] once when [fopen] gave a stream and not at all when
    it gave none. *)
Theorem write_file_closes_stream (path src : string) (src_size : Z)
    (ws : write_script) (w : World) :
  closes (trace (snd (write_file path src src_size ws w)))
  = (opened (ws_fopen ws) + closes (trace w))%nat.
Proof.
  unfold write_file, bind. cbn [sys]. trace_cases;
    cbn [trace];
    repeat match goal with H : trace _ = _ |- _ => rewrite H; clear H end;
    reflexivity.
Qed.

(** ** The calls of a removal *)

Lemma yields_ret {A} (a : A) (Q : A -> list syscall -> Prop) :
  Q a [] -> yields (ret a) Q.
Proof. intros H w Hw. exists []. cbn [ret fst snd app]. auto. Qed.

Lemma yields_bind {A B} (m : M A) (k : A -> M B)
    (P : A -> list syscall -> Prop) (Q : B -> list syscall -> Prop) :
  yields m P ->
  (forall a c1, P a c1 -> yields (k a) (fun b c2 => Q b (c2 ++ c1)%list)) ->
  yields (bind m k) Q.
Proof.
  intros Hm Hk w Hw. unfold bind.
  destruct (Hm w Hw) as (c1 & Ht & Pa & Hw'). destruct (m w) as [a w'].
  cbn [fst snd] in *.
  destruct (Hk a c1 Pa w' Hw') as (c2 & Ht2 & Qb & Hw2).
  exists (c2 ++ c1)%list. rewrite Ht2, Ht, app_assoc. auto.
Qed.

Lemma yields_weaken {A} (m : M A) (P Q : A -> list syscall -> Prop) :
  yields m P -> (forall a c, P a c -> Q a c) -> yields m Q.
Proof.
  intros Hm H w Hw. destruct (Hm w Hw) as (c & Ht & Pa & Hw').
  exists c. auto.
Qed.

Lemma yields_sys (c : syscall) : yields (sys c) (fun _ calls => calls = [c]).
Proof. intros w Hw. exists [c]. cbn [sys fst snd trace heap app]. auto. Qed.

Lemma yields_sprintf_alloc (text : string) :
  text <> EmptyString ->
  yields (sprintf_alloc text) (fun p calls => p = Some text /\ calls = []).
Proof.
  intros Hne w Hw. exists [].
  destruct (safe_sprintf_alloc text Hne w Hw) as [H1 H2].
  cbn [app]. split; [apply sprintf_alloc_trace | auto].
Qed.

(** A computation proved [safe] that makes no call of its own. *)
Lemma yields_safe {A} (m : M A) (P : A -> Prop) (C : list syscall -> Prop) :
  safe m P -> yields m (fun _ calls => C calls) ->
  yields m (fun a calls => P a /\ C calls).
Proof.
  intros Hs Hy w Hw. destruct (Hy w Hw) as (c & Ht & Hc & Hw').
  destruct (Hs w Hw) as [Pa _]. exists c. auto.
Qed.

Ltac yields_step :=
  lazymatch goal with
  | |- yields (bind (sys _) _) _ =>
      let u := fresh "u" in
      let c := fresh "c" in
      let Hc := fresh "Hc" in
      eapply yields_bind;
      [apply yields_sys | intros u c Hc; cbv beta in Hc; subst c; clear u]
  | |- yields (bind (sprintf_alloc _) _) _ =>
      let a := fresh "a" in
      let c := fresh "c" in
      let Ha := fresh "Ha" in
      let Hc := fresh "Hc" in
      eapply yields_bind;
      [apply yields_sprintf_alloc; nonempty
      | intros a c [Ha Hc]; subst a c; cbv beta iota]
  | |- yields (ret _) _ => apply yields_ret
  end.

(** Two ways of writing the same list of calls. *)
Ltac calls_eq :=
  cbn [rev app]; repeat rewrite rev_app_distr; cbn [rev app];
  repeat rewrite <- app_assoc; cbn [rev app]; reflexivity.

Lemma each_entry_calls
    (remove_sub : string -> dirtree -> M (Z * option string))
    (sub_calls : string -> dirtree -> list syscall)
    (dirname : string) (es : list (string * dirnode)) :
  (forall d name sub, In (d, IsDir sub) es ->
     yields (remove_sub name sub) (fun _ calls => calls = rev (sub_calls name sub))) ->
  forall error,
    yields (each_entry remove_sub dirname es error)
           (fun _ calls => calls = rev (calls_of_entries sub_calls dirname es)).
Proof.
  induction es as [|[d_name node] es IH]; intros Hsub error;
    cbn [each_entry calls_of_entries]; yields_step.
  - yields_step. reflexivity.
  - assert (IH' := IH (fun d name sub H => Hsub d name sub (or_intror H))).
    assert (Hrest : forall (Q : option string -> list syscall -> Prop) error,
      (forall e, Q e (rev (calls_of_entries sub_calls dirname es))) ->
      yields (each_entry remove_sub dirname es error) Q).
    { intros Q e HQ. eapply yields_weaken; [apply IH'|]. intros a c ->. apply HQ. }
    destruct (streq d_name "." || streq d_name "..");
      [apply Hrest; intros; calls_eq|].
    yields_step.
    destruct node as [[|reason]|sub].
    + yields_step. destruct error; apply Hrest; intros; calls_eq.
    + yields_step. destruct error as [e|]; [apply Hrest; intros; calls_eq|].
      yields_step. apply Hrest; intros; calls_eq.
    + eapply yields_bind; [apply (Hsub d_name _ sub); now left|].
      intros [rc sub_error] c1 ->. cbv beta iota.
      destruct (negb (rc =? 0) && is_null error); apply Hrest; intros; calls_eq.
Qed.

(** With a reliable allocator the removal makes the calls of
    [removal_calls], whatever they answer. *)
Lemma remove_directory_calls (dirname : string) (t : dirtree) :
  yields (remove_directory_recursively dirname t)
         (fun _ calls => calls = rev (removal_calls dirname t)).
Proof.
  remember (dirtree_size t) as n eqn:Hn.
  revert dirname t Hn. induction n as [n IH] using lt_wf_ind.
  intros dirname [o es c r] Hn.
  assert (Hes : forall error,
    yields (each_entry remove_directory_recursively dirname es error)
           (fun _ calls => calls = rev (calls_of_entries removal_calls dirname es))).
  { apply each_entry_calls. intros d name sub Hin.
    apply (IH (dirtree_size sub)); [|reflexivity].
    rewrite Hn. eapply dirtree_size_entry, Hin. }
  cbn [remove_directory_recursively removal_calls]. yields_step.
  eapply yields_bind with
    (P := fun _ calls =>
            calls = rev match o with
                        | Fails _ => []
                        | Done => calls_of_entries removal_calls dirname es
                                  ++ [Closedir dirname]
                        end%list).
  - destruct o as [|reason].
    + eapply yields_bind; [apply Hes|]. intros error c1 ->. yields_step.
      destruct c as [|reason]; [yields_step; calls_eq|].
      destruct error as [e|]; [yields_step; calls_eq|].
      eapply yields_weaken; [apply yields_sprintf_alloc; nonempty|].
      intros a c0 [_ ->]. calls_eq.
    + eapply yields_weaken; [apply yields_sprintf_alloc; nonempty|].
      intros a c0 [_ ->]. reflexivity.
  - intros error c1 ->. yields_step.
    destruct r as [|reason].
    + yields_step. calls_eq.
    + destruct error as [e0|].
      * intros w Hw. unfold bind, ret. cbn [fst snd]. exists [].
        split; [reflexivity|]. split; [|assumption]. calls_eq.
      * yields_step. yields_step. calls_eq.
Qed.

Lemma prefix_shorter (a b p : string) :
  prefix (a ++ b) p = true -> prefix a p = true.
Proof.
  revert p. induction a as [|x a IH]; intros p H; [apply prefix_nil|].
  destruct p as [|y p]; cbn [append prefix] in *; [discriminate|].
  destruct (ascii_dec x y); [auto | discriminate].
Qed.

Lemma beneath_itself (dirname : string) : beneath dirname dirname = true.
Proof. unfold beneath. now rewrite String.eqb_refl. Qed.

Lemma beneath_entry (dirname d_name path : string) :
  beneath (dirname ++ "/" ++ d_name) path = true -> beneath dirname path = true.
Proof.
  unfold beneath. intros H. apply orb_true_iff in H. apply orb_true_iff. right.
  destruct H as [H|H].
  - apply String.eqb_eq in H. subst path.
    rewrite <- append_assoc. apply prefix_append.
  - replace ((dirname ++ "/" ++ d_name) ++ "/")
      with ((dirname ++ "/") ++ d_name ++ "/") in H
      by (repeat rewrite append_assoc; reflexivity).
    eapply prefix_shorter, H.
Qed.

Lemma removes_in_entry (dirname d_name : string) (c : syscall) :
  removes_in (dirname ++ "/" ++ d_name) c -> removes_in dirname c.
Proof. destruct c; cbn [removes_in]; try exact id; apply beneath_entry. Qed.

Lemma removal_calls_inside (dirname : string) (t : dirtree) :
  Forall (removes_in dirname) (removal_calls dirname t).
Proof.
  remember (dirtree_size t) as n eqn:Hn.
  revert dirname t Hn. induction n as [n IH] using lt_wf_ind.
  intros dirname [o es c r] Hn.
  assert (Hes : Forall (removes_in dirname) (calls_of_entries removal_calls dirname es)).
  { assert (Hsub : forall d sub, In (d, IsDir sub) es ->
                     forall name, Forall (removes_in name) (removal_calls name sub)).
    { intros d sub Hin name. apply (IH (dirtree_size sub)); [|reflexivity].
      rewrite Hn. eapply dirtree_size_entry, Hin. }
    clear Hn IH. induction es as [|[d_name node] es IHes];
      cbn [calls_of_entries]; constructor; try apply beneath_itself.
    - constructor.
    - assert (IH' := IHes (fun d sub H => Hsub d sub (or_intror H))).
      destruct (streq d_name "." || streq d_name ".."); [exact IH'|].
      destruct node as [u|sub].
      + constructor; [|exact IH']. cbn [removes_in]. unfold beneath.
        rewrite <- append_assoc, prefix_append. apply orb_true_r.
      + apply Forall_app. split; [|exact IH'].
        eapply Forall_impl; [|apply (Hsub d_name sub); now left].
        intros a. apply removes_in_entry. }
  cbn [removal_calls]. constructor; [apply beneath_itself|].
  apply Forall_app. split.
  - destruct o; [|constructor]. apply Forall_app. split; [exact Hes|].
    constructor; [apply beneath_itself | constructor].
  - constructor; [apply beneath_itself | constructor].
Qed.

(** X8. With a reliable allocator, [remove_directory_recursively] only
    lists and removes: every system call it makes is [opendir], [readdir],
    [closedir], [unlink] or [rmdir], and is made on [dirname] itself or on
    a path that extends [dirname/]. *)
Theorem removal_stays_inside (dirname : string) (t : dirtree) (w : World) :
  reliable w ->
  exists calls,
    trace (snd (remove_directory_recursively dirname t w)) = (calls ++ trace w)%list /\
    Forall (removes_in dirname) calls.
Proof.
  intros Hw. destruct (remove_directory_calls dirname t w Hw) as (calls & Ht & -> & _).
  eexists. split; [exact Ht|]. apply Forall_rev, removal_calls_inside.
Qed.

Lemma removal_stays_inside_witness :
  exists calls,
    trace (snd (remove_directory_recursively "/tmp/ws" stuck_tree fresh_world))
    = (calls ++ trace fresh_world)%list /\
    Forall (removes_in "/tmp/ws") calls.
Proof. apply (removal_stays_inside "/tmp/ws" stuck_tree fresh_world). constructor. Defined.

Lemma removal_calls_forgiving (dirname : string) (t : dirtree) :
  removal_calls dirname (forgiving t) = removal_calls dirname t.
Proof.
  remember (dirtree_size t) as n eqn:Hn.
  revert dirname t Hn. induction n as [n IH] using lt_wf_ind.
  intros dirname [o es c r] Hn.
  cbn [forgiving removal_calls]. f_equal. f_equal. destruct o; [|reflexivity].
  f_equal.
  assert (Hsub : forall d sub, In (d, IsDir sub) es ->
                   forall name, removal_calls name (forgiving sub) = removal_calls name sub).
  { intros d sub Hin name. apply (IH (dirtree_size sub)); [|reflexivity].
    rewrite Hn. eapply dirtree_size_entry, Hin. }
  clear Hn IH. induction es as [|[d_name node] es IHes];
    cbn [map calls_of_entries fst snd]; [reflexivity|].
  assert (IH' := IHes (fun d sub H => Hsub d sub (or_intror H))).
  f_equal. destruct (streq d_name "." || streq d_name ".."); [exact IH'|].
  destruct node as [u|sub].
  - f_equal. exact IH'.
  - rewrite IH'. f_equal. apply (Hsub d_name sub). now left.
Qed.

(** X9. The removal goes on after every error: with a reliable allocator
    it makes the same system calls, in the same order, as it would if no
    [unlink], [closedir] or [rmdir] had failed. *)
Theorem removal_continues_on_errors (dirname : string) (t : dirtree) (w : World) :
  reliable w ->
  trace (snd (remove_directory_recursively dirname t w))
  = trace (snd (remove_directory_recursively dirname (forgiving t) w)).
Proof.
  intros Hw.
  destruct (remove_directory_calls dirname t w Hw) as (c1 & -> & -> & _).
  destruct (remove_directory_calls dirname (forgiving t) w Hw) as (c2 & -> & -> & _).
  now rewrite removal_calls_forgiving.
Qed.

Lemma removal_continues_on_errors_witness :
  trace (snd (remove_directory_recursively "/tmp/ws" stuck_tree fresh_world))
  = trace (snd (remove_directory_recursively "/tmp/ws" (forgiving stuck_tree) fresh_world)).
Proof.
  apply (removal_continues_on_errors "/tmp/ws" stuck_tree fresh_world). constructor.
Defined.

Lemma removal_calls_last (dirname : string) (t : dirtree) :
  exists l, removal_calls dirname t = (l ++ [Rmdir dirname])%list.
Proof.
  destruct t as [o es c r]. cbn [removal_calls].
  eexists (Opendir dirname :: _). reflexivity.
Qed.

Lemma removal_calls_listed (dirname : string) (t : dirtree)
    (name : string) (node : dirnode) :
  In (name, node) (listed dirname t) ->
  In (removal_attempt name node) (removal_calls dirname t).
Proof.
  remember (dirtree_size t) as n eqn:Hn.
  revert dirname t Hn. induction n as [n IH] using lt_wf_ind.
  intros dirname [o es c r] Hn.
  assert (Hes : In (name, node) (listed_entries listed dirname es) ->
                In (removal_attempt name node)
                   (calls_of_entries removal_calls dirname es)).
  { assert (Hsub : forall d sub, In (d, IsDir sub) es ->
                     forall path, In (name, node) (listed path sub) ->
                                  In (removal_attempt name node) (removal_calls path sub)).
    { intros d sub Hd path. apply (IH (dirtree_size sub)); [|reflexivity].
      rewrite Hn. eapply dirtree_size_entry, Hd. }
    clear Hn IH. induction es as [|[d_name node'] es IHes];
      cbn [listed_entries calls_of_entries]; intros Hin; [contradiction|].
    assert (IH' := IHes (fun d sub H => Hsub d sub (or_intror H))).
    right. destruct (streq d_name "." || streq d_name ".."); [exact (IH' Hin)|].
    destruct Hin as [Heq|Hin].
    - apply pair_equal_spec in Heq. destruct Heq as [<- <-].
      destruct node' as [u|sub]; cbn [removal_attempt]; [now left|].
      apply in_or_app. left.
      destruct (removal_calls_last (dirname ++ "/" ++ d_name) sub) as [l ->].
      apply in_or_app. right. now left.
    - apply in_app_or in Hin. destruct node' as [u|sub].
      + right. destruct Hin as [[]|Hin]. exact (IH' Hin).
      + apply in_or_app. destruct Hin as [Hin|Hin]; [left | right; exact (IH' Hin)].
        apply (Hsub d_name sub); [now left | exact Hin]. }
  cbn [listed removal_calls]. destruct o as [|reason]; [|contradiction].
  intros Hin. right. apply in_or_app. left. apply in_or_app. left.
  apply Hes. exact Hin.
Qed.

(** X10. Nothing is skipped because of an earlier error: with a reliable
    allocator, every entry that [readdir] lists in [dirname] or below,
    other than [.] and [..], gets its removal call ([unlink] for a file,
    [rmdir] for a directory), and the last call of all is [rmdir] on
    [dirname] itself. *)
Theorem removal_tries_every_entry (dirname : string) (t : dirtree) (w : World) :
  reliable w ->
  (forall name node, In (name, node) (listed dirname t) ->
     In (removal_attempt name node)
        (trace (snd (remove_directory_recursively dirname t w)))) /\
  hd_error (trace (snd (remove_directory_recursively dirname t w)))
  = Some (Rmdir dirname).
Proof.
  intros Hw. destruct (remove_directory_calls dirname t w Hw) as (calls & -> & -> & _).
  split.
  - intros name node Hin. apply in_or_app. left. apply -> in_rev.
    now apply removal_calls_listed.
  - destruct (removal_calls_last dirname t) as [l ->].
    rewrite rev_app_distr. reflexivity.
Qed.

Lemma removal_tries_every_entry_witness :
  In (Unlink "/tmp/ws/texput.log")
     (trace (snd (remove_directory_recursively "/tmp/ws" stuck_tree fresh_world))).
Proof.
  apply (proj1 (removal_tries_every_entry "/tmp/ws" stuck_tree fresh_world
                  ltac:(constructor))
           "/tmp/ws/texput.log" (NotDir (Fails "Permission denied"))).
  vm_compute. tauto.
Defined.

(** ** The calls of a conversion *)

Lemma always_ret {A} (a : A) (Q : A -> list syscall -> Prop) :
  Q a [] -> always (ret a) Q.
Proof. intros H w. exists []. cbn [ret fst snd app]. auto. Qed.

Lemma always_bind {A B} (m : M A) (k : A -> M B)
    (P : A -> list syscall -> Prop) (Q : B -> list syscall -> Prop) :
  always m P ->
  (forall a c1, P a c1 -> always (k a) (fun b c2 => Q b (c2 ++ c1)%list)) ->
  always (bind m k) Q.
Proof.
  intros Hm Hk w. unfold bind.
  destruct (Hm w) as (c1 & Ht & Pa). destruct (m w) as [a w'].
  cbn [fst snd] in *.
  destruct (Hk a c1 Pa w') as (c2 & Ht2 & Qb).
  exists (c2 ++ c1)%list. rewrite Ht2, Ht, app_assoc. auto.
Qed.

Lemma always_bind_ret {A B} (a : A) (k : A -> M B) (Q : B -> list syscall -> Prop) :
  always (k a) Q -> always (bind (ret a) k) Q.
Proof. intros H w. exact (H w). Qed.

Lemma always_weaken {A} (m : M A) (P Q : A -> list syscall -> Prop) :
  always m P -> (forall a c, P a c -> Q a c) -> always m Q.
Proof. intros Hm H w. destruct (Hm w) as (c & Ht & Pa). exists c. auto. Qed.

Lemma always_both {A} (m : M A) (P Q : A -> list syscall -> Prop) :
  always m P -> always m Q -> always m (fun a c => P a c /\ Q a c).
Proof.
  intros HP HQ w. destruct (HP w) as (c & Ht & Pa). destruct (HQ w) as (c' & Ht' & Qa).
  exists c. rewrite Ht in Ht'. apply app_inv_tail in Ht'. subst c'. auto.
Qed.

(** What holds of the value for every allocator holds beside the calls. *)
Lemma always_value {A} (m : M A) (P : A -> Prop) (Q : A -> list syscall -> Prop) :
  (forall w, P (fst (m w))) -> always m Q -> always m (fun a c => P a /\ Q a c).
Proof. intros HP HQ w. destruct (HQ w) as (c & Ht & Qa). exists c. auto. Qed.

Lemma always_sys (c : syscall) : always (sys c) (fun _ calls => calls = [c]).
Proof. intros w. exists [c]. cbn [sys fst snd trace app]. auto. Qed.

Lemma always_malloc (n : Z) : always (malloc n) (fun _ calls => calls = []).
Proof. intros w. exists []. split; [apply malloc_outcome | reflexivity]. Qed.

Lemma always_sprintf_alloc (text : string) :
  always (sprintf_alloc text)
         (fun p calls => allocated_or_null p text /\ calls = []).
Proof.
  intros w. exists []. destruct (sprintf_alloc_either text w) as [H1 H2].
  cbn [app]. auto.
Qed.

Lemma always_sprintf_alloc_int (text : string) :
  always (sprintf_alloc_int text)
         (fun p calls => allocated_or_null p text /\ calls = []).
Proof.
  intros w. exists []. destruct (sprintf_alloc_int_either text w) as [H1 H2].
  cbn [app]. auto.
Qed.

(** What holds whatever the allocator does holds when it is reliable. *)
Lemma always_yields {A} (m : M A) (P : A -> Prop) (Q : A -> list syscall -> Prop) :
  safe m P -> always m Q -> yields m (fun a c => P a /\ Q a c).
Proof.
  intros Hs Ha w Hw. destruct (Ha w) as (c & Ht & Qa).
  destruct (Hs w Hw) as [Pa Hw']. exists c. auto.
Qed.

Ltac always_step :=
  lazymatch goal with
  | |- always (bind (sys _) _) _ =>
      let u := fresh "u" in
      let c := fresh "c" in
      let Hc := fresh "Hc" in
      eapply always_bind;
      [apply always_sys | intros u c Hc; cbv beta in Hc; subst c; clear u]
  | |- always (bind (sprintf_alloc _) _) _ =>
      let a := fresh "a" in
      let c := fresh "c" in
      let Ha := fresh "Ha" in
      let Hc := fresh "Hc" in
      eapply always_bind;
      [apply always_sprintf_alloc
      | intros a c [[Ha|Ha] Hc]; subst a c; cbv beta iota]
  | |- always (bind (sprintf_alloc_int _) _) _ =>
      let a := fresh "a" in
      let c := fresh "c" in
      let Ha := fresh "Ha" in
      let Hc := fresh "Hc" in
      eapply always_bind;
      [apply always_sprintf_alloc_int
      | intros a c [[Ha|Ha] Hc]; subst a c; cbv beta iota]
  | |- always (bind (malloc _) _) _ =>
      let a := fresh "a" in
      let c := fresh "c" in
      let Hc := fresh "Hc" in
      eapply always_bind;
      [apply always_malloc
      | intros a c Hc; cbv beta in Hc; subst c; destruct a; cbn [negb]]
  | |- always (bind (ret _) _) _ => apply always_bind_ret; cbv beta
  | |- always (ret _) _ => apply always_ret
  end.

Ltac always_all_cases :=
  repeat
    first
      [ progress (repeat always_step)
      | lazymatch goal with
        | |- always (bind (if ?b then _ else _) _) _ => destruct b
        | |- always (match ?x with Done => _ | Fails _ => _ end) _ => destruct x
        | |- always (if ?b then _ else _) _ => destruct b
        end ].

Lemma read_file_calls (path : string) (rs : read_script) :
  always (read_file path rs) (fun _ calls => Forall (on_file path) calls).
Proof.
  unfold read_file. always_all_cases; cbn [app]; repeat constructor.
Qed.

Lemma write_file_calls (path src : string) (src_size : Z) (ws : write_script) :
  always (write_file path src src_size ws)
         (fun _ calls => Forall (on_file path) calls).
Proof.
  unfold write_file. always_all_cases; cbn [app]; repeat constructor.
Qed.

Lemma wait_for_child_calls (other : nat) (final : wait_res) :
  always (wait_for_child other final) (fun _ calls => Forall (eq Waitpid) calls).
Proof.
  induction other as [|n IH]; cbn [wait_for_child]; always_step.
  - always_step. repeat constructor.
  - eapply always_weaken; [apply IH|]. intros a c Hc.
    apply Forall_app. split; [exact Hc | repeat constructor].
Qed.

Lemma forks_app (a b : list syscall) : forks (a ++ b) = (forks a + forks b)%nat.
Proof.
  induction a as [|c a IH]; [reflexivity|].
  destruct c; cbn [app forks]; rewrite IH; reflexivity.
Qed.

Lemma forks_none (calls : list syscall) : Forall no_fork calls -> forks calls = O.
Proof.
  induction 1 as [|c l Hc _ IH]; [reflexivity|].
  destruct c; cbn [forks no_fork] in *; [exact IH ..| contradiction | | | | | |];
    exact IH.
Qed.

Lemma on_file_no_fork (path : string) (calls : list syscall) :
  Forall (on_file path) calls -> Forall no_fork calls.
Proof. apply Forall_impl. intros c. destruct c; cbn [on_file no_fork]; auto. Qed.

Lemma waitpid_no_fork (calls : list syscall) :
  Forall (eq Waitpid) calls -> Forall no_fork calls.
Proof. apply Forall_impl. intros c <-. exact I. Qed.

(** What [read_file] hands over, whatever the allocator does. *)
Lemma read_file_bytes (path : string) (rs : read_script) (w : World) :
  bytes_of_file rs (fst (fst (fst (read_file path rs w))))
                (snd (fst (fst (read_file path rs w)))).
Proof.
  pose proof (read_file_outcome path rs w) as H.
  pose proof (read_file_size path rs w) as Hsz.
  unfold read_contract in H.
  destruct (first_failure rs (next_alloc w)) as [ph|].
  - destruct H as (error & -> & _). reflexivity.
  - rewrite H in *. cbn [fst snd buffer_bytes bytes_of_file] in *. auto.
Qed.

(** A list of calls put together from lists without [fork]. *)
Ltac no_fork_calls :=
  cbv beta;
  repeat first [ assumption | exact I | apply Forall_nil | apply Forall_cons
               | apply Forall_app; split ].

Lemma each_entry_no_fork
    (remove_sub : string -> dirtree -> M (Z * option string))
    (dirname : string) (es : list (string * dirnode)) :
  (forall d name sub, In (d, IsDir sub) es ->
     always (remove_sub name sub) (fun _ calls => Forall no_fork calls)) ->
  forall error,
    always (each_entry remove_sub dirname es error)
           (fun _ calls => Forall no_fork calls).
Proof.
  induction es as [|[d_name node] es IH]; intros Hsub error;
    cbn [each_entry]; always_step.
  - always_step. no_fork_calls.
  - assert (IH' := IH (fun d name sub H => Hsub d name sub (or_intror H))).
    assert (Hrest : forall (Q : option string -> list syscall -> Prop) error,
      (forall e c, Forall no_fork c -> Q e c) ->
      always (each_entry remove_sub dirname es error) Q).
    { intros Q e HQ. eapply always_weaken; [apply IH'|]. intros a c. apply HQ. }
    destruct (streq d_name "." || streq d_name "..");
      [apply Hrest; intros; no_fork_calls|].
    always_step.
    + destruct node as [[|reason]|sub].
      * always_step. destruct error; apply Hrest; intros; no_fork_calls.
      * always_step. destruct error as [e|]; [apply Hrest; intros; no_fork_calls|].
        always_step; apply Hrest; intros; no_fork_calls.
      * eapply always_bind; [apply (Hsub d_name _ sub); now left|].
        intros [rc sub_error] c1 Hc1. cbv beta iota.
        destruct (negb (rc =? 0) && is_null error); apply Hrest; intros;
          no_fork_calls.
    + destruct error as [e|]; [apply Hrest; intros; no_fork_calls|].
      always_step; apply Hrest; intros; no_fork_calls.
Qed.

(** The removal starts no process, whatever the allocator does. *)
Lemma remove_directory_no_fork (dirname : string) (t : dirtree) :
  always (remove_directory_recursively dirname t)
         (fun _ calls => Forall no_fork calls).
Proof.
  remember (dirtree_size t) as n eqn:Hn.
  revert dirname t Hn. induction n as [n IH] using lt_wf_ind.
  intros dirname [o es c r] Hn.
  assert (Hes : forall error,
    always (each_entry remove_directory_recursively dirname es error)
           (fun _ calls => Forall no_fork calls)).
  { apply each_entry_no_fork. intros d name sub Hin.
    apply (IH (dirtree_size sub)); [|reflexivity].
    rewrite Hn. eapply dirtree_size_entry, Hin. }
  cbn [remove_directory_recursively]. always_step.
  eapply always_bind with (P := fun _ calls => Forall no_fork calls).
  - destruct o as [|reason].
    + eapply always_bind; [apply Hes|]. intros error c1 Hc1. always_step.
      destruct c as [|reason]; [always_step; no_fork_calls|].
      destruct error as [e|]; [always_step; no_fork_calls|].
      eapply always_weaken; [apply always_sprintf_alloc|].
      intros a c0 [_ ->]. no_fork_calls.
    + eapply always_weaken; [apply always_sprintf_alloc|].
      intros a c0 [_ ->]. no_fork_calls.
  - intros error c1 Hc1. always_step.
    destruct r as [|reason].
    + always_step. no_fork_calls.
    + destruct error as [e0|]; repeat always_step; no_fork_calls.
Qed.

Lemma wait_for_child_always (other : nat) (final : wait_res) :
  always (wait_for_child other final)
         (fun st calls => st = final /\ Forall no_fork calls).
Proof.
  apply always_value; [apply wait_for_child_final|].
  eapply always_weaken; [apply wait_for_child_calls|].
  intros a c. apply waitpid_no_fork.
Qed.

Lemma read_file_always (path : string) (rs : read_script) :
  always (read_file path rs)
         (fun r calls => bytes_of_file rs (fst (fst r)) (snd (fst r))
                         /\ Forall no_fork calls).
Proof.
  apply always_value; [apply read_file_bytes|].
  eapply always_weaken; [apply read_file_calls|].
  intros a c. apply on_file_no_fork.
Qed.

(** [write_file] returns [0] only when every step went well. *)
Lemma write_file_return (path src : string) (src_size : Z) (ws : write_script)
    (w : World) :
  fst (fst (write_file path src src_size ws w)) = 0 -> write_succeeds ws src_size.
Proof.
  unfold write_file, write_succeeds, bind. cbn [sys].
  destruct (ws_fopen ws) as [|r1].
  2:{ destruct (sprintf_alloc _ _). cbn [ret fst]. discriminate. }
  destruct (ws_ferror ws) as [|r2].
  2:{ destruct (sprintf_alloc _ _). cbn [sys ret fst]. discriminate. }
  destruct (ws_fwrite ws =? src_size) eqn:E; cbn [negb].
  2:{ destruct (sprintf_alloc _ _). cbn [sys ret fst]. discriminate. }
  apply Z.eqb_eq in E. cbn [sys].
  destruct (ws_fclose ws) as [|r3].
  2:{ destruct (sprintf_alloc _ _). cbn [ret fst]. discriminate. }
  auto.
Qed.

Lemma write_file_always (path src : string) (src_size : Z) (ws : write_script) :
  always (write_file path src src_size ws)
         (fun r calls => (fst r = 0 -> write_succeeds ws src_size)
                         /\ Forall no_fork calls).
Proof.
  apply always_value; [apply write_file_return|].
  eapply always_weaken; [apply write_file_calls|].
  intros a c. apply on_file_no_fork.
Qed.

Lemma remove_directory_always (dirname : string) (t : dirtree) :
  always (remove_directory_recursively dirname t)
         (fun r calls => (fst r = 0 -> final_rmdir t = Done)
                         /\ Forall no_fork calls).
Proof.
  apply always_value; [|apply remove_directory_no_fork].
  intros w H. pose proof (remove_directory_return dirname t w) as Hr.
  destruct (final_rmdir t); [reflexivity|]. rewrite Hr in H. discriminate.
Qed.

(** The forks of a list of calls put together from lists without any. *)
Ltac forks_count :=
  cbv beta; cbn [app]; repeat rewrite forks_app;
  repeat match goal with
         | H : Forall no_fork ?c |- context [forks ?c] => rewrite (forks_none c H)
         end;
  cbn [forks Nat.add]; try reflexivity; try lia.

(** The same, to bring a statement about the forks into shape. *)
Ltac forks_norm :=
  cbv beta; cbn [app]; repeat rewrite forks_app;
  repeat match goal with
         | H : Forall no_fork ?c |- context [forks ?c] => rewrite (forks_none c H)
         end;
  cbn [forks Nat.add]; repeat rewrite Nat.add_0_r.

Section Engine.

Variables (src_format dest_format : string) (src_size : Z).
Variables (cmd aux_filename dest_filename : string).
Variable s : script.

(** A pass of the loop forks once, and hands over the bytes of the
    destination file or none. *)
Lemma run_once_always (runs : Z) (aux : option string) (aux_size : Z) :
  always (run_once src_format dest_format src_size cmd aux_filename dest_filename s
                   runs aux aux_size)
         (fun e calls =>
            forks calls = 1%nat /\
            match e with
            | Goto_cleanup d dsz _ => bytes_of_file (s_dest s) d dsz
            | Next_run _ _ => True
            end).
Proof.
  unfold run_once. always_step.
  destruct (r_fork (s_run s runs)) as [|r1];
    [|repeat always_step; split; reflexivity].
  eapply always_bind; [apply wait_for_child_always|]. intros st c1 [-> Hc1].
  assert (Hstop : forall text,
    always (bind (sprintf_alloc text) (fun info => ret (Goto_cleanup None 0 info)))
           (fun e c2 =>
              forks ((c2 ++ c1) ++ [Fork])%list = 1%nat /\
              match e with
              | Goto_cleanup d dsz _ => bytes_of_file (s_dest s) d dsz
              | Next_run _ _ => True
              end)).
  { intros text. repeat always_step; (split; [forks_count | reflexivity]). }
  destruct (r_wait (s_run s runs)) as [r2|sig|status];
    [apply Hstop | apply Hstop |].
  destruct (status =? 0); cbn [negb]; [|apply Hstop].
  eapply always_bind; [apply read_file_always|].
  intros [[a n] err] c2 [_ Hc2]. cbv beta iota.
  destruct ((n =? aux_size) && memcmp_eq a aux n).
  2:{ always_step. split; [forks_count | exact I]. }
  eapply always_bind; [apply read_file_always|].
  intros [[d dsz] derr] c3 [Hb Hc3]. cbn [fst snd] in Hb. cbv beta iota.
  destruct d as [b|].
  - repeat always_step; (split; [forks_count | exact Hb]).
  - always_step. split; [forks_count | exact Hb].
Qed.

(** The loop forks at most once for each pass it is allowed, and at least
    once when it hands anything over. *)
Lemma run_loop_always (left : nat) (runs : Z) (aux : option string) (aux_size : Z) :
  always (run_loop src_format dest_format src_size cmd aux_filename dest_filename s
                   left runs aux aux_size)
         (fun r calls =>
            (forks calls <= left)%nat /\
            match r with
            | Some (d, dsz, _) =>
                forks calls <> O /\ bytes_of_file (s_dest s) d dsz
            | None => True
            end).
Proof.
  revert runs aux aux_size. induction left as [|left IH]; intros runs aux aux_size;
    cbn [run_loop]; [always_step; split; [apply Nat.le_refl | exact I]|].
  eapply always_bind; [apply run_once_always|]. intros [a n|d dsz i] c1 [Hc1 He].
  - eapply always_weaken; [apply IH|]. intros r c [Hc Hr].
    rewrite forks_app, Hc1. split; [lia|].
    destruct r as [[[d dsz] i]|]; [|exact I]. split; [lia | apply Hr].
  - always_step. cbn [app]. rewrite Hc1. split; [lia|]. split; [lia | exact He].
Qed.

End Engine.

Section Body_always.

Variables (src src_format dest_format : string) (max_runs : Z) (s : script).

(** What holds at [cleanup] whatever the allocator does. *)
Lemma convert_body_always :
  always (convert_body src src_format dest_format max_runs s)
         (fun l calls =>
            (forks calls <= Z.to_nat max_runs)%nat /\
            (forks calls <> O ->
               engine_ready src src_format dest_format max_runs s) /\
            bytes_of_file (s_dest s) (l_dest l) (l_dest_size l) /\
            (l_dest l <> None -> forks calls <> O /\ l_dir l <> None)).
Proof.
  assert (Hquiet : forall (i : option string) (dir log : option string)
                          (calls : list syscall),
             forks calls = O ->
             (forks calls <= Z.to_nat max_runs)%nat /\
             (forks calls <> O ->
                engine_ready src src_format dest_format max_runs s) /\
             bytes_of_file (s_dest s) (l_dest (mkLocals None 0 i dir log))
                           (l_dest_size (mkLocals None 0 i dir log)) /\
             (l_dest (mkLocals None 0 i dir log) <> None ->
                forks calls <> O /\ l_dir (mkLocals None 0 i dir log) <> None)).
  { intros i dir log calls ->. cbn [l_dest l_dest_size bytes_of_file].
    split; [lia|]. split; [intros H; now elim H|]. split; [reflexivity|].
    intros H; now elim H. }
  unfold convert_body. cbv zeta.
  destruct (select_cmd src_format dest_format) as [cmd|] eqn:Ecmd;
    [|repeat always_step; apply Hquiet; forks_count].
  destruct (max_runs <? 2) eqn:Emax;
    [repeat always_step; apply Hquiet; forks_count|].
  apply Z.ltb_ge in Emax.
  set (tmpdir := match s_TMPDIR s with
                 | Some t => if streq t EmptyString then "/tmp" else t
                 | None => "/tmp"
                 end).
  do 2 always_step; [|always_step; apply Hquiet; forks_count].
  always_step.
  destruct (s_mkdtemp s) as [suffix|tried reason] eqn:Emk;
    [|repeat always_step; apply Hquiet; forks_count].
  do 3 (always_step; [|always_step; apply Hquiet; forks_count]).
  eapply always_bind with
    (P := fun p calls => calls = [] /\
            (p = None \/
             p = Some ((tmpdir ++ "/texcaller-temp-" ++ suffix)
                       ++ (if streq dest_format "DVI"
                           then "/texput.dvi" else "/texput.pdf")))).
  { destruct (streq dest_format "DVI");
      (eapply always_weaken; [apply always_sprintf_alloc|]);
      intros a c [[->| ->] ->]; auto. }
  intros p c0 [-> [->| ->]]; [always_step; apply Hquiet; forks_count|].
  eapply always_bind; [apply write_file_always|].
  intros [rc error] cw [Hrc Hcw]. cbn [fst] in Hrc. cbv beta iota.
  destruct (rc =? 0) eqn:Erc; cbn [negb];
    [|always_step; apply Hquiet; forks_count].
  apply Z.eqb_eq in Erc.
  assert (Hready : engine_ready src src_format dest_format max_runs s).
  { split; [exists cmd; apply select_cmd_supported, Ecmd|]. split; [exact Emax|].
    split; [exists suffix; exact Emk | exact (Hrc Erc)]. }
  eapply always_bind; [apply run_loop_always|].
  intros [[[d dsz] i]|] cl [Hcl He].
  - always_step. cbn [l_dest l_dest_size l_dir]. destruct He as [Hne Hb].
    forks_norm.
    split; [exact Hcl|]. split; [auto|]. split; [exact Hb|].
    intros _. split; [exact Hne | discriminate].
  - repeat always_step; cbn [l_dest l_dest_size l_dir bytes_of_file]; cbv beta;
      (split; [forks_count|]); (split; [auto|]); (split; [reflexivity|]);
      intros H; now elim H.
Qed.

End Body_always.

Lemma append_log_no_fork (s : script) (l : locals) :
  always (append_log s l) (fun _ calls => Forall no_fork calls).
Proof.
  unfold append_log. destruct (l_log_filename l) as [log_filename|];
    [|always_step; constructor].
  eapply always_bind; [apply read_file_always|].
  intros [[log log_size] error] c1 [_ Hc1]. cbv beta iota.
  destruct log as [log|]; [|always_step; exact Hc1].
  destruct (l_info l) as [info_old|]; [|always_step; exact Hc1].
  eapply always_weaken; [apply always_sprintf_alloc_int|].
  intros a c [_ ->]. exact Hc1.
Qed.

(** The code at [cleanup] starts no process; it hands over what the code
    before it left, or nothing at all; and it hands over nothing when there
    is a workspace that cannot be removed. *)
Lemma cleanup_always (s : script) (l : locals) :
  always (cleanup s l)
         (fun r calls =>
            Forall no_fork calls /\
            ((dest r = None /\ dest_size r = 0) \/
             (dest r = l_dest l /\ dest_size r = l_dest_size l /\
              (l_dir l <> None -> final_rmdir (s_tree s) = Done)))).
Proof.
  unfold cleanup. eapply always_bind; [apply append_log_no_fork|].
  intros i c1 Hc1. unfold remove_workspace.
  destruct (l_dir l) as [dir|].
  - eapply always_bind; [apply remove_directory_always|].
    intros [rc error] c2 [Hrc Hc2]. cbn [fst] in Hrc. cbv beta iota.
    destruct (rc =? 0) eqn:E; cbn [negb]; always_step; cbn [dest dest_size];
      (split; [no_fork_calls|]); [right | left; auto].
    apply Z.eqb_eq in E. auto.
  - always_step. cbn [dest dest_size]. split; [no_fork_calls|]. right.
    repeat split. intros H. now elim H.
Qed.

(** What holds of a conversion whatever the allocator does. *)
Lemma convert_always (src src_format dest_format : string) (max_runs : Z)
    (s : script) :
  always (texcaller_convert src src_format dest_format max_runs s)
         (fun r calls =>
            (forks calls <= Z.to_nat max_runs)%nat /\
            (forks calls <> O ->
               engine_ready src src_format dest_format max_runs s) /\
            bytes_of_file (s_dest s) (dest r) (dest_size r) /\
            (dest r <> None ->
               forks calls <> O /\
               engine_ready src src_format dest_format max_runs s /\
               final_rmdir (s_tree s) = Done)).
Proof.
  unfold texcaller_convert.
  eapply always_bind; [apply convert_body_always|].
  intros l c1 (Hle & Hready & Hb & Hd).
  eapply always_weaken; [apply cleanup_always|].
  intros r c2 [Hc2 Hr]. forks_norm.
  split; [exact Hle|]. split; [exact Hready|].
  destruct Hr as [[-> ->]|(-> & -> & Hrm)].
  - split; [reflexivity|]. intros H. now elim H.
  - split; [exact Hb|]. intros H. destruct (Hd H) as [Hf Hdir]. auto.
Qed.

Lemma forks_of_calls {A} (m : M A) (w : World) (calls : list syscall) :
  trace (snd (m w)) = (calls ++ trace w)%list ->
  forks (trace (snd (m w))) = (forks calls + forks (trace w))%nat.
Proof. intros ->. apply forks_app. Qed.

(** X11. Whatever the system and the allocator answer, a call of
    [texcaller_convert] forks at most [max_runs] times. *)
Theorem engine_runs_bounded (src src_format dest_format : string) (max_runs : Z)
    (s : script) (w : World) :
  (forks (trace (snd (texcaller_convert src src_format dest_format max_runs s w)))
   <= forks (trace w) + Z.to_nat max_runs)%nat.
Proof.
  destruct (convert_always src src_format dest_format max_runs s w)
    as (calls & Ht & Hle & _).
  rewrite (forks_of_calls _ _ _ Ht). lia.
Qed.

(** X12. [texcaller_convert] starts the engine only on a source file that
    is written in full: if it forks at all, then the formats are supported,
    [max_runs] is at least 2, the workspace was created, and [texput.tex]
    was opened, written with all [src_size] bytes and closed without
    error.  This holds whatever the allocator does. *)
Theorem engine_needs_written_source (src src_format dest_format : string)
    (max_runs : Z) (s : script) (w : World) :
  forks (trace (snd (texcaller_convert src src_format dest_format max_runs s w)))
  <> forks (trace w) ->
  engine_ready src src_format dest_format max_runs s.
Proof.
  destruct (convert_always src src_format dest_format max_runs s w)
    as (calls & Ht & _ & Hready & _).
  rewrite (forks_of_calls _ _ _ Ht). intros H. apply Hready. lia.
Qed.

Lemma engine_needs_written_source_witness :
  engine_ready "\end" "TeX" "PDF" 5 steady_script.
Proof.
  apply (engine_needs_written_source "\end" "TeX" "PDF" 5 steady_script fresh_world).
  vm_compute. discriminate.
Defined.

(** X13. What [texcaller_convert] hands back as the document is the
    destination file, and it hands it back only after a run and from a
    workspace that went well: when [*dest] is set, it holds the bytes read
    from the destination file, [*dest_size] is their number, the calling
    process has forked during the call, on a source file written in full
    (supported formats, [max_runs >= 2], workspace created), and the final
    [rmdir] of the workspace succeeded; when [*dest] is [NULL],
    [*dest_size] is [0].  This holds whatever the allocator does. *)
Theorem document_is_destination_file (src src_format dest_format : string)
    (max_runs : Z) (s : script) (w : World) :
  let r := fst (texcaller_convert src src_format dest_format max_runs s w) in
  let w' := snd (texcaller_convert src src_format dest_format max_runs s w) in
  (dest r = None -> dest_size r = 0) /\
  (forall bytes, dest r = Some bytes ->
     bytes = delivered (s_dest s) /\ dest_size r = strlen bytes /\
     (forks (trace w) < forks (trace w'))%nat /\
     engine_ready src src_format dest_format max_runs s /\
     final_rmdir (s_tree s) = Done).
Proof.
  intros r w'. subst r w'.
  destruct (convert_always src src_format dest_format max_runs s w)
    as (calls & Ht & _ & _ & Hb & Hd).
  rewrite (forks_of_calls _ _ _ Ht).
  destruct (dest (fst (texcaller_convert src src_format dest_format max_runs s w)))
    as [b|]; cbn [bytes_of_file] in Hb.
  - split; [discriminate|]. intros bytes Hbytes. apply Some_eq in Hbytes. subst b.
    destruct Hb as [Hb1 Hb2]. destruct Hd as (Hf & Hr & Hrm); [discriminate|].
    split; [exact Hb1|]. split; [exact Hb2|]. split; [lia|].
    split; [exact Hr | exact Hrm].
  - split; [auto | discriminate].
Qed.

Lemma document_is_destination_file_witness :
  "%PDF-1.5" = delivered (s_dest steady_script) /\
  dest_size (fst (texcaller_convert "\end" "TeX" "PDF" 5 steady_script fresh_world))
  = strlen "%PDF-1.5" /\
  (forks (trace fresh_world)
   < forks (trace (snd (texcaller_convert "\end" "TeX" "PDF" 5 steady_script
                                          fresh_world))))%nat /\
  engine_ready "\end" "TeX" "PDF" 5 steady_script /\
  final_rmdir (s_tree steady_script) = Done.
Proof.
  apply (proj2 (document_is_destination_file "\end" "TeX" "PDF" 5 steady_script
                  fresh_world)).
  vm_compute. reflexivity.
Defined.

(** ** Converting: the pass at which the loop ends *)

Section Loop_ends.

Variables (src_format dest_format : string) (src_size : Z).
Variables (cmd aux_filename dest_filename : string).
Variable s : script.

(** A run that completes and changes the auxiliary file is followed by
    another. *)
Lemma run_once_restless (runs : Z) (aux : option string) (aux_size : Z) :
  1 <= runs ->
  run_completes s runs ->
  aux_bytes s runs <> aux_bytes s (runs - 1) ->
  buffer_bytes aux = aux_bytes s (runs - 1) ->
  aux_size = strlen (buffer_bytes aux) ->
  safe (run_once src_format dest_format src_size cmd aux_filename dest_filename s
                 runs aux aux_size)
       (fun e => exists a n, e = Next_run a n /\ buffer_bytes a = aux_bytes s runs
                             /\ n = strlen (buffer_bytes a)).
Proof.
  intros Hruns [Hfork Hwait] Hne Haux Hsize.
  assert (Hnow : aux_bytes s runs
                 = buffer_bytes (fst (read_bytes (r_aux (s_run s runs))))).
  { unfold aux_bytes. destruct (runs <=? 0) eqn:E; [|reflexivity].
    apply Z.leb_le in E. lia. }
  unfold run_once. rewrite Hfork. safe_step.
  eapply safe_bind; [apply wait_for_child_safe|]. intros st ->.
  rewrite Hwait. cbn [Z.eqb negb].
  eapply safe_bind; [apply read_file_safe|].
  intros [[a n] err] (Hb & Hn & _). cbn [fst snd] in Hb, Hn.
  assert (Ha : buffer_bytes a = aux_bytes s runs).
  { rewrite Hnow, <- Hb. reflexivity. }
  assert (Ht : (n =? aux_size) && memcmp_eq a aux n = false).
  { apply not_true_is_false. intros Ht.
    apply (aux_test_bytes a aux n aux_size Hn Hsize) in Ht.
    apply Hne. rewrite <- Ha, <- Haux. exact Ht. }
  rewrite Ht. apply safe_ret. exists a, n. auto.
Qed.

(** A run that completes and leaves the auxiliary file as it was ends the
    loop with the destination file. *)
Lemma run_once_settles (runs : Z) (aux : option string) (aux_size : Z)
    (bytes : string) :
  1 <= runs ->
  run_completes s runs ->
  aux_bytes s runs = aux_bytes s (runs - 1) ->
  fst (read_bytes (s_dest s)) = Some bytes ->
  buffer_bytes aux = aux_bytes s (runs - 1) ->
  aux_size = strlen (buffer_bytes aux) ->
  safe (run_once src_format dest_format src_size cmd aux_filename dest_filename s
                 runs aux aux_size)
       (fun e => exists d dsz i,
          e = Goto_cleanup d dsz i /\
          (d, dsz, i) = (Some bytes, strlen bytes,
                         Some (success_text dest_format (strlen bytes)
                                            src_format src_size runs))).
Proof.
  intros Hruns [Hfork Hwait] Heq Hdest Haux Hsize.
  assert (Hnow : aux_bytes s runs
                 = buffer_bytes (fst (read_bytes (r_aux (s_run s runs))))).
  { unfold aux_bytes. destruct (runs <=? 0) eqn:E; [|reflexivity].
    apply Z.leb_le in E. lia. }
  unfold run_once. rewrite Hfork. safe_step.
  eapply safe_bind; [apply wait_for_child_safe|]. intros st ->.
  rewrite Hwait. cbn [Z.eqb negb].
  eapply safe_bind; [apply read_file_safe|].
  intros [[a n] err] (Hb & Hn & _). cbn [fst snd] in Hb, Hn.
  assert (Ht : (n =? aux_size) && memcmp_eq a aux n = true).
  { apply (aux_test_bytes a aux n aux_size Hn Hsize).
    rewrite Haux, <- Heq, Hnow, <- Hb. reflexivity. }
  rewrite Ht.
  eapply safe_bind; [apply read_file_safe|].
  intros [[d dsz] derr] (Hd & Hz & _). cbn [fst snd] in Hd, Hz.
  rewrite <- Hd in Hdest. cbn [fst] in Hdest. subst d.
  cbn [buffer_bytes] in Hz. subst dsz. safe_cases.
  do 3 eexists. split; reflexivity.
Qed.

(** A run that does not complete ends the loop with its diagnostic. *)
Lemma run_once_fails (runs : Z) (aux : option string) (aux_size : Z)
    (cause : string) :
  engine_failure cmd (s_run s runs) = Some cause ->
  safe (run_once src_format dest_format src_size cmd aux_filename dest_filename s
                 runs aux aux_size)
       (fun e => exists d dsz i,
          e = Goto_cleanup d dsz i /\ (d, dsz, i) = (None, 0, Some cause)).
Proof.
  unfold engine_failure, run_once. intros H. safe_step.
  destruct (r_fork (s_run s runs)) as [|r1].
  2:{ apply Some_eq in H. subst cause. safe_cases. do 3 eexists. split; reflexivity. }
  eapply safe_bind; [apply wait_for_child_safe|]. intros st ->.
  destruct (r_wait (s_run s runs)) as [r2|sig|st].
  - apply Some_eq in H. subst cause. safe_cases. do 3 eexists. split; reflexivity.
  - apply Some_eq in H. subst cause. safe_cases. do 3 eexists. split; reflexivity.
  - destruct (negb (st =? 0)); [|discriminate H].
    apply Some_eq in H. subst cause. safe_cases. do 3 eexists. split; reflexivity.
Qed.

(** While the runs complete and change the auxiliary file the loop goes
    on; it ends at the first pass that ends it, after one fork for each
    pass. *)
Lemma run_loop_reaches (Q : option string * Z * option string -> Prop) (k : Z)
    (left : nat) (runs : Z) (aux : option string) (aux_size : Z) :
  1 <= runs <= k -> k < runs + Z.of_nat left ->
  (forall j, runs <= j < k ->
             run_completes s j /\ aux_bytes s j <> aux_bytes s (j - 1)) ->
  buffer_bytes aux = aux_bytes s (runs - 1) ->
  aux_size = strlen (buffer_bytes aux) ->
  (forall a n, buffer_bytes a = aux_bytes s (k - 1) ->
               n = strlen (buffer_bytes a) ->
     safe (run_once src_format dest_format src_size cmd aux_filename dest_filename s
                    k a n)
          (fun e => exists d dsz i, e = Goto_cleanup d dsz i /\ Q (d, dsz, i))) ->
  yields (run_loop src_format dest_format src_size cmd aux_filename dest_filename s
                   left runs aux aux_size)
         (fun r calls => (exists x, r = Some x /\ Q x) /\
                         forks calls = Z.to_nat (k - runs + 1)).
Proof.
  intros Hruns Hk Hall Haux Hsize Hlast.
  revert runs aux aux_size Hruns Hk Hall Haux Hsize.
  induction left as [|left IH]; intros runs aux aux_size Hruns Hk Hall Haux Hsize;
    [lia|].
  cbn [run_loop]. destruct (Z.eq_dec runs k) as [->|Hlt].
  - eapply yields_bind.
    + apply always_yields; [apply (Hlast aux aux_size Haux Hsize)|].
      apply run_once_always.
    + intros e c1 [(d & dsz & i & -> & HQ) [Hf _]]. yields_step.
      split; [eexists; split; [reflexivity | exact HQ]|].
      cbn [app]. rewrite Hf. replace (k - k + 1) with 1 by lia. reflexivity.
  - destruct (Hall runs ltac:(lia)) as [Hc Hne].
    eapply yields_bind.
    + apply always_yields;
        [apply (run_once_restless runs aux aux_size); try assumption; lia|].
      apply run_once_always.
    + intros e c1 [(a & n & -> & Ha & Hn) [Hf _]].
      eapply yields_weaken.
      * apply (IH (runs + 1) a n); try assumption; try lia.
        -- intros j Hj. apply Hall. lia.
        -- replace (runs + 1 - 1) with runs by lia. exact Ha.
      * intros r c [Hr Hc2]. split; [exact Hr|].
        rewrite forks_app, Hf, Hc2. lia.
Qed.

End Loop_ends.

(** ** Converting: what the loop compares *)

(** A run that completes and leaves the auxiliary file as it was ends the
    loop with what the reading of the destination file gives. *)
Lemma run_once_converged (src_format dest_format : string) (src_size : Z)
    (cmd aux_filename dest_filename : string) (s : script)
    (runs : Z) (aux : option string) (aux_size : Z) :
  1 <= runs ->
  run_completes s runs ->
  aux_bytes s runs = aux_bytes s (runs - 1) ->
  buffer_bytes aux = aux_bytes s (runs - 1) ->
  aux_size = strlen (buffer_bytes aux) ->
  safe (run_once src_format dest_format src_size cmd aux_filename dest_filename s
                 runs aux aux_size)
       (fun e => exists d dsz i,
          e = Goto_cleanup d dsz i /\
          match fst (read_bytes (s_dest s)) with
          | Some bytes =>
              (d, dsz, i)
              = (Some bytes, strlen bytes,
                 Some (success_text dest_format (strlen bytes)
                                    src_format src_size runs))
          | None =>
              exists m, (d, dsz, i) = (None, 0, Some m)
                        /\ prefix "Unable to " m = true
          end).
Proof.
  intros Hruns [Hfork Hwait] Heq Haux Hsize.
  assert (Hnow : aux_bytes s runs
                 = buffer_bytes (fst (read_bytes (r_aux (s_run s runs))))).
  { unfold aux_bytes. destruct (runs <=? 0) eqn:E; [|reflexivity].
    apply Z.leb_le in E. lia. }
  unfold run_once. rewrite Hfork. safe_step.
  eapply safe_bind; [apply wait_for_child_safe|]. intros st ->.
  rewrite Hwait. cbn [Z.eqb negb].
  eapply safe_bind; [apply read_file_safe|].
  intros [[a n] err] (Hb & Hn & _). cbn [fst snd] in Hb, Hn.
  assert (Ht : (n =? aux_size) && memcmp_eq a aux n = true).
  { apply (aux_test_bytes a aux n aux_size Hn Hsize).
    rewrite Haux, <- Heq, Hnow, <- Hb. reflexivity. }
  rewrite Ht.
  eapply safe_bind; [apply read_file_safe|].
  intros [[d dsz] derr] (Hd & Hz & He). cbn [fst snd] in Hd, Hz, He.
  rewrite <- Hd. cbn [fst]. destruct d as [bytes|].
  - cbn [buffer_bytes] in Hz. subst dsz. safe_cases.
    do 3 eexists. split; reflexivity.
  - cbn [buffer_bytes] in Hz. subst dsz. destruct (He eq_refl) as (m & -> & Hm).
    apply safe_ret. do 3 eexists. split; [reflexivity|]. exists m. auto.
Qed.

(** C3. The loop of [texcaller_convert] compares the auxiliary file of
    each run with that of the run before.  First part, for every state of
    the allocator: in a pass of the loop whose child exits with status
    zero the auxiliary file is read anew, and the loop has converged
    exactly when its bytes are those the loop holds from the pass before,
    an absent file counting as an empty one (and so two absent files as
    equal).  If it has not, the loop goes on with the next run and with the
    new bytes as the ones to compare with.  If it has, the destination
    file is read: when that fails the loop ends with no destination bytes
    and the error of the reading as diagnostic; otherwise it ends with
    these bytes and a diagnostic (missing only when its allocation fails)
    that reports the destination format, the number of bytes, the source
    format, the number of its bytes and the number of the run.  Second
    part, with a reliable allocator, for the loop as [texcaller_convert]
    starts it, with no auxiliary file from before: when the runs [1] to
    [k] complete, each run before [k] leaves an auxiliary file other than
    the one before it and run [k] leaves the same, the loop ends at run
    [k], with the destination bytes and the report of [k] runs, or with
    the error of reading the destination file. *)
Theorem loop_converges_on_equal_aux (src_format dest_format : string)
    (src_size : Z) (cmd aux_filename dest_filename : string) (s : script)
    (left : nat) (runs : Z) (aux : option string) (aux_size : Z) (w : World) :
  (aux_size = strlen (buffer_bytes aux) ->
   run_completes s runs ->
   let w1 := after_wait (s_run s runs) w in
   let new := read_file aux_filename (r_aux (s_run s runs)) w1 in
   let aux' := fst (fst (fst new)) in
   let aux_size' := snd (fst (fst new)) in
   let out := read_file dest_filename (s_dest s) (snd new) in
   let loop := run_loop src_format dest_format src_size cmd aux_filename
                        dest_filename s (S left) runs aux aux_size w in
   aux_size' = strlen (buffer_bytes aux') /\
   (buffer_bytes aux' <> buffer_bytes aux ->
      loop = run_loop src_format dest_format src_size cmd aux_filename
                      dest_filename s left (runs + 1) aux' aux_size' (snd new)) /\
   (buffer_bytes aux' = buffer_bytes aux ->
      match fst (fst (fst out)) with
      | None => fst loop = Some (None, 0, snd (fst out))
      | Some bytes =>
          let text := success_text dest_format (strlen bytes)
                                   src_format src_size runs in
          fst loop = Some (Some bytes, strlen bytes,
                           if next_alloc (snd out) then Some text else None) /\
          occurs dest_format text /\ occurs (fmt_lu (strlen bytes)) text /\
          occurs src_format text /\ occurs (fmt_lu src_size) text /\
          occurs (fmt_i runs) text
      end)) /\
  (forall max_runs k,
     reliable w ->
     1 <= k <= max_runs ->
     (forall j, 1 <= j <= k -> run_completes s j) ->
     (forall j, 1 <= j < k -> aux_bytes s j <> aux_bytes s (j - 1)) ->
     aux_bytes s k = aux_bytes s (k - 1) ->
     let loop := run_loop src_format dest_format src_size cmd aux_filename
                          dest_filename s (Z.to_nat max_runs) 1 None 0 w in
     match fst (read_bytes (s_dest s)) with
     | Some bytes =>
         fst loop = Some (Some bytes, strlen bytes,
                          Some (success_text dest_format (strlen bytes)
                                             src_format src_size k))
     | None =>
         exists m, fst loop = Some (None, 0, Some m)
                   /\ prefix "Unable to " m = true
     end).
Proof.
  split.
  - intros Hsize Hruns w1 new aux' aux_size' out loop.
    assert (Hsize' : aux_size' = strlen (buffer_bytes aux')) by apply read_file_size.
    pose proof (run_once_completed src_format dest_format src_size cmd aux_filename
                  dest_filename s runs aux aux_size w Hruns) as He.
    cbv zeta in He. fold w1 in He. fold new in He. fold out in He.
    split; [exact Hsize'|].
    pose proof (aux_test_bytes aux' aux aux_size' aux_size Hsize' Hsize) as Htest.
    assert (Hloop : loop
      = let (e, w2) := run_once src_format dest_format src_size cmd aux_filename
                                dest_filename s runs aux aux_size w in
        match e with
        | Goto_cleanup d dsz i => (Some (d, dsz, i), w2)
        | Next_run a n =>
            run_loop src_format dest_format src_size cmd aux_filename
                     dest_filename s left (runs + 1) a n w2
        end).
    { subst loop. cbn [run_loop]. unfold bind.
      destruct (run_once _ _ _ _ _ _ _ _ _ _ _) as [[a n|d dsz i] w2]; reflexivity. }
    rewrite He in Hloop. subst aux' aux_size'.
    destruct (fst (fst new)) as [a n] eqn:En. cbn [fst snd] in *.
    split.
    + intros Hne. rewrite Hloop.
      destruct ((n =? aux_size) && memcmp_eq a aux n); [|reflexivity].
      elim Hne. now apply Htest.
    + intros Heq. apply Htest in Heq. rewrite Heq in Hloop.
      pose proof (read_file_size dest_filename (s_dest s) (snd new)) as Hd.
      fold out in Hd.
      destruct (fst (fst out)) as [d dsz] eqn:Eo. cbn [fst snd] in *.
      destruct d as [b|]; cbn [buffer_bytes] in Hd; subst dsz.
      * split; [|apply success_text_reports].
        rewrite Hloop. cbn [fst]. do 2 f_equal.
        apply sprintf_alloc_outcome. discriminate.
      * rewrite Hloop. reflexivity.
  - intros max_runs k Hw Hk Hruns Hchange Hsame loop. subst loop.
    destruct (run_loop_reaches src_format dest_format src_size cmd aux_filename
                dest_filename s
                (fun x =>
                   match fst (read_bytes (s_dest s)) with
                   | Some bytes =>
                       x = (Some bytes, strlen bytes,
                            Some (success_text dest_format (strlen bytes)
                                               src_format src_size k))
                   | None =>
                       exists m, x = (None, 0, Some m)
                                 /\ prefix "Unable to " m = true
                   end)
                k (Z.to_nat max_runs) 1 None 0) with (w := w)
      as (calls & _ & [(x & Hx & HQ) _] & _).
    + lia.
    + lia.
    + intros j Hj. split; [apply Hruns; lia | apply Hchange; lia].
    + reflexivity.
    + reflexivity.
    + intros a n Ha Hn. apply run_once_converged; try assumption; try lia.
      apply Hruns. lia.
    + exact Hw.
    + rewrite Hx. destruct (fst (read_bytes (s_dest s))) as [bytes|].
      * now rewrite HQ.
      * destruct HQ as (m & -> & Hm). exists m. auto.
Qed.

Lemma loop_converges_on_equal_aux_witness :
  fst (run_loop "TeX" "PDF" 4 "pdftex" "/tmp/ws/texput.aux" "/tmp/ws/texput.pdf"
                steady_script (Z.to_nat 5) 1 None 0 fresh_world)
  = Some (Some "%PDF-1.5", 8, Some (success_text "PDF" 8 "TeX" 4 2)).
Proof.
  apply (proj2 (loop_converges_on_equal_aux "TeX" "PDF" 4 "pdftex"
                  "/tmp/ws/texput.aux" "/tmp/ws/texput.pdf" steady_script
                  O 1 None 0 fresh_world) 5 2).
  - constructor.
  - lia.
  - intros j _. split; reflexivity.
  - intros j Hj. assert (j = 1) by lia. subst j. vm_compute. discriminate.
  - reflexivity.
Defined.

Section Conversion_ends.

Variables (src src_format dest_format : string) (max_runs : Z) (s : script).

(** When the formats are supported, [max_runs] is at least 2, the workspace
    is created and the source file is written without incident, the forks
    of the code before [cleanup] are those of the loop, with a reliable
    allocator. *)
Lemma convert_body_reaches (cmd suffix : string) (Q : locals -> nat -> Prop) :
  select_cmd src_format dest_format = Some cmd ->
  2 <= max_runs ->
  s_mkdtemp s = Created suffix ->
  written (s_write s) src ->
  let dir := workspace s suffix in
  yields (run_loop src_format dest_format (strlen src) cmd (dir ++ "/texput.aux")
                   (dir ++ (if streq dest_format "DVI"
                            then "/texput.dvi" else "/texput.pdf"))
                   s (Z.to_nat max_runs) 1 None 0)
         (fun e calls =>
            Q match e with
              | Some (d, dsz, i) =>
                  mkLocals d dsz i (Some dir) (Some (dir ++ "/texput.log"))
              | None =>
                  mkLocals None 0 (Some (exhausted_text max_runs))
                           (Some dir) (Some (dir ++ "/texput.log"))
              end (forks calls)) ->
  yields (convert_body src src_format dest_format max_runs s)
         (fun l calls => Q l (forks calls)).
Proof.
  intros Hcmd Hmax Hmk Hwr dir Hloop. subst dir.
  unfold convert_body, workspace in *. cbv zeta. rewrite Hcmd, Hmk.
  destruct (max_runs <? 2) eqn:Emax; [apply Z.ltb_lt in Emax; lia|].
  set (tmpdir := match s_TMPDIR s with
                 | Some t => if streq t EmptyString then "/tmp" else t
                 | None => "/tmp"
                 end) in *.
  yields_step. yields_step. yields_step. do 3 yields_step.
  eapply yields_bind with
    (P := fun p calls =>
            p = Some ((tmpdir ++ "/texcaller-temp-" ++ suffix)
                      ++ (if streq dest_format "DVI"
                          then "/texput.dvi" else "/texput.pdf"))
            /\ calls = []).
  { destruct (streq dest_format "DVI"); apply yields_sprintf_alloc; nonempty. }
  intros p c0 [-> ->].
  eapply yields_bind;
    [apply always_yields; [apply write_file_safe | apply write_file_always]|].
  intros [rc error] cw [[Hw _] [_ Hcw]].
  apply pair_equal_spec in Hw; [|exact Hwr]. destruct Hw as [-> ->].
  cbn [Z.eqb negb].
  eapply yields_bind; [exact Hloop|].
  intros [[[d dsz] i]|] cl HQ.
  - yields_step. forks_norm. exact HQ.
  - yields_step. yields_step. forks_norm. exact HQ.
Qed.

(** The loop ends at pass [k] with [d], [dsz] and the diagnostic [i]: the
    call hands them over, the log added to the diagnostic, after [k]
    forks, when the workspace is then removed and the diagnostic with the
    log fits in an [int]. *)
Lemma conversion_ends_at (cmd suffix : string) (k : Z)
    (d : option string) (dsz : Z) (i : string) :
  select_cmd src_format dest_format = Some cmd ->
  2 <= max_runs ->
  s_mkdtemp s = Created suffix ->
  written (s_write s) src ->
  1 <= k <= max_runs ->
  (forall j, 1 <= j < k ->
             run_completes s j /\ aux_bytes s j <> aux_bytes s (j - 1)) ->
  (forall a n aux_filename dest_filename,
     buffer_bytes a = aux_bytes s (k - 1) -> n = strlen (buffer_bytes a) ->
     safe (run_once src_format dest_format (strlen src) cmd aux_filename
                    dest_filename s k a n)
          (fun e => exists d' dsz' i',
             e = Goto_cleanup d' dsz' i' /\ (d', dsz', i') = (d, dsz, Some i))) ->
  final_rmdir (s_tree s) = Done ->
  strlen (i ++ log_tail s) <= INT_MAX ->
  yields (texcaller_convert src src_format dest_format max_runs s)
         (fun r calls => r = mkResult d dsz (Some (i ++ log_tail s))
                         /\ forks calls = Z.to_nat k).
Proof.
  intros Hcmd Hmax Hmk Hwr Hk Hall Hlast Hrm Hfit. unfold texcaller_convert.
  eapply yields_bind.
  - apply (convert_body_reaches cmd suffix
             (fun l n => l = mkLocals d dsz (Some i) (Some (workspace s suffix))
                                      (Some (workspace s suffix ++ "/texput.log"))
                         /\ n = Z.to_nat k)
             Hcmd Hmax Hmk Hwr).
    eapply yields_weaken.
    + apply (run_loop_reaches src_format dest_format (strlen src) cmd _ _ s
               (fun x => x = (d, dsz, Some i)) k);
        [lia | lia | exact Hall | reflexivity | reflexivity |].
      intros a n Ha Hn. apply Hlast; assumption.
    + intros r c [(x & -> & ->) Hf]. split; [reflexivity|].
      rewrite Hf. f_equal. lia.
  - intros l c1 [-> Hc1].
    eapply yields_weaken.
    + apply always_yields;
        [apply (cleanup_safe s _ i); [reflexivity | intros _; exact Hfit]|].
      apply cleanup_always.
    + intros r c2 [-> [Hc2 _]]. cbn [l_dir l_dest l_dest_size l_log_filename].
      rewrite Hrm. split; [reflexivity|]. forks_norm. exact Hc1.
Qed.

End Conversion_ends.

(** X14. The conversion ends at the first run that leaves the auxiliary
    file as the run before left it.  With a reliable allocator, supported
    formats, [max_runs >= 2], a workspace created and then removed, and the
    source file written: if the runs [1] to [k] complete, [k <= max_runs],
    each run before [k] changes the auxiliary file and run [k] does not,
    the destination file can be read, and the report of the success with
    the log has at most [INT_MAX] bytes, then [texcaller_convert] hands
    back the bytes of the destination file and their number, the
    diagnostic reports the success after [k] runs and goes on with the log,
    and the calling process has forked [k] times. *)
Theorem converges_at_run (src src_format dest_format : string) (max_runs : Z)
    (s : script) (w : World) (suffix : string) (k : Z) (bytes : string) :
  reliable w ->
  supported src_format dest_format ->
  2 <= max_runs ->
  s_mkdtemp s = Created suffix ->
  written (s_write s) src ->
  1 <= k <= max_runs ->
  (forall j, 1 <= j <= k -> run_completes s j) ->
  (forall j, 1 <= j < k -> aux_bytes s j <> aux_bytes s (j - 1)) ->
  aux_bytes s k = aux_bytes s (k - 1) ->
  fst (read_bytes (s_dest s)) = Some bytes ->
  final_rmdir (s_tree s) = Done ->
  strlen (success_text dest_format (strlen bytes) src_format (strlen src) k
          ++ log_tail s) <= INT_MAX ->
  fst (texcaller_convert src src_format dest_format max_runs s w)
  = mkResult (Some bytes) (strlen bytes)
             (Some (success_text dest_format (strlen bytes) src_format (strlen src) k
                    ++ log_tail s)) /\
  forks (trace (snd (texcaller_convert src src_format dest_format max_runs s w)))
  = (forks (trace w) + Z.to_nat k)%nat.
Proof.
  intros Hw [cmd Hcmd] Hmax Hmk Hwr Hk Hruns Hchange Hsame Hdest Hrm Hfit.
  apply select_cmd_supported in Hcmd.
  destruct (conversion_ends_at src src_format dest_format max_runs s cmd suffix k
              (Some bytes) (strlen bytes)
              (success_text dest_format (strlen bytes) src_format (strlen src) k)
              Hcmd Hmax Hmk Hwr Hk) with (w := w)
    as (calls & Ht & [Hr Hf] & _).
  - intros j Hj. split; [apply Hruns; lia | apply Hchange; lia].
  - intros a n aux_filename dest_filename Ha Hn.
    apply run_once_settles; try assumption; try lia. apply Hruns. lia.
  - exact Hrm.
  - exact Hfit.
  - exact Hw.
  - split; [exact Hr|]. rewrite (forks_of_calls _ _ _ Ht), Hf. lia.
Qed.

Lemma converges_at_run_witness :
  fst (texcaller_convert "\end" "TeX" "PDF" 5 steady_script fresh_world)
  = mkResult (Some "%PDF-1.5") 8
             (Some (success_text "PDF" 8 "TeX" 4 2 ++ log_tail steady_script)) /\
  forks (trace (snd (texcaller_convert "\end" "TeX" "PDF" 5 steady_script fresh_world)))
  = 2%nat.
Proof.
  apply (converges_at_run "\end" "TeX" "PDF" 5 steady_script fresh_world
           "qWeRtY" 2 "%PDF-1.5").
  - constructor.
  - exists "pdftex". cbn [supported_pairs In]. tauto.
  - lia.
  - reflexivity.
  - repeat split.
  - lia.
  - intros j _. split; reflexivity.
  - intros j Hj. assert (j = 1) by lia. subst j. vm_compute. discriminate.
  - reflexivity.
  - reflexivity.
  - reflexivity.
  - apply Z.leb_le. vm_compute. reflexivity.
Defined.

(** X15. A run of the engine that does not complete is not tried again.
    With a reliable allocator, supported formats, [max_runs >= 2], a
    workspace created and then removed, and the source file written: if
    the runs before [k] complete and change the auxiliary file and run [k]
    does not complete ([fork] or [waitpid] fails, the child is ended by a
    signal or exits with a status other than zero), and the diagnostic of
    that run with the log has at most [INT_MAX] bytes, then
    [texcaller_convert] hands back no document, the diagnostic is the one
    of that run followed by the log, and the calling process has forked
    [k] times. *)
Theorem engine_failure_ends_conversion (src src_format dest_format : string)
    (max_runs : Z) (s : script) (w : World) (cmd suffix : string) (k : Z)
    (cause : string) :
  reliable w ->
  In (src_format, dest_format, cmd) supported_pairs ->
  2 <= max_runs ->
  s_mkdtemp s = Created suffix ->
  written (s_write s) src ->
  1 <= k <= max_runs ->
  (forall j, 1 <= j < k ->
             run_completes s j /\ aux_bytes s j <> aux_bytes s (j - 1)) ->
  engine_failure cmd (s_run s k) = Some cause ->
  final_rmdir (s_tree s) = Done ->
  strlen (cause ++ log_tail s) <= INT_MAX ->
  fst (texcaller_convert src src_format dest_format max_runs s w)
  = mkResult None 0 (Some (cause ++ log_tail s)) /\
  forks (trace (snd (texcaller_convert src src_format dest_format max_runs s w)))
  = (forks (trace w) + Z.to_nat k)%nat.
Proof.
  intros Hw Hcmd Hmax Hmk Hwr Hk Hall Hfail Hrm Hfit.
  apply select_cmd_supported in Hcmd.
  destruct (conversion_ends_at src src_format dest_format max_runs s cmd suffix k
              None 0 cause Hcmd Hmax Hmk Hwr Hk Hall) with (w := w)
    as (calls & Ht & [Hr Hf] & _).
  - intros a n aux_filename dest_filename Ha Hn. now apply run_once_fails.
  - exact Hrm.
  - exact Hfit.
  - exact Hw.
  - split; [exact Hr|]. rewrite (forks_of_calls _ _ _ Ht), Hf. lia.
Qed.

Lemma engine_failure_ends_conversion_witness :
  fst (texcaller_convert "\end" "TeX" "PDF" 5 failing_script fresh_world)
  = mkResult None 0
      (Some (("Command " ++ quoted "pdftex" ++ " terminated with exit status 1.")
             ++ log_tail failing_script)) /\
  forks (trace (snd (texcaller_convert "\end" "TeX" "PDF" 5 failing_script fresh_world)))
  = 2%nat.
Proof.
  apply (engine_failure_ends_conversion "\end" "TeX" "PDF" 5 failing_script
           fresh_world "pdftex" "qWeRtY" 2).
  - constructor.
  - cbn [supported_pairs In]. tauto.
  - lia.
  - reflexivity.
  - repeat split.
  - lia.
  - intros j Hj. assert (j = 1) by lia. subst j.
    split; [split; reflexivity|]. vm_compute. discriminate.
  - reflexivity.
  - reflexivity.
  - apply Z.leb_le. vm_compute. reflexivity.
Defined.

(** ** Converting: the calls stay in the workspace *)

Lemma beneath_file (dir name : string) : beneath dir (dir ++ "/" ++ name) = true.
Proof.
  unfold beneath. rewrite <- append_assoc, prefix_append. apply orb_true_r.
Qed.

Lemma on_file_in_workspace (dir path : string) (calls : list syscall) :
  beneath dir path = true ->
  Forall (on_file path) calls -> Forall (in_workspace dir) calls.
Proof.
  intros Hb. apply Forall_impl. intros c.
  destruct c; cbn [on_file in_workspace]; try contradiction; intros ->; exact Hb.
Qed.

Lemma removes_in_workspace (dir : string) (calls : list syscall) :
  Forall (removes_in dir) calls -> Forall (in_workspace dir) calls.
Proof.
  apply Forall_impl. intros c.
  destruct c; cbn [removes_in in_workspace]; try contradiction; exact id.
Qed.

Lemma read_file_inside (dir path : string) (rs : read_script) :
  beneath dir path = true ->
  always (read_file path rs) (fun _ calls => Forall (in_workspace dir) calls).
Proof.
  intros Hb. eapply always_weaken; [apply read_file_calls|].
  intros a c. now apply on_file_in_workspace.
Qed.

(** A list of calls put together from lists of calls in the workspace. *)
Ltac inside_calls :=
  cbv beta;
  repeat first [ assumption | exact I | apply Forall_nil | apply Forall_cons
               | apply Forall_app; split ].

Section Inside.

Variables (src_format dest_format : string) (src_size : Z).
Variables (cmd aux_filename dest_filename dir : string).
Variable s : script.
Hypothesis aux_inside : beneath dir aux_filename = true.
Hypothesis dest_inside : beneath dir dest_filename = true.

Lemma run_once_inside (runs : Z) (aux : option string) (aux_size : Z) :
  always (run_once src_format dest_format src_size cmd aux_filename dest_filename s
                   runs aux aux_size)
         (fun _ calls => Forall (in_workspace dir) calls).
Proof.
  unfold run_once. always_step.
  destruct (r_fork (s_run s runs)) as [|r1];
    [|repeat always_step; inside_calls].
  eapply always_bind with (P := fun _ calls => Forall (in_workspace dir) calls).
  { eapply always_weaken; [apply wait_for_child_calls|].
    intros a c Hc. eapply Forall_impl; [|exact Hc]. intros x <-. exact I. }
  intros st c1 Hc1.
  destruct st as [r2|sig|status]; [repeat always_step; inside_calls ..|].
  destruct (status =? 0); cbn [negb]; [|repeat always_step; inside_calls].
  eapply always_bind; [apply (read_file_inside dir); exact aux_inside|].
  intros [[a n] err] c2 Hc2. cbv beta iota.
  destruct ((n =? aux_size) && memcmp_eq a aux n); [|always_step; inside_calls].
  eapply always_bind; [apply (read_file_inside dir); exact dest_inside|].
  intros [[d dsz] derr] c3 Hc3. cbv beta iota.
  destruct d as [b|]; repeat always_step; inside_calls.
Qed.

Lemma run_loop_inside (left : nat) (runs : Z) (aux : option string) (aux_size : Z) :
  always (run_loop src_format dest_format src_size cmd aux_filename dest_filename s
                   left runs aux aux_size)
         (fun _ calls => Forall (in_workspace dir) calls).
Proof.
  revert runs aux aux_size. induction left as [|left IH]; intros runs aux aux_size;
    cbn [run_loop]; [always_step; inside_calls|].
  eapply always_bind; [apply run_once_inside|]. intros [a n|d dsz i] c1 Hc1.
  - eapply always_weaken; [apply IH|]. intros r c Hc. inside_calls.
  - always_step. inside_calls.
Qed.

End Inside.

Section Workspace.

Variables (src src_format dest_format : string) (max_runs : Z) (s : script).

(** Once the workspace is created, the code before [cleanup] stays in it,
    and leaves its name and that of the log file to the code at
    [cleanup]. *)
Lemma convert_body_inside (cmd suffix : string) :
  select_cmd src_format dest_format = Some cmd ->
  2 <= max_runs ->
  s_mkdtemp s = Created suffix ->
  let dir := workspace s suffix in
  yields (convert_body src src_format dest_format max_runs s)
         (fun l calls =>
            l_dir l = Some dir /\
            l_log_filename l = Some (dir ++ "/texput.log") /\
            exists inside,
              calls = (inside ++ [Mkdtemp (workspace_template s); Getenv "TMPDIR"])%list
              /\ Forall (in_workspace dir) inside).
Proof.
  intros Hcmd Hmax Hmk dir. subst dir.
  unfold convert_body, workspace, workspace_template. cbv zeta. rewrite Hcmd, Hmk.
  destruct (max_runs <? 2) eqn:Emax; [apply Z.ltb_lt in Emax; lia|].
  set (tmpdir := match s_TMPDIR s with
                 | Some t => if streq t EmptyString then "/tmp" else t
                 | None => "/tmp"
                 end).
  set (dir := tmpdir ++ "/texcaller-temp-" ++ suffix).
  yields_step. yields_step. yields_step.
  eapply yields_weaken with
    (P := fun l calls => l_dir l = Some dir /\
                         l_log_filename l = Some (dir ++ "/texput.log") /\
                         Forall (in_workspace dir) calls).
  2:{ intros l c (H1 & H2 & H3). cbv beta. split; [exact H1|]. split; [exact H2|].
      exists c. split; [|exact H3].
      rewrite app_nil_r, <- app_assoc. reflexivity. }
  do 3 yields_step.
  eapply yields_bind with
    (P := fun p calls =>
            p = Some (dir ++ (if streq dest_format "DVI"
                              then "/texput.dvi" else "/texput.pdf"))
            /\ calls = []).
  { destruct (streq dest_format "DVI"); apply yields_sprintf_alloc; nonempty. }
  intros p c0 [-> ->].
  assert (Hdest : beneath dir (dir ++ (if streq dest_format "DVI"
                                       then "/texput.dvi" else "/texput.pdf")) = true).
  { destruct (streq dest_format "DVI");
      [apply (beneath_file dir "texput.dvi") | apply (beneath_file dir "texput.pdf")]. }
  eapply yields_bind.
  { apply always_yields; [apply write_file_safe|].
    eapply always_weaken; [apply write_file_calls|].
    intros a c. apply (on_file_in_workspace dir).
    apply (beneath_file dir "texput.tex"). }
  intros [rc error] cw [_ Hcw]. cbv beta iota.
  destruct (negb (rc =? 0)).
  { yields_step. cbn [l_dir l_log_filename]. repeat split. inside_calls. }
  eapply yields_bind.
  { apply always_yields; [apply run_loop_safe|].
    apply (run_loop_inside src_format dest_format (strlen src) cmd
             (dir ++ "/texput.aux") _ dir s
             (beneath_file dir "texput.aux") Hdest). }
  intros [[[d dsz] i]|] cl [_ Hcl]; repeat yields_step;
    cbn [l_dir l_log_filename]; repeat split; inside_calls.
Qed.

(** The code at [cleanup] stays in the workspace, and ends with the
    [rmdir] of it. *)
Lemma cleanup_inside (l : locals) (dir : string) :
  l_dir l = Some dir ->
  l_log_filename l = Some (dir ++ "/texput.log") ->
  yields (cleanup s l)
         (fun _ calls => Forall (in_workspace dir) calls /\
                         hd_error calls = Some (Rmdir dir)).
Proof.
  intros Hdir Hlog. unfold cleanup, append_log, remove_workspace.
  rewrite Hdir, Hlog.
  eapply yields_bind with (P := fun _ calls => Forall (in_workspace dir) calls).
  - eapply yields_bind.
    { apply always_yields; [apply read_file_keeps_reliable|].
      apply (read_file_inside dir). apply (beneath_file dir "texput.log"). }
    intros [[log log_size] error] c1 [_ Hc1]. cbv beta iota.
    destruct log as [log|]; [|yields_step; inside_calls].
    destruct (l_info l) as [info_old|]; [|yields_step; inside_calls].
    eapply yields_weaken.
    { apply always_yields;
        [apply sprintf_alloc_int_reliable | apply always_sprintf_alloc_int]. }
    intros a c [_ [_ ->]]. inside_calls.
  - intros i c1 Hc1.
    eapply yields_bind; [apply remove_directory_calls|].
    intros [rc error] c2 ->. cbv beta iota.
    assert (Hin : Forall (in_workspace dir) (rev (removal_calls dir (s_tree s)))).
    { apply removes_in_workspace, Forall_rev, removal_calls_inside. }
    assert (Hlast : forall c, hd_error (([] ++ rev (removal_calls dir (s_tree s))) ++ c)%list
                              = Some (Rmdir dir)).
    { intros c. destruct (removal_calls_last dir (s_tree s)) as [x ->].
      rewrite rev_app_distr. reflexivity. }
    destruct (negb (rc =? 0)); yields_step; (split; [inside_calls | apply Hlast]).
Qed.

End Workspace.

(** X16. Once its workspace is created, the process that calls
    [texcaller_convert] touches nothing outside it and always ends by
    removing it.  With a reliable allocator, supported formats and
    [max_runs >= 2]: when [mkdtemp] creates the directory, the calls this
    process makes in [texcaller_convert] are [getenv], [mkdtemp], and then
    only [fork], [waitpid] and calls on the directory or on paths beneath
    it; the last of them is the [rmdir] of the directory, whatever went
    wrong in between.  (The children it forks are other processes: what
    they do after [fork] returns [0] is not part of this trace.) *)
Theorem conversion_stays_in_workspace (src src_format dest_format : string)
    (max_runs : Z) (s : script) (w : World) (suffix : string) :
  reliable w ->
  supported src_format dest_format ->
  2 <= max_runs ->
  s_mkdtemp s = Created suffix ->
  exists inside,
    trace (snd (texcaller_convert src src_format dest_format max_runs s w))
    = (inside ++ Mkdtemp (workspace_template s) :: Getenv "TMPDIR" :: trace w)%list /\
    Forall (in_workspace (workspace s suffix)) inside /\
    hd_error inside = Some (Rmdir (workspace s suffix)).
Proof.
  intros Hw [cmd Hcmd] Hmax Hmk. apply select_cmd_supported in Hcmd.
  assert (Hy : yields (texcaller_convert src src_format dest_format max_runs s)
                 (fun _ calls =>
                    exists inside,
                      calls = (inside ++ [Mkdtemp (workspace_template s);
                                          Getenv "TMPDIR"])%list /\
                      Forall (in_workspace (workspace s suffix)) inside /\
                      hd_error inside = Some (Rmdir (workspace s suffix)))).
  { unfold texcaller_convert.
    eapply yields_bind;
      [apply (convert_body_inside src src_format dest_format max_runs s cmd suffix
                Hcmd Hmax Hmk)|].
    intros l c1 (Hdir & Hlog & inside & -> & Hin).
    eapply yields_weaken; [apply (cleanup_inside s l _ Hdir Hlog)|].
    intros r c2 [Hc2 Hlast]. exists (c2 ++ inside)%list.
    split; [apply app_assoc|]. split; [apply Forall_app; auto|].
    destruct c2; [discriminate Hlast | exact Hlast]. }
  destruct (Hy w Hw) as (calls & Ht & (inside & -> & Hin & Hlast) & _).
  exists inside. rewrite Ht, <- app_assoc. auto.
Qed.

Lemma conversion_stays_in_workspace_witness :
  exists inside,
    trace (snd (texcaller_convert "\end" "TeX" "PDF" 5 failing_script fresh_world))
    = (inside ++ Mkdtemp (workspace_template failing_script)
         :: Getenv "TMPDIR" :: trace fresh_world)%list /\
    Forall (in_workspace (workspace failing_script "qWeRtY")) inside /\
    hd_error inside = Some (Rmdir (workspace failing_script "qWeRtY")).
Proof.
  apply (conversion_stays_in_workspace "\end" "TeX" "PDF" 5 failing_script
           fresh_world "qWeRtY").
  - constructor.
  - exists "pdftex". cbn [supported_pairs In]. tauto.
  - lia.
  - reflexivity.
Defined.



(** ** Converting: a log too long for the diagnostic *)

(** With a log that makes the diagnostic longer than an [int] holds, the
    code at [cleanup] leaves no diagnostic. *)
Lemma cleanup_long_log (s : script) (l : locals) (d log : string) :
  l_info l = Some d ->
  l_log_filename l <> None ->
  fst (read_bytes (s_log s)) = Some log ->
  INT_MAX < strlen (d ++ nl ++ nl ++ cstr log) ->
  safe (cleanup s l)
       (fun r => r = match l_dir l, final_rmdir (s_tree s) with
                     | Some dir, Fails _ =>
                         mkResult None 0 (snd (removal_report dir (s_tree s)))
                     | _, _ => mkResult (l_dest l) (l_dest_size l) None
                     end).
Proof.
  intros Hi Hlog Hread Hlong. unfold cleanup.
  eapply safe_bind with (P := fun i => i = None).
  - unfold append_log. destruct (l_log_filename l) as [log_filename|];
      [|now elim Hlog].
    eapply safe_bind; [apply read_file_safe|].
    intros [[log' log_size] error] (Hb & _). cbn [fst snd] in Hb.
    rewrite <- Hb in Hread. cbn [fst] in Hread. subst log'.
    rewrite Hi. unfold sprintf_alloc_int.
    apply Z.ltb_lt in Hlong. rewrite Hlong. now apply safe_ret.
  - intros i ->. apply remove_workspace_safe.
Qed.

Lemma cstr_repeat_char (n : nat) : cstr (repeat_char "x" n) = repeat_char "x" n.
Proof.
  induction n as [|n IH]; [reflexivity|].
  change (cstr (repeat_char "x" (S n))) with (String "x" (cstr (repeat_char "x" n))).
  now rewrite IH.
Qed.

Lemma cstr_long_format : cstr long_format = long_format.
Proof. unfold long_format. apply cstr_repeat_char. Qed.

(** X18. A log too long for an [int] costs the diagnostic, not the
    document.  With a reliable allocator, supported formats,
    [max_runs >= 2], the workspace created and then removed, and the source
    file written: if the conversion ends at run [k] as in a success, the
    log file can be read, and the report of the success joined with the log
    has more than [INT_MAX] bytes, then [texcaller_convert] hands back the
    bytes of the destination file and their number, and no diagnostic at
    all, although no allocation has failed. *)
Theorem diagnostic_lost_with_long_log (src src_format dest_format : string)
    (max_runs : Z) (s : script) (w : World) (suffix : string) (k : Z)
    (bytes log : string) :
  reliable w ->
  supported src_format dest_format ->
  2 <= max_runs ->
  s_mkdtemp s = Created suffix ->
  written (s_write s) src ->
  1 <= k <= max_runs ->
  (forall j, 1 <= j <= k -> run_completes s j) ->
  (forall j, 1 <= j < k -> aux_bytes s j <> aux_bytes s (j - 1)) ->
  aux_bytes s k = aux_bytes s (k - 1) ->
  fst (read_bytes (s_dest s)) = Some bytes ->
  fst (read_bytes (s_log s)) = Some log ->
  final_rmdir (s_tree s) = Done ->
  INT_MAX < strlen (success_text dest_format (strlen bytes) src_format (strlen src) k
                    ++ nl ++ nl ++ cstr log) ->
  fst (texcaller_convert src src_format dest_format max_runs s w)
  = mkResult (Some bytes) (strlen bytes) None.
Proof.
  intros Hw [cmd Hcmd] Hmax Hmk Hwr Hk Hruns Hchange Hsame Hdest Hlog Hrm Hlong.
  apply select_cmd_supported in Hcmd.
  assert (Hs : safe (texcaller_convert src src_format dest_format max_runs s)
                 (fun r => r = mkResult (Some bytes) (strlen bytes) None)).
  { unfold texcaller_convert. eapply safe_bind.
    - apply (convert_body_staged src src_format dest_format max_runs s cmd suffix
               (fun l => l = mkLocals (Some bytes) (strlen bytes)
                               (Some (success_text dest_format (strlen bytes)
                                                   src_format (strlen src) k))
                               (Some (workspace s suffix))
                               (Some (workspace s suffix ++ "/texput.log")))
               Hcmd Hmax Hmk Hwr).
      intros w0 Hw0.
      destruct (run_loop_reaches src_format dest_format (strlen src) cmd
                  (workspace s suffix ++ "/texput.aux")
                  (workspace s suffix
                   ++ (if streq dest_format "DVI" then "/texput.dvi" else "/texput.pdf"))
                  s
                  (fun x => x = (Some bytes, strlen bytes,
                                 Some (success_text dest_format (strlen bytes)
                                                    src_format (strlen src) k)))
                  k (Z.to_nat max_runs) 1 None 0) with (w := w0)
        as (calls & _ & [(x & Hx & HQ) _] & Hw1).
      + lia.
      + lia.
      + intros j Hj. split; [apply Hruns; lia | apply Hchange; lia].
      + reflexivity.
      + reflexivity.
      + intros a n Ha Hn. apply run_once_settles; try assumption; try lia.
        apply Hruns. lia.
      + exact Hw0.
      + split; [|exact Hw1]. rewrite Hx, HQ. reflexivity.
    - intros l ->.
      eapply safe_weaken.
      + apply (cleanup_long_log s _
                 (success_text dest_format (strlen bytes) src_format (strlen src) k)
                 log); [reflexivity | discriminate | exact Hlog | exact Hlong].
      + intros r ->. cbn [l_dir l_dest l_dest_size]. now rewrite Hrm. }
  apply (Hs w Hw).
Qed.

Lemma diagnostic_lost_with_long_log_witness :
  fst (texcaller_convert "\end" "TeX" "PDF" 5 verbose_script fresh_world)
  = mkResult (Some "%PDF-1.5") 8 None.
Proof.
  assert (Hlen : strlen long_format < 2 ^ 64).
  { rewrite strlen_long_format. unfold INT_MAX. lia. }
  assert (Hlog : fst (read_bytes (s_log verbose_script)) = Some long_format).
  { destruct (holds_delivered (plain_file long_format) long_format)
      as (Hd & _ & Hf); [repeat split | exact Hlen |].
    unfold read_bytes. change (s_log verbose_script) with (plain_file long_format).
    rewrite Hf, Hd. reflexivity. }
  apply (diagnostic_lost_with_long_log "\end" "TeX" "PDF" 5 verbose_script
           fresh_world "qWeRtY" 1 "%PDF-1.5" long_format).
  - constructor.
  - exists "pdftex". cbn [supported_pairs In]. tauto.
  - lia.
  - reflexivity.
  - repeat split.
  - lia.
  - intros j _. split; reflexivity.
  - intros j Hj. lia.
  - reflexivity.
  - reflexivity.
  - exact Hlog.
  - reflexivity.
  - rewrite cstr_long_format, !strlen_append, strlen_long_format.
    pose proof (strlen_nonneg (success_text "PDF" (strlen "%PDF-1.5") "TeX"
                                            (strlen "\end") 1)).
    pose proof (strlen_nonneg nl). lia.
Defined.
